(** * met-damm-liquidity-shaker: the retry primitive and the position lifecycle

    A shallow embedding of [helpers.ts], [consts.ts] and [main.ts].

    The program is sequential [async]/[await] code over three libraries
    (web3.js, the cp-amm SDK, bn.js) and the process runtime.  It is embedded
    as a state-and-exception monad over an abstract [World]: every call to a
    collaborator is answered by a [Host], and leaves an [event] in the history
    of the run, with the arguments the program passed and the answer it got.

    Numbers: [BN] is an arbitrary-precision integer, modelled by [Z], with
    the limit bn.js puts on the word handed to [muln] and [divn].  The
    JavaScript numbers of [retry] (the budget, the delays, the multiplier,
    the milliseconds of a timer) are binary64 values, modelled by [number]
    with the rounding of their product.  The loop counter of [retry] and the
    lengths of arrays are integers far below [2^53] and are modelled by [Z];
    so are the basis points of [addSlippage], an integer at its call
    site. *)

From Stdlib Require Import ZArith List String Bool Lia DecimalString SpecFloat.
Import ListNotations.

Local Open Scope Z_scope.

(** ** JavaScript numbers

    A JavaScript number is an IEEE 754 binary64 value.  Every finite one is
    a whole number of units of [2^-1074]; a number is given here by that
    whole number.  The two infinities are given by [2^1024] and its
    opposite, in units: that is where a product goes that is too large for
    a finite value.  [NaN] is left out: the program could only meet it as
    the product of an infinity and zero, which no run of [retry] on finite
    options computes.  The two zeros are one value. *)
Record number : Type := { units : Z }.

(** The number 1, in units. *)
Definition scale : Z := 2 ^ 1074.

(** An integer as a number. *)
Definition ofZ (z : Z) : number := {| units := z * scale |}.

Coercion ofZ : Z >-> number.

(** [mantissa * 2^exponent], for an [exponent] from -1074 on. *)
Definition dyadic (mantissa exponent : Z) : number :=
  {| units := mantissa * 2 ^ (exponent + 1074) |}.

(** [x <= y] *)
Definition number_leb (x y : number) : bool := units x <=? units y.

(** [x === y] *)
Definition number_eqb (x y : number) : bool := units x =? units y.

Definition number_le (x y : number) : Prop := units x <= units y.

Definition number_lt (x y : number) : Prop := units x < units y.

(** [Math.floor(x)], as an integer. *)
Definition floor (x : number) : Z := units x / scale.

(** [Math.min(x, y)] *)
Definition Math_min (x y : number) : number :=
  if units y <? units x then y else x.

(** [magnitude / 2^drop] rounded to the nearest integer, a tie going to the
    even one. *)
Definition roundHalfEven (magnitude drop : Z) : Z :=
  let q := magnitude / 2 ^ drop in
  let r := magnitude mod 2 ^ drop in
  let half := 2 ^ (drop - 1) in
  if r <? half then q
  else if half <? r then q + 1
  else if Z.even q then q else q + 1.

(** [2^1024], in units: the magnitude of the two infinities. *)
Definition huge : Z := 2 ^ 2098.

Definition infinite (x : number) : bool := huge <=? Z.abs (units x).

(** [x * y]: the exact product is a whole number of units of [2^-2148]; it
    is rounded to 53 significant bits, and to whole units of [2^-1074] where
    that is coarser (the subnormal range); a product that rounds to [2^1024]
    or more overflows to the infinity of its sign, and so does the product
    of an infinity. *)
Definition number_mul (x y : number) : number :=
  let product := units x * units y in
  let magnitude := Z.abs product in
  let drop := Z.max 1074 (Z.log2 magnitude - 52) in
  let rounded := roundHalfEven magnitude drop * 2 ^ (drop - 1074) in
  {| units :=
       Z.sgn product
       * (if infinite x || infinite y || (huge <=? rounded) then huge
          else rounded) |}.

(** A binary64 value that is not negative, [+Infinity] included: at most 53
    significant bits, in units. *)
Definition representable (x : number) : Prop :=
  0 <= units x <= huge
  /\ exists c e : Z, 0 <= c < 2 ^ 53 /\ 0 <= e /\ units x = c * 2 ^ e.

(** The binary64 value of the Standard Library that a number stands for. *)
Definition toSpecFloat (x : number) : spec_float :=
  binary_normalize 53 1024 (units x) (-1074) false.

(** ** Values of the libraries *)

(** web3.js [PublicKey]: the program only prints keys ([toBase58]) and passes
    them on. *)
Record PublicKey : Type := { toBase58 : string }.

Record Keypair : Type := {
  publicKey : PublicKey;
  secretKey : list Z
}.

(** web3.js [Connection], built from the RPC url. *)
Record Connection : Type := { rpcEndpoint : string }.

(** The SDK client, [new CpAmm(connection)]. *)
Record CpAmm : Type := { cpAmm_connection : Connection }.

(** bn.js [BN]. *)
Definition BN : Type := Z.

(** The SDK's [PositionState] and [Vesting] accounts are opaque to the
    program, which only hands them back to the SDK. *)
Inductive PositionState : Type := PositionStateAccount (data : list Z).
Inductive Vesting : Type := VestingAccount (data : list Z).

(** The fields of the SDK's pool state that the program reads. *)
Record PoolState : Type := {
  tokenAMint : PublicKey;
  tokenBMint : PublicKey;
  sqrtMinPrice : BN;
  sqrtMaxPrice : BN;
  sqrtPrice : BN
}.

(** [helpers.ts]: [interface UserPosition]. *)
Record UserPosition : Type := {
  positionNftAccount : PublicKey;
  position : PublicKey;
  positionState : PositionState
}.

(** The fields of the SDK's deposit quote that the program reads. *)
Record DepositQuote : Type := {
  actualInputAmount : BN;
  outputAmount : BN;
  liquidityDelta : BN
}.

(** Argument of [cpAmm.getDepositQuote]. *)
Record GetDepositQuoteParams : Type := {
  gdq_inAmount : BN;
  gdq_isTokenA : bool;
  gdq_minSqrtPrice : BN;
  gdq_maxSqrtPrice : BN;
  gdq_sqrtPrice : BN
}.

(** Argument of [cpAmm.createPositionAndAddLiquidity]. *)
Record CreatePositionAndAddLiquidityParams : Type := {
  cp_owner : PublicKey;
  cp_pool : PublicKey;
  cp_positionNft : PublicKey;
  cp_liquidityDelta : BN;
  cp_maxAmountTokenA : BN;
  cp_maxAmountTokenB : BN;
  cp_tokenAAmountThreshold : BN;
  cp_tokenBAmountThreshold : BN;
  cp_tokenAMint : PublicKey;
  cp_tokenBMint : PublicKey;
  cp_tokenAProgram : PublicKey;
  cp_tokenBProgram : PublicKey
}.

(** Argument of [cpAmm.removeAllLiquidityAndClosePosition]. *)
Record RemoveAllLiquidityAndClosePositionParams : Type := {
  rm_owner : PublicKey;
  rm_position : PublicKey;
  rm_positionNftAccount : PublicKey;
  rm_poolState : PoolState;
  rm_positionState : PositionState;
  rm_tokenAAmountThreshold : BN;
  rm_tokenBAmountThreshold : BN;
  rm_vestings : list Vesting;
  rm_currentPoint : BN
}.

(** The instructions the SDK puts into a transaction are opaque to the
    program. *)
Inductive Instructions : Type := InstructionData (data : list Z).

(** web3.js [Transaction]: a mutable object; the fields the program sets are
    [None] until set. *)
Record Transaction : Type := {
  instructions : Instructions;
  recentBlockhash : option string;
  feePayer : option PublicKey;
  lastValidBlockHeight : option Z;
  signedBy : list PublicKey
}.

(** Result of [connection.getLatestBlockhash()]. *)
Record BlockhashWithExpiryBlockHeight : Type := {
  bh_blockhash : string;
  bh_lastValidBlockHeight : Z
}.

(** ** Thrown values *)

(** What a [throw] carries: [undefined] (the value of a variable never
    assigned) or an [Error] object with its message. *)
Inductive exn : Type :=
| undefined
| Error (message : string).

(** [error instanceof Error ? error.message : "Unknown error"] *)
Definition messageOf (error : exn) : string :=
  match error with
  | Error message => message
  | undefined => "Unknown error"
  end.

(** An answer of a collaborator: it throws (rejects) or returns (resolves). *)
Definition answer (A : Type) : Type := (exn + A)%type.

(** ** bn.js arithmetic

    [muln] and [divn] take a JavaScript number, an integer here, and open
    with an assertion on its magnitude; a failed assertion throws
    [Error("Assertion failed")]. *)

(** [amount.muln(n)]: [assert(num < 0x4000000)] on the magnitude of
    [n]. *)
Definition muln (amount : BN) (n : Z) : answer BN :=
  if Z.abs n <? 67108864 then inr (amount * n)
  else inl (Error "Assertion failed").

(** [amount.divn(n)]: [assert(num <= 0x3ffffff)] on the magnitude of [n],
    then division of the magnitudes, the sign kept, that is truncation
    toward zero. *)
Definition divn (amount : BN) (n : Z) : answer BN :=
  if Z.abs n <=? 67108863 then inr (Z.quot amount n)
  else inl (Error "Assertion failed").

(** ** The history of a run

    [ConsoleLog]: [console.log(text, ...)]; [ConsoleLogMaxRetries]:
    [console.log({ maxRetries })], the object recorded and not its rendering
    by the runtime; [SetTimeout]: [setTimeout(resolve, ms)]. *)

Inductive event : Type :=
| ConsoleLog (text : string)
| ConsoleLogMaxRetries (maxRetries : number)
| ConsoleError (text : string) (error : exn)
| SetTimeout (ms : number)
| ProcessExit (code : Z)
| Invoked (name : string) (threw : option exn)
| KeypairGenerate (made : Keypair)
| GetLatestBlockhash (connection : Connection)
    (got : answer BlockhashWithExpiryBlockHeight)
| SendAndConfirmTransaction (connection : Connection) (tx : Transaction)
    (signers : list Keypair) (got : answer string)
| GetPositionsByUser (owner : PublicKey) (got : answer (list UserPosition))
| FetchPoolState (pool : PublicKey) (got : answer PoolState)
| GetDepositQuote (params : GetDepositQuoteParams) (got : answer DepositQuote)
| CreatePositionAndAddLiquidity (params : CreatePositionAndAddLiquidityParams)
    (got : answer Transaction)
| RemoveAllLiquidityAndClosePosition
    (params : RemoveAllLiquidityAndClosePositionParams)
    (got : answer Transaction).

(** ** The host: the runtime and the libraries, over a world *)

Record Host (World : Type) : Type := {
  (** [process.env.NAME] *)
  processEnv : string -> World -> option string;
  (** [process.argv.slice(2)] *)
  processArgs : World -> list string;
  (** [s.split(",").map((v) => Number(v.trim()))] put into a [Uint8Array] *)
  parseByteList : string -> list Z;
  (** what happens to the world while a timer of [ms] milliseconds runs *)
  elapse : number -> World -> World;
  (** [new Connection(rpcUrl)]: web3.js checks the URL and throws on one it
      does not accept *)
  newConnection : string -> answer Connection;
  (** [Keypair.fromSecretKey] *)
  keypairFromSecretKey : list Z -> answer Keypair;
  (** [Keypair.generate()] *)
  keypairGenerate : World -> Keypair * World;
  getLatestBlockhash :
    Connection -> World -> answer BlockhashWithExpiryBlockHeight * World;
  sendAndConfirmTransaction :
    Connection -> Transaction -> list Keypair -> World -> answer string * World;
  getPositionsByUser :
    CpAmm -> PublicKey -> World -> answer (list UserPosition) * World;
  fetchPoolState : CpAmm -> PublicKey -> World -> answer PoolState * World;
  getDepositQuote : CpAmm -> GetDepositQuoteParams -> answer DepositQuote;
  createPositionAndAddLiquidity :
    CpAmm -> CreatePositionAndAddLiquidityParams -> World ->
    answer Transaction * World;
  removeAllLiquidityAndClosePosition :
    CpAmm -> RemoveAllLiquidityAndClosePositionParams -> World ->
    answer Transaction * World
}.

Arguments processEnv {World}.
Arguments processArgs {World}.
Arguments parseByteList {World}.
Arguments elapse {World}.
Arguments newConnection {World}.
Arguments keypairFromSecretKey {World}.
Arguments keypairGenerate {World}.
Arguments getLatestBlockhash {World}.
Arguments sendAndConfirmTransaction {World}.
Arguments getPositionsByUser {World}.
Arguments fetchPoolState {World}.
Arguments getDepositQuote {World}.
Arguments createPositionAndAddLiquidity {World}.
Arguments removeAllLiquidityAndClosePosition {World}.

(** ** The monad of runs *)

(** What a run leaves: how it completed, the world after it and the events
    it added to the history, oldest first. *)
Record Run (World A : Type) : Type := {
  outcome : answer A;
  world_after : World;
  events : list event
}.

Arguments outcome {World A}.
Arguments world_after {World A}.
Arguments events {World A}.

Definition M (World A : Type) : Type := World -> Run World A.

Section Monad.
Context {World : Type}.

Definition ret {A} (a : A) : M World A :=
  fun w => {| outcome := inr a; world_after := w; events := [] |}.

(** [throw e] *)
Definition throw {A} (e : exn) : M World A :=
  fun w => {| outcome := inl e; world_after := w; events := [] |}.

Definition bind {A B} (m : M World A) (k : A -> M World B) : M World B :=
  fun w =>
    let r := m w in
    match outcome r with
    | inl e =>
        {| outcome := inl e; world_after := world_after r;
           events := events r |}
    | inr a =>
        let r' := k a (world_after r) in
        {| outcome := outcome r'; world_after := world_after r';
           events := events r ++ events r' |}
    end.

(** [try { m } catch (error) { handler(error) }] *)
Definition try_catch {A} (m : M World A) (handler : exn -> M World A)
  : M World A :=
  fun w =>
    let r := m w in
    match outcome r with
    | inl e =>
        let r' := handler e (world_after r) in
        {| outcome := outcome r'; world_after := world_after r';
           events := events r ++ events r' |}
    | inr a => r
    end.

(** A run with earlier history put in front of its events. *)
Definition after_events {A} (history : list event) (r : Run World A)
  : Run World A :=
  {| outcome := outcome r; world_after := world_after r;
     events := history ++ events r |}.

(** One event, no change of the world. *)
Definition emit (ev : event) : M World unit :=
  fun w => {| outcome := inr tt; world_after := w; events := [ev] |}.

(** A call to a collaborator: the host answers, and the call is recorded
    with its answer. *)
Definition call {A} (record : answer A -> event)
    (op : World -> answer A * World) : M World A :=
  fun w =>
    let (got, w') := op w in
    {| outcome := got; world_after := w'; events := [record got] |}.

(** A call to a collaborator that does not touch the world. *)
Definition call_pure {A} (record : answer A -> event) (got : answer A)
  : M World A :=
  fun w => {| outcome := got; world_after := w; events := [record got] |}.

(** The evaluation of an expression, which may throw. *)
Definition lift {A} (got : answer A) : M World A :=
  fun w => {| outcome := got; world_after := w; events := [] |}.

(** An operation the program knows nothing about (the callback handed to
    [retry]), observed as a test double would observe it: each invocation
    is recorded with what it threw, if it threw. *)
Definition opaque {A} (name : string) (op : World -> answer A * World)
  : M World A :=
  call (fun got => Invoked name
                     match got with inl e => Some e | inr _ => None end) op.

(** [console.log(text, ...)]: the text is recorded; how the runtime renders
    further arguments is not. *)
Definition console_log (text : string) : M World unit :=
  emit (ConsoleLog text).

End Monad.

Declare Scope run_scope.
Delimit Scope run_scope with run.
Notation "x <- m ;; k" := (bind m (fun x => k))
  (at level 61, m at next level, right associativity) : run_scope.
Notation "m ;; k" := (bind m (fun _ => k))
  (at level 61, right associativity) : run_scope.

(** ** consts.ts *)

Definition SOL_USDC_POOL_PK : PublicKey :=
  {| toBase58 := "8Pm2kZpnxD3hoMmt4bjStX2Pw2Z9abpbHzZxMPqxPmie" |}.

Definition SLIPPAGE_BPS : Z := 100.

Definition DEPOSIT_AMOUNT : BN := 1000000.

Definition MAX_TOKEN_A_AMOUNT : BN := 10000000.

Definition ZERO_SLIPPAGE_THRESHOLD : BN := 0.

(** [TOKEN_PROGRAM_ID] of [@solana/spl-token]. *)
Definition TOKEN_PROGRAM_ID : PublicKey :=
  {| toBase58 := "TokenkegQfeZyiNwAJbNbGKPFXCWuBvf9Ss623VQ5DA" |}.

(** ** helpers.ts *)

(** Rendering of an integer inside a template literal. *)
Definition show_Z (z : Z) : string := NilZero.string_of_int (Z.to_int z).

(** [addSlippage]: [amount.muln(10_000 + slippageBps).divn(10_000)] *)
Definition addSlippage (amount : BN) (slippageBps : Z) : answer BN :=
  match muln amount (10000 + slippageBps) with
  | inl e => inl e
  | inr product => divn product 10000
  end.

Record RetryOptions : Type := {
  maxRetries : number;
  initialDelay : option number;
  maxDelay : option number;
  backoffMultiplier : option number;
  debug : option bool
}.

(** A destructuring default, [{ field = dflt } = options]. *)
Definition orDefault {A} (field : option A) (dflt : A) : A :=
  match field with
  | Some a => a
  | None => dflt
  end.

(** The options [createPosition] hands to [retry]; [readRetries] is the
    integer [8] in one copy of [helpers.ts] and [3] in the other. *)
Definition readOptions (readRetries : Z) : RetryOptions :=
  {| maxRetries := ofZ readRetries;
     initialDelay := Some (ofZ 1000);
     maxDelay := Some (ofZ 30000);
     backoffMultiplier := Some (ofZ 2);
     debug := None |}.

Section Helpers.
Context {World : Type} (host : Host World).

Local Open Scope run_scope.

(** [sleep]: the promise of a timer; it resolves when the timer fires and
    has no way to reject. *)
Definition sleep (ms : number) : M World unit :=
  fun w => {| outcome := inr tt; world_after := elapse host ms w;
              events := [SetTimeout ms] |}.

Section Retry.
Context {T : Type}.
Variable callback : M World T.
Variables (maxRetries' maxDelay' backoffMultiplier' : number) (debug' : bool).
(** The statement that follows the [for] loop; in [retry] it is
    [throw lastError]. *)
Variable afterLoop : exn -> M World T.

(** The [for] loop of [retry], entered at its test with the loop
    variables [attempt], [delay] and [lastError]; [rounds] is the number
    of times the test [attempt <= maxRetries] will still hold.  The counter
    [attempt] takes the values 0, 1, 2, ..., which binary64 holds exactly up
    to [2^53]: it is an integer here. *)
Fixpoint retry_rounds (rounds : nat) (attempt : Z) (delay : number)
    (lastError : exn) : M World T :=
  match rounds with
  | O => afterLoop lastError
  | S rounds' =>
      try_catch
        (result <- callback ;;
         (if debug' then console_log "result..." else ret tt) ;;
         ret result)
        (fun error =>
           console_log "Retry failed..." ;;
           let lastError := error in
           if number_eqb attempt maxRetries' then throw lastError
           else
             sleep (Math_min delay maxDelay') ;;
             let delay := number_mul delay backoffMultiplier' in
             retry_rounds rounds' (attempt + 1) delay lastError)
  end.

(** The test [attempt <= maxRetries] holds for the integers from [attempt]
    to [Math.floor(maxRetries)]. *)
Definition retry_loop (attempt : Z) (delay : number) (lastError : exn)
  : M World T :=
  retry_rounds (Z.to_nat (floor maxRetries' + 1 - attempt)) attempt delay
    lastError.
End Retry.

(** [retry], with the statement after its loop left open. *)
Definition retry_then {T} (afterLoop : exn -> M World T)
    (callback : M World T) (options : RetryOptions) : M World T :=
  let maxRetries := maxRetries options in
  let initialDelay := orDefault (initialDelay options) 100 in
  let maxDelay := orDefault (maxDelay options) 30000 in
  let backoffMultiplier := orDefault (backoffMultiplier options) 2 in
  let debug := orDefault (debug options) false in
  let lastError := undefined in
  let delay := initialDelay in
  (if debug then emit (ConsoleLogMaxRetries maxRetries) else ret tt) ;;
  retry_loop callback maxRetries maxDelay backoffMultiplier debug afterLoop
    0 delay lastError.

(** [retry] *)
Definition retry {T} (callback : M World T) (options : RetryOptions)
  : M World T :=
  retry_then (fun lastError => throw lastError) callback options.

(** The SDK and web3.js calls of the program. *)
Definition Keypair_generate : M World Keypair :=
  fun w =>
    let (kp, w') := keypairGenerate host w in
    {| outcome := inr kp; world_after := w'; events := [KeypairGenerate kp] |}.

Definition cpAmm_getPositionsByUser (cpAmm : CpAmm) (owner : PublicKey)
  : M World (list UserPosition) :=
  call (GetPositionsByUser owner) (getPositionsByUser host cpAmm owner).

Definition cpAmm_fetchPoolState (cpAmm : CpAmm) (pool : PublicKey)
  : M World PoolState :=
  call (FetchPoolState pool) (fetchPoolState host cpAmm pool).

Definition cpAmm_getDepositQuote (cpAmm : CpAmm)
    (params : GetDepositQuoteParams) : M World DepositQuote :=
  call_pure (GetDepositQuote params) (getDepositQuote host cpAmm params).

Definition cpAmm_createPositionAndAddLiquidity (cpAmm : CpAmm)
    (params : CreatePositionAndAddLiquidityParams) : M World Transaction :=
  call (CreatePositionAndAddLiquidity params)
    (createPositionAndAddLiquidity host cpAmm params).

Definition cpAmm_removeAllLiquidityAndClosePosition (cpAmm : CpAmm)
    (params : RemoveAllLiquidityAndClosePositionParams)
  : M World Transaction :=
  call (RemoveAllLiquidityAndClosePosition params)
    (removeAllLiquidityAndClosePosition host cpAmm params).

Definition connection_getLatestBlockhash (connection : Connection)
  : M World BlockhashWithExpiryBlockHeight :=
  call (GetLatestBlockhash connection) (getLatestBlockhash host connection).

Definition web3_sendAndConfirmTransaction (connection : Connection)
    (transaction : Transaction) (signers : list Keypair) : M World string :=
  call (SendAndConfirmTransaction connection transaction signers)
    (sendAndConfirmTransaction host connection transaction signers).

(** [transaction.sign(...signers)]: web3.js throws [Error("No signers")]
    on an empty list. *)
Definition Transaction_sign (transaction : Transaction)
    (signers : list Keypair) : answer Transaction :=
  match signers with
  | [] => inl (Error "No signers")
  | _ :: _ =>
      inr {| instructions := instructions transaction;
             recentBlockhash := recentBlockhash transaction;
             feePayer := feePayer transaction;
             lastValidBlockHeight := lastValidBlockHeight transaction;
             signedBy := map publicKey signers |}
  end.

(** [loadEnv] *)
Definition loadEnv : M World (string * list Z) :=
  fun w =>
    match processEnv host "RPC_URL" w with
    | None | Some EmptyString =>
        throw (Error "RPC_URL environment variable is not set") w
    | Some rpcUrl =>
        match processEnv host "SECRET_KEY" w with
        | None | Some EmptyString =>
            throw (Error "SECRET_KEY environment variable is not set") w
        | Some secretKeyStr =>
            (secretKey <-
               try_catch
                 (let secretKey := parseByteList host secretKeyStr in
                  if negb (Z.of_nat (List.length secretKey) =? 64)
                  then throw (Error "Invalid secret key length")
                  else ret secretKey)
                 (fun error =>
                    throw (Error ("Failed to parse SECRET_KEY: "
                                  ++ messageOf error))) ;;
             ret (rpcUrl, secretKey)) w
        end
    end.

(** [prepareAndSignTransaction].  The transaction is one mutable object: the
    value returned here is the object the caller goes on to send. *)
Definition prepareAndSignTransaction (connection : Connection)
    (transaction : Transaction) (feePayer : Keypair) (signers : list Keypair)
  : M World Transaction :=
  blockhash <- connection_getLatestBlockhash connection ;;
  let transaction :=
    {| instructions := instructions transaction;
       recentBlockhash := Some (bh_blockhash blockhash);
       feePayer := Some (publicKey feePayer);
       lastValidBlockHeight := Some (bh_lastValidBlockHeight blockhash);
       signedBy := signedBy transaction |} in
  transaction <- lift (Transaction_sign transaction signers) ;;
  ret transaction.

Section Lifecycle.
(** The repository holds two copies of [helpers.ts] that differ in one
    constant: the [maxRetries] of the read that follows the create write,
    the integer [8] in the first copy and [3] in the second. *)
Variable readRetries : Z.

(** The callback [createPosition] hands to [retry]. *)
Definition readCreatedPosition (cpAmm : CpAmm) (user : Keypair)
  : M World UserPosition :=
  userPositions <- cpAmm_getPositionsByUser cpAmm (publicKey user) ;;
  match userPositions with
  | [] => throw (Error "Position not found after creation")
  | first :: _ => ret first
  end.

(** [createPosition] *)
Definition createPosition (cpAmm : CpAmm) (connection : Connection)
    (user : Keypair) (poolState : PoolState) (depositQuote : DepositQuote)
  : M World UserPosition :=
  console_log "Creating new position..." ;;
  positionNft <- Keypair_generate ;;
  tokenAAmountThreshold <-
    lift (addSlippage (actualInputAmount depositQuote) SLIPPAGE_BPS) ;;
  tokenBAmountThreshold <-
    lift (addSlippage (outputAmount depositQuote) SLIPPAGE_BPS) ;;
  createPositionTx <-
    cpAmm_createPositionAndAddLiquidity cpAmm
      {| cp_owner := publicKey user;
         cp_pool := SOL_USDC_POOL_PK;
         cp_positionNft := publicKey positionNft;
         cp_liquidityDelta := liquidityDelta depositQuote;
         cp_maxAmountTokenA := MAX_TOKEN_A_AMOUNT;
         cp_maxAmountTokenB := outputAmount depositQuote;
         cp_tokenAAmountThreshold := tokenAAmountThreshold;
         cp_tokenBAmountThreshold := tokenBAmountThreshold;
         cp_tokenAMint := tokenAMint poolState;
         cp_tokenBMint := tokenBMint poolState;
         cp_tokenAProgram := TOKEN_PROGRAM_ID;
         cp_tokenBProgram := TOKEN_PROGRAM_ID |} ;;
  createPositionTx <-
    prepareAndSignTransaction connection createPositionTx user
      [user; positionNft] ;;
  signature <-
    web3_sendAndConfirmTransaction connection createPositionTx
      [user; positionNft] ;;
  console_log ("✓ Position created: " ++ signature) ;;
  position <-
    retry (readCreatedPosition cpAmm user) (readOptions readRetries) ;;
  ret position.

(** [closePosition] *)
Definition closePosition (cpAmm : CpAmm) (connection : Connection)
    (user : Keypair) (position' : UserPosition) (poolState : PoolState)
  : M World unit :=
  console_log "Removing all liquidity and closing position..." ;;
  closePositionTx <-
    cpAmm_removeAllLiquidityAndClosePosition cpAmm
      {| rm_owner := publicKey user;
         rm_position := position position';
         rm_positionNftAccount := positionNftAccount position';
         rm_poolState := poolState;
         rm_positionState := positionState position';
         rm_tokenAAmountThreshold := ZERO_SLIPPAGE_THRESHOLD;
         rm_tokenBAmountThreshold := ZERO_SLIPPAGE_THRESHOLD;
         rm_vestings := [];
         rm_currentPoint := 0 |} ;;
  closePositionTx <-
    prepareAndSignTransaction connection closePositionTx user [user] ;;
  signature <-
    web3_sendAndConfirmTransaction connection closePositionTx [user] ;;
  console_log ("✓ Position closed: " ++ signature) ;;
  userPositions <- cpAmm_getPositionsByUser cpAmm (publicKey user) ;;
  if 0 <? Z.of_nat (List.length userPositions)
  then
    throw (Error ("Position still exists after close attempt. Found "
                  ++ show_Z (Z.of_nat (List.length userPositions))
                  ++ " position(s)"))
  else ret tt.

(** ** main.ts *)

(** How the process stands when the model stops following it: [main]
    returned, [process.exit] was called, or the loop of [--loop] is still
    going after the iterations the model was asked to follow. *)
Inductive ProcessStatus : Type :=
| Returned
| Exited (code : Z)
| StillLooping.

(** The body of the [try] block of [main]: one cycle of the driver. *)
Definition cycle : M World unit :=
  env <- loadEnv ;;
  let (rpcUrl, secretKey) := env in
  connection <- lift (newConnection host rpcUrl) ;;
  user <- lift (keypairFromSecretKey host secretKey) ;;
  let cpAmm := {| cpAmm_connection := connection |} in
  console_log ("Using wallet: " ++ toBase58 (publicKey user)) ;;
  userPositions <- cpAmm_getPositionsByUser cpAmm (publicKey user) ;;
  position' <-
    match userPositions with
    | first :: _ =>
        console_log ("Found existing position: "
                     ++ toBase58 (position first)) ;;
        ret (Some first)
    | [] =>
        poolState <- cpAmm_fetchPoolState cpAmm SOL_USDC_POOL_PK ;;
        depositQuote <-
          cpAmm_getDepositQuote cpAmm
            {| gdq_inAmount := DEPOSIT_AMOUNT;
               gdq_isTokenA := true;
               gdq_minSqrtPrice := sqrtMinPrice poolState;
               gdq_maxSqrtPrice := sqrtMaxPrice poolState;
               gdq_sqrtPrice := sqrtPrice poolState |} ;;
        created <- createPosition cpAmm connection user poolState
                     depositQuote ;;
        ret (Some created)
    end ;;
  match position' with
  | None => throw (Error "Failed to obtain position")
  | Some position' =>
      sleep 1000 ;;
      poolState <- cpAmm_fetchPoolState cpAmm SOL_USDC_POOL_PK ;;
      closePosition cpAmm connection user position' poolState ;;
      console_log "🎉 Completed successfully 🚀"
  end.

(** The [while (true)] loop of [main], followed for at most [iterations]
    iterations. *)
Fixpoint main_loop (iterations : nat) (loop : bool) : M World ProcessStatus :=
  match iterations with
  | O => ret StillLooping
  | S iterations' =>
      exited <-
        try_catch (cycle ;; ret None)
          (fun error =>
             emit (ConsoleError "❌ Failed:" error) ;;
             emit (ProcessExit 1) ;;
             ret (Some (Exited 1))) ;;
      match exited with
      | Some status => ret status
      | None =>
          if negb loop then ret Returned else main_loop iterations' loop
      end
  end.

(** [main] *)
Definition main (iterations : nat) : M World ProcessStatus :=
  fun w =>
    let args := processArgs host w in
    let loop := false in
    (loop <- (if existsb (String.eqb "--loop") args
              then console_log "🔁 Running in loop mode " ;; ret true
              else ret loop) ;;
     main_loop iterations loop) w.

End Lifecycle.
End Helpers.

(** ** Reading a history *)

(** How many times the operation under [retry] was invoked. *)
Definition invocations (history : list event) : nat :=
  List.length
    (filter (fun ev => match ev with Invoked _ _ => true | _ => false end)
       history).

(** What the invocations threw, oldest first. *)
Definition thrown (history : list event) : list exn :=
  flat_map (fun ev => match ev with Invoked _ (Some e) => [e] | _ => [] end)
    history.

(** The timers the run waited for, oldest first. *)
Definition waits (history : list event) : list number :=
  flat_map (fun ev => match ev with SetTimeout ms => [ms] | _ => [] end)
    history.

(** The answers to the reads of the owner's positions, oldest first. *)
Definition reads (history : list event) : list (answer (list UserPosition)) :=
  flat_map (fun ev => match ev with GetPositionsByUser _ got => [got]
                                  | _ => [] end)
    history.

(** The requests for a create-and-add-liquidity transaction. *)
Definition createRequests (history : list event)
  : list CreatePositionAndAddLiquidityParams :=
  flat_map (fun ev => match ev with CreatePositionAndAddLiquidity p _ => [p]
                                  | _ => [] end)
    history.

(** The requests for a remove-all-liquidity-and-close transaction. *)
Definition closeRequests (history : list event)
  : list RemoveAllLiquidityAndClosePositionParams :=
  flat_map (fun ev => match ev with
                      | RemoveAllLiquidityAndClosePosition p _ => [p]
                      | _ => [] end)
    history.

(** The deposit quotes asked for. *)
Definition quoteRequests (history : list event) : list GetDepositQuoteParams :=
  flat_map (fun ev => match ev with GetDepositQuote p _ => [p] | _ => [] end)
    history.

(** The transactions submitted. *)
Definition submitted (history : list event) : list Transaction :=
  flat_map (fun ev => match ev with
                      | SendAndConfirmTransaction _ tx _ _ => [tx]
                      | _ => [] end)
    history.

(** ** The backoff schedule *)

(** The delay variable of [retry] after [i] multiplications, each product
    rounded as binary64 rounds it, never capped. *)
Definition nominalDelay (options : RetryOptions) (i : nat) : number :=
  Nat.iter i
    (fun delay => number_mul delay (orDefault (backoffMultiplier options) 2))
    (orDefault (initialDelay options) 100).

(** The wait after the failed attempt of index [i] (from 0), that is before
    attempt [i + 2] counted from 1. *)
Definition backoffWait (options : RetryOptions) (i : nat) : number :=
  Math_min (nominalDelay options i) (orDefault (maxDelay options) 30000).

(** The wait before attempt [i + 2] as the specification words it:
    [min (initialDelay * multiplier ^ i) maxDelay], in exact arithmetic. *)
Definition specifiedWait (initialDelay' multiplier maxDelay' : Z) (i : nat)
  : Z :=
  Z.min (initialDelay' * multiplier ^ Z.of_nat i) maxDelay'.

(** The trace line of [debug] that opens a run of [retry]. *)
Definition debugHeader (options : RetryOptions) : list event :=
  if orDefault (debug options) false
  then [ConsoleLogMaxRetries (maxRetries options)]
  else [].

(** The history of failed attempts that are followed by a wait: attempt
    [i], [i + 1], ... threw [errors]. *)
Fixpoint failedRounds (name : string) (options : RetryOptions) (i : nat)
    (errors : list exn) : list event :=
  match errors with
  | [] => []
  | e :: errors' =>
      [Invoked name (Some e); ConsoleLog "Retry failed...";
       SetTimeout (backoffWait options i)]
      ++ failedRounds name options (S i) errors'
  end.

(** The history of the attempt that ends a run of [retry]: it returned, or
    it threw and no retry was left. *)
Definition lastRound (name : string) (options : RetryOptions)
    (threw : option exn) : list event :=
  match threw with
  | None =>
      Invoked name None
      :: (if orDefault (debug options) false then [ConsoleLog "result..."]
          else [])
  | Some e => [Invoked name (Some e); ConsoleLog "Retry failed..."]
  end.

(** Every wait of the history is followed at once by an invocation of the
    operation. *)
Fixpoint waitsLeadToAttempts (history : list event) : bool :=
  match history with
  | [] => true
  | SetTimeout _ :: rest =>
      match rest with
      | Invoked _ _ :: _ => waitsLeadToAttempts rest
      | _ => false
      end
  | _ :: rest => waitsLeadToAttempts rest
  end.

(** ** Cancellation, as the specification words it

    In a run during which cancellation was requested, [retry] fails in the
    delay phase: the run ends on the wait that was cut short, and the error
    is of a kind of its own, not one the operation threw. *)
Definition cancelsDuringWait {World T : Type} (requested : World -> bool)
    (r : Run World T) : Prop :=
  requested (world_after r) = true ->
  exists (cancellation : exn) (before : list event) (ms : number),
    outcome r = inl cancellation
    /\ ~ In cancellation (thrown (events r))
    /\ events r = before ++ [SetTimeout ms].

(** ** A laboratory host

    A small ledger to run the program on: a position created by a confirmed
    write stays invisible to the next [lab_hidden] reads, and somebody asks
    for cancellation during every wait. *)

Record Lab : Type := {
  lab_clock : Z;
  lab_ledger : list UserPosition;
  lab_hidden : nat;
  lab_cancelRequested : bool;
  lab_calls : nat
}.

Definition labOwner : Keypair :=
  {| publicKey := {| toBase58 := "owner" |}; secretKey := repeat 0 64 |}.

Definition labNft : Keypair :=
  {| publicKey := {| toBase58 := "nft" |}; secretKey := repeat 1 64 |}.

Definition labPosition : UserPosition :=
  {| positionNftAccount := {| toBase58 := "nft-account" |};
     position := {| toBase58 := "position" |};
     positionState := PositionStateAccount [7] |}.

Definition labOtherPosition : UserPosition :=
  {| positionNftAccount := {| toBase58 := "nft-account-2" |};
     position := {| toBase58 := "position-2" |};
     positionState := PositionStateAccount [8] |}.

Definition labPool : PoolState :=
  {| tokenAMint := {| toBase58 := "mint-a" |};
     tokenBMint := {| toBase58 := "mint-b" |};
     sqrtMinPrice := 1; sqrtMaxPrice := 1000; sqrtPrice := 30 |}.

Definition labTransaction (kind : Z) : Transaction :=
  {| instructions := InstructionData [kind]; recentBlockhash := None;
     feePayer := None; lastValidBlockHeight := None; signedBy := [] |}.

Definition labStart (ledger : list UserPosition) : Lab :=
  {| lab_clock := 0; lab_ledger := ledger; lab_hidden := 0;
     lab_cancelRequested := false; lab_calls := 0 |}.

(** [lag]: the number of reads that miss a freshly created position;
    [stuck]: whether a confirmed close leaves the position where it is. *)
Definition labHost (lag : nat) (stuck : bool) : Host Lab :=
  {| processEnv name w :=
       if String.eqb name "RPC_URL" then Some "http://localhost:8899"%string
       else if String.eqb name "SECRET_KEY" then Some "0,0,0"%string
       else None;
     processArgs w := [];
     parseByteList s := repeat 0 64;
     elapse ms w :=
       {| lab_clock := lab_clock w + floor ms; lab_ledger := lab_ledger w;
          lab_hidden := lab_hidden w; lab_cancelRequested := true;
          lab_calls := lab_calls w |};
     newConnection url := inr {| rpcEndpoint := url |};
     keypairFromSecretKey bytes := inr labOwner;
     keypairGenerate w := (labNft, w);
     getLatestBlockhash c w :=
       (inr {| bh_blockhash := "blockhash"; bh_lastValidBlockHeight := 1000 |},
        w);
     sendAndConfirmTransaction c tx signers w :=
       (inr "signature"%string,
        match instructions tx with
        | InstructionData [1] =>
            {| lab_clock := lab_clock w; lab_ledger := [labPosition];
               lab_hidden := lag;
               lab_cancelRequested := lab_cancelRequested w;
               lab_calls := lab_calls w |}
        | InstructionData [2] =>
            {| lab_clock := lab_clock w;
               lab_ledger := if stuck then lab_ledger w else [];
               lab_hidden := lab_hidden w;
               lab_cancelRequested := lab_cancelRequested w;
               lab_calls := lab_calls w |}
        | _ => w
        end);
     getPositionsByUser c owner w :=
       match lab_hidden w with
       | O => (inr (lab_ledger w), w)
       | S hidden =>
           (inr [],
            {| lab_clock := lab_clock w; lab_ledger := lab_ledger w;
               lab_hidden := hidden;
               lab_cancelRequested := lab_cancelRequested w;
               lab_calls := lab_calls w |})
       end;
     fetchPoolState c pool w := (inr labPool, w);
     getDepositQuote c params :=
       inr {| actualInputAmount := gdq_inAmount params;
              outputAmount := 150000; liquidityDelta := 7 |};
     createPositionAndAddLiquidity c params w := (inr (labTransaction 1), w);
     removeAllLiquidityAndClosePosition c params w :=
       (inr (labTransaction 2), w) |}.

Definition labConnection : Connection :=
  {| rpcEndpoint := "http://localhost:8899" |}.

Definition labCpAmm : CpAmm := {| cpAmm_connection := labConnection |}.

Definition labQuote : DepositQuote :=
  {| actualInputAmount := 1000000; outputAmount := 150000;
     liquidityDelta := 7 |}.

(** The transaction of the given kind once [prepareAndSignTransaction] has
    been through it. *)
Definition labSigned (kind : Z) (signers : list Keypair) : Transaction :=
  {| instructions := InstructionData [kind];
     recentBlockhash := Some "blockhash"%string;
     feePayer := Some (publicKey labOwner);
     lastValidBlockHeight := Some 1000;
     signedBy := map publicKey signers |}.

(** An operation that throws on its first [failures] invocations, each time
    an error that names the invocation, and returns [42] from then on. *)
Definition labFlaky (failures : nat) (w : Lab) : answer Z * Lab :=
  (if (lab_calls w <? failures)%nat
   then inl (Error ("failure " ++ show_Z (Z.of_nat (lab_calls w))))
   else inr 42,
   {| lab_clock := lab_clock w; lab_ledger := lab_ledger w;
      lab_hidden := lab_hidden w;
      lab_cancelRequested := lab_cancelRequested w;
      lab_calls := S (lab_calls w) |}).

(** An operation that always throws, each time an error that names the
    invocation. *)
Definition labFailing (w : Lab) : answer Z * Lab :=
  (inl (Error ("failure " ++ show_Z (Z.of_nat (lab_calls w)))),
   {| lab_clock := lab_clock w; lab_ledger := lab_ledger w;
      lab_hidden := lab_hidden w;
      lab_cancelRequested := lab_cancelRequested w;
      lab_calls := S (lab_calls w) |}).

Definition labOptions (retries : Z) : RetryOptions :=
  {| maxRetries := ofZ retries; initialDelay := Some (ofZ 1000);
     maxDelay := Some (ofZ 3000); backoffMultiplier := Some (ofZ 2);
     debug := None |}.

(** ** Further definitions for the histories, the driver and the
    laboratory *)

(** A history without the lines written to the console. *)
Definition withoutLogs (history : list event) : list event :=
  filter (fun ev => match ev with
                    | ConsoleLog _ | ConsoleLogMaxRetries _ => false
                    | _ => true
                    end)
    history.

(** The time a history spent waiting on timers: the exact sum. *)
Definition totalWait (history : list event) : number :=
  {| units := fold_right Z.add 0 (map units (waits history)) |}.

(** The world after the failed attempts [i], [i + 1], ... of [op], [n] of
    them, each followed by its wait. *)
Fixpoint afterFailedRounds {World T : Type} (host : Host World)
    (op : World -> answer T * World) (options : RetryOptions) (i n : nat)
    (w : World) : World :=
  match n with
  | O => w
  | S n' =>
      afterFailedRounds host op options (S i) n'
        (elapse host (backoffWait options i) (snd (op w)))
  end.

(** The transaction [built] as [prepareAndSignTransaction] leaves it, for
    a list of signers that is not empty. *)
Definition preparedTransaction (built : Transaction)
    (blockhash : BlockhashWithExpiryBlockHeight) (feePayer' : Keypair)
    (signers : list Keypair) : Transaction :=
  {| instructions := instructions built;
     recentBlockhash := Some (bh_blockhash blockhash);
     feePayer := Some (publicKey feePayer');
     lastValidBlockHeight := Some (bh_lastValidBlockHeight blockhash);
     signedBy := map publicKey signers |}.

(** An environment variable that [loadEnv] takes for missing: not set, or
    set to the empty string. *)
Definition unset (value : option string) : Prop :=
  value = None \/ value = Some EmptyString.

(** A laboratory host whose environment is empty, started with
    [--loop]. *)
Definition labUnconfigured : Host Lab :=
  {| processEnv name w := None;
     processArgs w := ["--loop"%string];
     parseByteList := parseByteList (labHost 0 false);
     elapse := elapse (labHost 0 false);
     newConnection := newConnection (labHost 0 false);
     keypairFromSecretKey := keypairFromSecretKey (labHost 0 false);
     keypairGenerate := keypairGenerate (labHost 0 false);
     getLatestBlockhash := getLatestBlockhash (labHost 0 false);
     sendAndConfirmTransaction := sendAndConfirmTransaction (labHost 0 false);
     getPositionsByUser := getPositionsByUser (labHost 0 false);
     fetchPoolState := fetchPoolState (labHost 0 false);
     getDepositQuote := getDepositQuote (labHost 0 false);
     createPositionAndAddLiquidity :=
       createPositionAndAddLiquidity (labHost 0 false);
     removeAllLiquidityAndClosePosition :=
       removeAllLiquidityAndClosePosition (labHost 0 false) |}.

(** A laboratory host on which no transaction is ever confirmed. *)
Definition labOffline : Host Lab :=
  {| processEnv := processEnv (labHost 0 false);
     processArgs := processArgs (labHost 0 false);
     parseByteList := parseByteList (labHost 0 false);
     elapse := elapse (labHost 0 false);
     newConnection := newConnection (labHost 0 false);
     keypairFromSecretKey := keypairFromSecretKey (labHost 0 false);
     keypairGenerate := keypairGenerate (labHost 0 false);
     getLatestBlockhash := getLatestBlockhash (labHost 0 false);
     sendAndConfirmTransaction c tx signers w :=
       (inl (Error "block height exceeded"), w);
     getPositionsByUser := getPositionsByUser (labHost 0 false);
     fetchPoolState := fetchPoolState (labHost 0 false);
     getDepositQuote := getDepositQuote (labHost 0 false);
     createPositionAndAddLiquidity :=
       createPositionAndAddLiquidity (labHost 0 false);
     removeAllLiquidityAndClosePosition :=
       removeAllLiquidityAndClosePosition (labHost 0 false) |}.

(** The laboratory host started with [--loop]. *)
Definition labLooping : Host Lab :=
  {| processEnv := processEnv (labHost 0 false);
     processArgs w := ["--loop"%string];
     parseByteList := parseByteList (labHost 0 false);
     elapse := elapse (labHost 0 false);
     newConnection := newConnection (labHost 0 false);
     keypairFromSecretKey := keypairFromSecretKey (labHost 0 false);
     keypairGenerate := keypairGenerate (labHost 0 false);
     getLatestBlockhash := getLatestBlockhash (labHost 0 false);
     sendAndConfirmTransaction := sendAndConfirmTransaction (labHost 0 false);
     getPositionsByUser := getPositionsByUser (labHost 0 false);
     fetchPoolState := fetchPoolState (labHost 0 false);
     getDepositQuote := getDepositQuote (labHost 0 false);
     createPositionAndAddLiquidity :=
       createPositionAndAddLiquidity (labHost 0 false);
     removeAllLiquidityAndClosePosition :=
       removeAllLiquidityAndClosePosition (labHost 0 false) |}.

(** The end of the [try] block of [main], from the sleep on, for the
    position [held]. *)
Definition closeHeld {World : Type} (host : Host World) (cpAmm : CpAmm)
    (connection : Connection) (user : Keypair) (held : UserPosition)
  : M World unit :=
  bind (sleep host 1000) (fun _ =>
  bind (cpAmm_fetchPoolState host cpAmm SOL_USDC_POOL_PK) (fun poolState =>
  bind (closePosition host cpAmm connection user held poolState) (fun _ =>
  console_log "🎉 Completed successfully 🚀"))).

(** The deposit quote [main] asks for, given the pool state it fetched. *)
Definition quoteParams (poolState : PoolState) : GetDepositQuoteParams :=
  {| gdq_inAmount := DEPOSIT_AMOUNT;
     gdq_isTokenA := true;
     gdq_minSqrtPrice := sqrtMinPrice poolState;
     gdq_maxSqrtPrice := sqrtMaxPrice poolState;
     gdq_sqrtPrice := sqrtPrice poolState |}.

(** The kinds of event [createPosition] leaves. *)
Definition createEvent (ev : event) : Prop :=
  match ev with
  | ConsoleLog _ | KeypairGenerate _ | CreatePositionAndAddLiquidity _ _
  | GetLatestBlockhash _ _ | SendAndConfirmTransaction _ _ _ _
  | GetPositionsByUser _ _ | SetTimeout _ => True
  | _ => False
  end.

(** The events a cycle of [main] is made of: everything but the error
    report, the exit of the process and the marks of instrumented
    callbacks. *)
Definition cycleEvent (ev : event) : Prop :=
  match ev with
  | ConsoleError _ _ | ProcessExit _ | Invoked _ _ => False
  | _ => True
  end.

(** The [--loop] flag as [main] reads it. *)
Definition loopMode {World} (host : Host World) (w : World) : bool :=
  existsb (String.eqb "--loop") (processArgs host w).

(** What [closePosition] asks the SDK for [labPosition] in [labPool]. *)
Definition labCloseRequest : RemoveAllLiquidityAndClosePositionParams :=
  {| rm_owner := publicKey labOwner;
     rm_position := position labPosition;
     rm_positionNftAccount := positionNftAccount labPosition;
     rm_poolState := labPool;
     rm_positionState := positionState labPosition;
     rm_tokenAAmountThreshold := 0;
     rm_tokenBAmountThreshold := 0;
     rm_vestings := [];
     rm_currentPoint := 0 |}.

(** ** Numbers *)

Lemma scale_pos : 0 < scale.
Proof. unfold scale. apply Z.pow_pos_nonneg; lia. Qed.

Lemma ofZ_inj (a b : Z) : ofZ a = ofZ b -> a = b.
Proof.
  unfold ofZ. intros H. injection H as H. pose proof scale_pos. nia.
Qed.

Lemma number_eqb_ofZ (a b : Z) : number_eqb (ofZ a) (ofZ b) = (a =? b).
Proof.
  unfold number_eqb, ofZ. cbn [units]. pose proof scale_pos.
  destruct (a =? b) eqn:Hab.
  - apply Z.eqb_eq in Hab. subst. apply Z.eqb_refl.
  - apply Z.eqb_neq in Hab. apply Z.eqb_neq. nia.
Qed.

Lemma number_leb_ofZ (a : Z) (x : number) :
  number_leb (ofZ a) x = (a <=? floor x).
Proof.
  unfold number_leb, ofZ, floor. cbn [units]. pose proof scale_pos as Hs.
  destruct (a <=? units x / scale) eqn:Hle.
  - apply Z.leb_le in Hle. apply Z.leb_le.
    pose proof (Z.mul_div_le (units x) scale Hs). nia.
  - apply Z.leb_gt in Hle. apply Z.leb_gt.
    apply Z.lt_le_trans with ((units x / scale + 1) * scale); [|nia].
    pose proof (Z.mod_pos_bound (units x) scale Hs).
    pose proof (Z.div_mod (units x) scale ltac:(lia)). nia.
Qed.

Lemma number_lt_ofZ (a b : Z) : number_lt (ofZ a) (ofZ b) <-> a < b.
Proof.
  unfold number_lt, ofZ. cbn [units]. pose proof scale_pos. nia.
Qed.

Lemma number_le_ofZ (a b : Z) : number_le (ofZ a) (ofZ b) <-> a <= b.
Proof.
  unfold number_le, ofZ. cbn [units]. pose proof scale_pos. nia.
Qed.

Lemma number_lt_or_le (x y : number) : number_lt x y \/ number_le y x.
Proof. unfold number_lt, number_le. lia. Qed.

Lemma floor_ofZ (a : Z) : floor (ofZ a) = a.
Proof.
  unfold floor, ofZ. cbn [units]. pose proof scale_pos.
  apply Z.div_mul. lia.
Qed.

Lemma Math_min_ofZ (a b : Z) : Math_min (ofZ a) (ofZ b) = ofZ (Z.min a b).
Proof.
  unfold Math_min, ofZ. cbn [units]. pose proof scale_pos.
  destruct (b * scale <? a * scale) eqn:Hlt.
  - apply Z.ltb_lt in Hlt. f_equal. f_equal. nia.
  - apply Z.ltb_ge in Hlt. f_equal. f_equal. nia.
Qed.

Lemma Math_min_le_r (x y : number) : number_le (Math_min x y) y.
Proof.
  unfold Math_min, number_le.
  destruct (units y <? units x) eqn:Hlt; [lia|].
  apply Z.ltb_ge in Hlt. exact Hlt.
Qed.

Lemma Math_min_le_l (x y : number) : number_le (Math_min x y) x.
Proof.
  unfold Math_min, number_le.
  destruct (units y <? units x) eqn:Hlt; [|lia].
  apply Z.ltb_lt in Hlt. lia.
Qed.

(** A magnitude that is a multiple of [2^drop] is not changed by rounding. *)
Lemma roundHalfEven_exact (q drop : Z) :
  0 < drop -> roundHalfEven (q * 2 ^ drop) drop = q.
Proof.
  intros Hdrop. unfold roundHalfEven.
  assert (Hpow : 0 < 2 ^ drop) by (apply Z.pow_pos_nonneg; lia).
  assert (Hhalf : 0 < 2 ^ (drop - 1)) by (apply Z.pow_pos_nonneg; lia).
  rewrite Z.mod_mul, Z.div_mul by lia.
  destruct (0 <? 2 ^ (drop - 1)) eqn:Hlt; [reflexivity|].
  apply Z.ltb_ge in Hlt. lia.
Qed.

Lemma huge_scale : huge = 2 ^ 1024 * scale.
Proof. unfold huge, scale. rewrite <- Z.pow_add_r by lia. reflexivity. Qed.

Lemma overflow_test (ax ay s B : Z) :
  1 <= ax -> 1 <= ay -> 0 < s ->
  (B * s <=? ax * s) || (B * s <=? ay * s) || (B * s <=? ax * ay * s)
  = (B <=? ax * ay).
Proof.
  intros Hx Hy Hs. destruct (B <=? ax * ay) eqn:Hle.
  - apply Z.leb_le in Hle.
    apply orb_true_iff. right. apply Z.leb_le.
    apply Z.mul_le_mono_nonneg_r; lia.
  - apply Z.leb_gt in Hle.
    assert (Hxle : ax <= ax * ay) by nia.
    assert (Hyle : ay <= ax * ay) by nia.
    apply orb_false_iff. split; [apply orb_false_iff; split|];
      apply Z.leb_gt; apply Z.mul_lt_mono_pos_r; lia.
Qed.

Lemma pow2_regroup (l k drop : Z) :
  0 <= l <= 52 -> 0 <= k -> drop = l + k + 2096 ->
  2 ^ (52 - l) * 2 ^ (drop - 1074) = 2 ^ k * 2 ^ 1074.
Proof.
  intros Hl Hk ->. rewrite <- !Z.pow_add_r by lia. f_equal. lia.
Qed.

(** A product of integers that has at most 53 significant bits is exact,
    unless it has reached [2^1024], where it overflows. *)
Lemma number_mul_dyadic (x y c k : Z) :
  x * y = c * 2 ^ k -> 0 <= k -> Z.abs c < 2 ^ 53 ->
  number_mul (ofZ x) (ofZ y)
  = if 2 ^ 1024 <=? Z.abs (x * y) then {| units := Z.sgn (x * y) * huge |}
    else ofZ (x * y).
Proof.
  intros Hxy Hk Hc.
  pose proof scale_pos as Hs.
  assert (Hbig : 0 < 2 ^ 1024) by (apply Z.pow_pos_nonneg; lia).
  destruct (Z.eq_dec (x * y) 0) as [Hzero|Hnz].
  { unfold number_mul, ofZ. cbn [units].
    replace (x * scale * (y * scale)) with (x * y * (scale * scale)) by ring.
    rewrite Hzero. cbn [Z.mul Z.sgn Z.abs].
    replace (2 ^ 1024 <=? 0) with false
      by (symmetry; apply Z.leb_gt; exact Hbig).
    reflexivity. }
  assert (Hx : 1 <= Z.abs x).
  { assert (x <> 0) by (intros ->; apply Hnz; ring). lia. }
  assert (Hy : 1 <= Z.abs y).
  { assert (y <> 0) by (intros ->; apply Hnz; ring). lia. }
  assert (Habsxy : Z.abs (x * y) = Z.abs x * Z.abs y) by apply Z.abs_mul.
  unfold number_mul, ofZ, infinite. cbn [units].
  replace (x * scale * (y * scale)) with (x * y * (scale * scale)) by ring.
  assert (Hscale2 : scale * scale = 2 ^ 2148).
  { unfold scale. rewrite <- Z.pow_add_r by lia. reflexivity. }
  rewrite Hscale2.
  assert (Hc0 : c <> 0) by (intros ->; lia).
  set (a := Z.abs c).
  assert (Ha : 0 < a) by (subst a; lia).
  assert (Hp2k : 0 < 2 ^ k) by (apply Z.pow_pos_nonneg; lia).
  assert (Hp2148 : 0 < 2 ^ 2148) by (apply Z.pow_pos_nonneg; lia).
  assert (Habs : Z.abs (x * y * 2 ^ 2148) = a * 2 ^ (k + 2148)).
  { rewrite Hxy, !Z.abs_mul, (Z.abs_eq (2 ^ k)), (Z.abs_eq (2 ^ 2148)) by lia.
    rewrite Z.pow_add_r by lia. subst a. ring. }
  rewrite Habs.
  assert (Hlog : Z.log2 (a * 2 ^ (k + 2148)) = Z.log2 a + (k + 2148)).
  { rewrite Z.log2_mul_pow2 by lia. lia. }
  rewrite Hlog.
  assert (Hla : 0 <= Z.log2 a <= 52).
  { split; [apply Z.log2_nonneg|].
    assert (Z.log2 a < 53); [|lia].
    apply Z.log2_lt_pow2; [lia | exact Hc]. }
  set (drop := Z.max 1074 (Z.log2 a + (k + 2148) - 52)).
  assert (Hdrop : drop = Z.log2 a + k + 2096) by (subst drop; lia).
  assert (Hsplit : a * 2 ^ (k + 2148)
                   = a * 2 ^ (52 - Z.log2 a) * 2 ^ drop).
  { rewrite Hdrop, <- Z.mul_assoc, <- Z.pow_add_r by lia.
    f_equal. f_equal. lia. }
  rewrite Hsplit, roundHalfEven_exact by lia.
  assert (Hsgn : Z.sgn (x * y * 2 ^ 2148) = Z.sgn (x * y)).
  { rewrite Z.sgn_mul, (Z.sgn_pos (2 ^ 2148)) by lia. ring. }
  rewrite Hsgn.
  assert (Hpow : 2 ^ (52 - Z.log2 a) * 2 ^ (drop - 1074) = 2 ^ k * scale)
    by (apply pow2_regroup; assumption).
  assert (Hrounded : a * 2 ^ (52 - Z.log2 a) * 2 ^ (drop - 1074)
                     = Z.abs (x * y) * scale).
  { rewrite <- Z.mul_assoc, Hpow, Hxy, Z.abs_mul, (Z.abs_eq (2 ^ k)) by lia.
    subst a. ring. }
  rewrite Hrounded, !Z.abs_mul, (Z.abs_eq scale) by lia.
  rewrite huge_scale.
  rewrite (overflow_test (Z.abs x) (Z.abs y) scale (2 ^ 1024) Hx Hy Hs).
  destruct (2 ^ 1024 <=? Z.abs x * Z.abs y); [reflexivity|].
  f_equal. rewrite <- Z.abs_mul.
  rewrite Z.mul_assoc, (Z.mul_comm (Z.sgn (x * y))), Z.abs_sgn. reflexivity.
Qed.

Lemma number_mul_exact (x y c k : Z) :
  x * y = c * 2 ^ k -> 0 <= k -> Z.abs c < 2 ^ 53 ->
  Z.abs (x * y) < 2 ^ 1024 ->
  number_mul (ofZ x) (ofZ y) = ofZ (x * y).
Proof.
  intros Hxy Hk Hc Hfinite.
  rewrite (number_mul_dyadic x y c k Hxy Hk Hc).
  destruct (2 ^ 1024 <=? Z.abs (x * y)) eqn:Hle; [|reflexivity].
  apply Z.leb_le in Hle. lia.
Qed.

Lemma number_mul_small (x y : Z) :
  Z.abs (x * y) < 2 ^ 53 -> number_mul (ofZ x) (ofZ y) = ofZ (x * y).
Proof.
  intros H. apply (number_mul_exact x y (x * y) 0); [|lia|exact H|].
  - rewrite Z.pow_0_r. ring.
  - apply Z.lt_trans with (2 ^ 53); [exact H|].
    apply Z.pow_lt_mono_r; lia.
Qed.

(** Infinity times a number that is not zero is an infinity. *)
Lemma number_mul_infinite (x y : number) :
  infinite x = true ->
  number_mul x y = {| units := Z.sgn (units x * units y) * huge |}.
Proof.
  intros Hx. unfold number_mul. rewrite Hx. reflexivity.
Qed.

Lemma representable_ofZ (z : Z) : 0 <= z < 2 ^ 53 -> representable (ofZ z).
Proof.
  intros Hz. pose proof scale_pos as Hs. unfold representable, ofZ.
  cbn [units]. split.
  - split; [nia|]. rewrite huge_scale.
    assert (2 ^ 53 <= 2 ^ 1024) by (apply Z.pow_le_mono_r; lia). nia.
  - exists z, 1074. split; [exact Hz|]. split; [lia | reflexivity].
Qed.

Lemma roundHalfEven_bounds (magnitude drop : Z) :
  magnitude / 2 ^ drop <= roundHalfEven magnitude drop
  <= magnitude / 2 ^ drop + 1.
Proof.
  unfold roundHalfEven.
  destruct (magnitude mod 2 ^ drop <? 2 ^ (drop - 1)); [lia|].
  destruct (2 ^ (drop - 1) <? magnitude mod 2 ^ drop); [lia|].
  destruct (Z.even (magnitude / 2 ^ drop)); lia.
Qed.

(** The quotient that rounding starts from is at least what a representable
    factor of the product already is. *)
Lemma quotient_keeps (u c e p drop : Z) :
  0 < p -> 0 <= c < 2 ^ 53 -> 0 <= e -> u = c * 2 ^ e ->
  u * 2 ^ 1074 <= p ->
  drop = Z.max 1074 (Z.log2 p - 52) ->
  u * 2 ^ 1074 <= p / 2 ^ drop * 2 ^ drop.
Proof.
  intros Hp Hc He Hu Hle Hdrop.
  assert (Hd : 1074 <= drop) by lia.
  assert (Hpd : 0 < 2 ^ drop) by (apply Z.pow_pos_nonneg; lia).
  destruct (Z.log2_spec p Hp) as [Hlow Hhigh].
  assert (Hmultiple : forall t : Z,
             0 <= t -> u * 2 ^ 1074 = t * 2 ^ drop ->
             u * 2 ^ 1074 <= p / 2 ^ drop * 2 ^ drop).
  { intros t Ht Heq. rewrite Heq.
    apply Z.mul_le_mono_nonneg_r; [lia|].
    apply Z.div_le_lower_bound; [exact Hpd|]. rewrite Z.mul_comm, <- Heq.
    exact Hle. }
  destruct (Z.le_gt_cases (Z.log2 p - 52) 1074) as [Hsmall|Hlarge].
  - assert (Hd1074 : drop = 1074) by lia.
    apply (Hmultiple u); [|rewrite Hd1074; reflexivity].
    rewrite Hu. apply Z.mul_nonneg_nonneg; [lia|]. apply Z.pow_nonneg. lia.
  - assert (Hdrop' : drop = Z.log2 p - 52) by lia.
    destruct (Z.lt_ge_cases (u * 2 ^ 1074) (2 ^ Z.log2 p)) as [Hbelow|Habove].
    + apply Z.le_trans with (2 ^ Z.log2 p); [lia|].
      assert (Hsplit : 2 ^ Z.log2 p = 2 ^ 52 * 2 ^ drop).
      { rewrite <- Z.pow_add_r by lia. f_equal. lia. }
      rewrite Hsplit. apply Z.mul_le_mono_nonneg_r; [lia|].
      apply Z.div_le_lower_bound; [exact Hpd|].
      rewrite Z.mul_comm, <- Hsplit. exact Hlow.
    + assert (Hexp : drop <= e + 1074).
      { destruct (Z.le_gt_cases drop (e + 1074)) as [H|H]; [exact H|].
        exfalso.
        assert (Hup : u * 2 ^ 1074 < 2 ^ 53 * 2 ^ (e + 1074)).
        { rewrite Hu, <- Z.mul_assoc, <- Z.pow_add_r by lia.
          apply Z.mul_lt_mono_pos_r; [apply Z.pow_pos_nonneg; lia | lia]. }
        rewrite <- Z.pow_add_r in Hup by lia.
        assert (Hmono : 2 ^ (53 + (e + 1074)) <= 2 ^ Z.log2 p)
          by (apply Z.pow_le_mono_r; lia).
        lia. }
      apply (Hmultiple (c * 2 ^ (e + 1074 - drop))).
      * apply Z.mul_nonneg_nonneg; [lia|]. apply Z.pow_nonneg. lia.
      * rewrite Hu, <- !Z.mul_assoc, <- !Z.pow_add_r by lia.
        f_equal. f_equal. lia.
Qed.

(** The quotient that rounding starts from has at most 53 bits. *)
Lemma quotient_bound (p drop : Z) :
  0 <= p -> drop = Z.max 1074 (Z.log2 p - 52) -> p / 2 ^ drop < 2 ^ 53.
Proof.
  intros Hp Hdrop.
  assert (Hpd : 0 < 2 ^ drop) by (apply Z.pow_pos_nonneg; lia).
  apply Z.div_lt_upper_bound; [exact Hpd|].
  rewrite <- Z.pow_add_r by lia.
  destruct (Z.eq_dec p 0) as [->|Hnz]; [apply Z.pow_pos_nonneg; lia|].
  destruct (Z.log2_spec p ltac:(lia)) as [_ Hhigh].
  apply Z.lt_le_trans with (2 ^ Z.succ (Z.log2 p)); [exact Hhigh|].
  apply Z.pow_le_mono_r; lia.
Qed.

(** Multiplying a representable number by a number that is at least 1 does
    not make it smaller, and leaves a representable number. *)
Lemma number_mul_grows (d m : number) :
  representable d -> scale <= units m ->
  units d <= units (number_mul d m) /\ representable (number_mul d m).
Proof.
  intros [[Hd0 Hdh] (c & e & Hc & He & Hu)] Hm.
  pose proof scale_pos as Hs.
  assert (Hhuge : 0 < huge) by (unfold huge; apply Z.pow_pos_nonneg; lia).
  assert (Hhugerep : exists c' e' : Z,
             0 <= c' < 2 ^ 53 /\ 0 <= e' /\ huge = c' * 2 ^ e').
  { exists 1, 2098. split; [split; [lia | reflexivity]|].
    split; [lia|]. unfold huge. ring. }
  destruct (Z.eq_dec (units d) 0) as [Hzero|Hnz].
  { unfold number_mul. rewrite Hzero. cbn [Z.mul Z.sgn units].
    split; [lia|]. unfold representable. cbn [units].
    split; [lia|]. exists 0, 0. cbn. lia. }
  assert (Hp : 0 < units d * units m) by nia.
  unfold number_mul. cbn [units].
  rewrite (Z.sgn_pos _ Hp), Z.mul_1_l, (Z.abs_eq (units d * units m)) by lia.
  set (p := units d * units m) in *.
  set (drop := Z.max 1074 (Z.log2 p - 52)).
  set (rounded := roundHalfEven p drop * 2 ^ (drop - 1074)).
  destruct (infinite d || infinite m || (huge <=? rounded)) eqn:Hover.
  { split; [exact Hdh|]. unfold representable. cbn [units].
    split; [lia | exact Hhugerep]. }
  apply orb_false_iff in Hover. destruct Hover as [_ Hfinite].
  apply Z.leb_gt in Hfinite.
  assert (Hdrop : 1074 <= drop) by (subst drop; lia).
  assert (Hpd : 0 < 2 ^ drop) by (apply Z.pow_pos_nonneg; lia).
  assert (Hpd' : 0 < 2 ^ (drop - 1074)) by (apply Z.pow_pos_nonneg; lia).
  destruct (roundHalfEven_bounds p drop) as [Hlow Hhigh].
  assert (Hq : 0 <= p / 2 ^ drop) by (apply Z.div_pos; lia).
  assert (Hq53 : p / 2 ^ drop < 2 ^ 53)
    by (apply quotient_bound; [lia | reflexivity]).
  assert (Hsplit : 2 ^ drop = 2 ^ (drop - 1074) * 2 ^ 1074).
  { rewrite <- Z.pow_add_r by lia. f_equal. lia. }
  unfold representable. cbn [units]. split; [|split].
  - assert (Hkeep : units d * 2 ^ 1074 <= p / 2 ^ drop * 2 ^ drop).
    { apply (quotient_keeps (units d) c e p drop Hp Hc He Hu);
        [|reflexivity].
      subst p. fold scale. apply Z.mul_le_mono_nonneg_l; lia. }
    set (Q := p / 2 ^ drop) in *.
    rewrite Hsplit, Z.mul_assoc in Hkeep.
    assert (H1074 : 0 < 2 ^ 1074) by (apply Z.pow_pos_nonneg; lia).
    apply Z.mul_le_mono_pos_r in Hkeep; [|exact H1074].
    apply Z.le_trans with (Q * 2 ^ (drop - 1074)); [exact Hkeep|].
    subst rounded. apply Z.mul_le_mono_nonneg_r; lia.
  - split; [|lia]. subst rounded. apply Z.mul_nonneg_nonneg; lia.
  - destruct (Z.eq_dec (roundHalfEven p drop) (2 ^ 53)) as [Hcarry|Hnocarry].
    + exists (2 ^ 52), (drop - 1074 + 1).
      split; [split; [apply Z.pow_nonneg; lia
                     |apply Z.pow_lt_mono_r; lia]|].
      split; [lia|]. subst rounded. rewrite Hcarry.
      rewrite <- !Z.pow_add_r by lia. f_equal. lia.
    + exists (roundHalfEven p drop), (drop - 1074).
      split; [lia|]. split; [lia | reflexivity].
Qed.

(** The rounded product against the multiplication of the Standard
    Library's binary64. *)
Example number_mul_as_binary64 :
  let agree (x y : number) :=
    toSpecFloat (number_mul x y)
    = SFmul 53 1024 (toSpecFloat x) (toSpecFloat y) in
  agree (ofZ 9007199254740991) (ofZ 3)
  /\ agree (ofZ 100) (dyadic 4953959590107546 (-52))
  /\ agree (number_mul (ofZ 100) (dyadic 4953959590107546 (-52)))
       (dyadic 4953959590107546 (-52))
  /\ agree (dyadic 1 (-1074)) (dyadic 1 (-1))
  /\ agree (dyadic 3 (-1074)) (dyadic 1 (-1))
  /\ agree (dyadic 6004799503160661 (-54)) (dyadic 6004799503160661 (-54))
  /\ agree (ofZ (-7)) (dyadic 7378697629483821 (-56))
  /\ agree (dyadic 9007199254740991 971) (dyadic 4503599627370497 (-52))
  /\ agree (dyadic 1 1023) (dyadic 9007199254740991 (-52))
  /\ agree (dyadic 1 1000) (dyadic (-1) 24)
  /\ agree (number_mul (dyadic 1 1000) (dyadic (-1) 24)) (ofZ (-2))
  /\ toSpecFloat (number_mul (dyadic 1 1000) (dyadic (-1) 24))
     = S754_infinity true
  /\ number_mul (ofZ 9007199254740991) (ofZ 3) = ofZ 27021597764222972.
Proof. vm_compute. repeat split; reflexivity. Qed.

(** ** [addSlippage] *)

(** [addSlippage] where [muln] accepts the factor. *)
Lemma addSlippage_value (amount bps : Z) :
  Z.abs (10000 + bps) < 67108864 ->
  addSlippage amount bps = inr (Z.quot (amount * (10000 + bps)) 10000).
Proof.
  intros Hfactor. unfold addSlippage, muln, divn.
  replace (Z.abs (10000 + bps) <? 67108864) with true
    by (symmetry; apply Z.ltb_lt; exact Hfactor).
  reflexivity.
Qed.

Lemma addSlippage_SLIPPAGE_BPS (amount : BN) :
  addSlippage amount SLIPPAGE_BPS = inr (Z.quot (amount * 10100) 10000).
Proof. apply addSlippage_value. reflexivity. Qed.

(** C7, as the code has it: for a non-negative amount and basis points from
    0 to 67098863, [addSlippage amount bps] returns the floor of
    [amount * (10000 + bps) / 10000], computed on exact integers; so
    [addSlippage 1000000 100] returns 1010000 and [addSlippage 0 100]
    returns 0.  From 67098864 basis points on the factor [10000 + bps] has
    reached [0x4000000], the assertion of [muln] fails and [addSlippage]
    throws. *)
Theorem addSlippage_floor (amount bps : Z) :
  0 <= amount ->
  0 <= bps ->
  (bps < 67098864 ->
   exists result : BN,
     addSlippage amount bps = inr result
     /\ result = amount * (10000 + bps) / 10000
     /\ 10000 * result <= amount * (10000 + bps) < 10000 * (result + 1))
  /\ (67098864 <= bps ->
      addSlippage amount bps = inl (Error "Assertion failed"))
  /\ addSlippage 1000000 100 = inr 1010000
  /\ addSlippage 0 100 = inr 0.
Proof.
  intros Hamount Hbps. split; [|split; [|split; reflexivity]].
  - intros Hbound.
    exists (amount * (10000 + bps) / 10000).
    rewrite addSlippage_value by lia.
    split; [rewrite Z.quot_div_nonneg by nia; reflexivity|].
    split; [reflexivity|].
    pose proof (Z.div_mod (amount * (10000 + bps)) 10000 ltac:(lia)) as Hdiv.
    pose proof (Z.mod_pos_bound (amount * (10000 + bps)) 10000 ltac:(lia))
      as Hmod.
    lia.
  - intros Hlarge. unfold addSlippage, muln.
    replace (Z.abs (10000 + bps) <? 67108864) with false
      by (symmetry; apply Z.ltb_ge; lia).
    reflexivity.
Qed.

(** ** The loop of [retry] *)

Section RetryFacts.
Context {World : Type} (host : Host World) {T : Type}.

(** The loop satisfies the equation of the [for] statement it embeds: the
    test [attempt <= maxRetries], then the body or the statement after the
    loop. *)
Lemma retry_loop_unfold (callback : M World T) (mr md mult : number)
    (dbg : bool) (afterLoop : exn -> M World T) (attempt : Z)
    (delay : number) (lastError : exn) :
  retry_loop host callback mr md mult dbg afterLoop attempt delay lastError =
  if number_leb attempt mr then
    try_catch
      (bind callback (fun result =>
         bind (if dbg then console_log "result..." else ret tt) (fun _ =>
         ret result)))
      (fun error =>
         bind (console_log "Retry failed...") (fun _ =>
         if number_eqb attempt mr then throw error
         else bind (sleep host (Math_min delay md)) (fun _ =>
              retry_loop host callback mr md mult dbg afterLoop
                (attempt + 1) (number_mul delay mult) error)))
  else afterLoop lastError.
Proof.
  unfold retry_loop. rewrite number_leb_ofZ.
  destruct (attempt <=? floor mr) eqn:Htest.
  - apply Z.leb_le in Htest.
    replace (Z.to_nat (floor mr + 1 - attempt))
      with (S (Z.to_nat (floor mr + 1 - (attempt + 1)))) by lia.
    reflexivity.
  - apply Z.leb_gt in Htest.
    replace (Z.to_nat (floor mr + 1 - attempt)) with O by lia.
    reflexivity.
Qed.

Lemma retry_rounds_S (callback : M World T) (mr md mult : number)
    (dbg : bool) (afterLoop : exn -> M World T) (k : nat) (attempt : Z)
    (delay : number) (lastError : exn) :
  retry_rounds host callback mr md mult dbg afterLoop (S k) attempt delay
    lastError
  = try_catch
      (bind callback (fun result =>
         bind (if dbg then console_log "result..." else ret tt) (fun _ =>
         ret result)))
      (fun error =>
         bind (console_log "Retry failed...") (fun _ =>
         if number_eqb attempt mr then throw error
         else bind (sleep host (Math_min delay md)) (fun _ =>
              retry_rounds host callback mr md mult dbg afterLoop k
                (attempt + 1) (number_mul delay mult) error))).
Proof. reflexivity. Qed.

(** For a budget that is a non-negative integer the statement after the
    loop never runs: no run depends on it. *)
Lemma retry_rounds_afterLoop (callback : M World T) (budget : Z)
    (md mult : number) (dbg : bool) (after1 after2 : exn -> M World T)
    (k : nat) :
  forall (attempt : Z) (delay : number) (lastError : exn) (w : World),
    attempt + Z.of_nat k = budget ->
    retry_rounds host callback (ofZ budget) md mult dbg after1 (S k) attempt
      delay lastError w
    = retry_rounds host callback (ofZ budget) md mult dbg after2 (S k)
        attempt delay lastError w.
Proof.
  induction k as [|k IH]; intros attempt delay lastError w Hk.
  - assert (Hlast : number_eqb attempt (ofZ budget) = true)
      by (rewrite number_eqb_ofZ; apply Z.eqb_eq; lia).
    rewrite !retry_rounds_S. unfold try_catch.
    destruct (outcome (bind callback _ w)); [|reflexivity].
    unfold bind. cbn [console_log emit outcome world_after events].
    rewrite Hlast. reflexivity.
  - assert (Hmore : number_eqb attempt (ofZ budget) = false)
      by (rewrite number_eqb_ofZ; apply Z.eqb_neq; lia).
    rewrite (retry_rounds_S _ _ _ _ _ after1), (retry_rounds_S _ _ _ _ _ after2).
    unfold try_catch.
    destruct (outcome (bind callback _ w)); [|reflexivity].
    unfold bind.
    cbn [console_log emit sleep outcome world_after events].
    rewrite Hmore. cbn [outcome world_after events].
    rewrite (IH (attempt + 1) (number_mul delay mult) e); [reflexivity | lia].
Qed.

Section Step.
Variable callback : M World T.
Variables (mr md mult : number) (dbg : bool) (afterLoop : exn -> M World T).

(** The [try] block of the loop body. *)
Lemma try_block_run (w : World) :
  bind callback (fun result =>
    bind (if dbg then console_log "result..." else ret tt) (fun _ =>
    ret result)) w
  = match outcome (callback w) with
    | inl e =>
        {| outcome := inl e; world_after := world_after (callback w);
           events := events (callback w) |}
    | inr v =>
        {| outcome := inr v; world_after := world_after (callback w);
           events := events (callback w)
                     ++ (if dbg then [ConsoleLog "result..."] else []) |}
    end.
Proof.
  unfold bind. destruct (outcome (callback w)); [reflexivity|].
  destruct dbg; cbn; rewrite ?app_nil_r; reflexivity.
Qed.

(** The attempt returns: so does the loop. *)
Lemma retry_rounds_returned (k : nat) (attempt : Z) (delay : number)
    (lastError : exn) (w : World) (v : T) :
  outcome (callback w) = inr v ->
  retry_rounds host callback mr md mult dbg afterLoop (S k) attempt delay
    lastError w
  = {| outcome := inr v; world_after := world_after (callback w);
       events := events (callback w)
                 ++ (if dbg then [ConsoleLog "result..."] else []) |}.
Proof.
  intros Hv. rewrite retry_rounds_S. unfold try_catch.
  rewrite try_block_run, Hv. reflexivity.
Qed.

(** The attempt throws and [attempt === maxRetries]: the loop throws the
    same. *)
Lemma retry_rounds_exhausted (k : nat) (attempt : Z) (delay : number)
    (lastError : exn) (w : World) (e : exn) :
  outcome (callback w) = inl e ->
  number_eqb attempt mr = true ->
  retry_rounds host callback mr md mult dbg afterLoop (S k) attempt delay
    lastError w
  = {| outcome := inl e; world_after := world_after (callback w);
       events := events (callback w) ++ [ConsoleLog "Retry failed..."] |}.
Proof.
  intros He Hlast. rewrite retry_rounds_S. unfold try_catch.
  rewrite try_block_run, He. cbn [outcome world_after events].
  unfold bind. cbn [console_log emit outcome world_after events].
  rewrite Hlast. reflexivity.
Qed.

(** The attempt throws and [attempt === maxRetries] does not hold: the loop
    waits the capped delay, in the world the timer leaves, multiplies the
    delay variable itself, and goes round again. *)
Lemma retry_rounds_again (k : nat) (attempt : Z) (delay : number)
    (lastError : exn) (w : World) (e : exn) :
  outcome (callback w) = inl e ->
  number_eqb attempt mr = false ->
  retry_rounds host callback mr md mult dbg afterLoop (S k) attempt delay
    lastError w
  = let r' :=
      retry_rounds host callback mr md mult dbg afterLoop k (attempt + 1)
        (number_mul delay mult) e
        (elapse host (Math_min delay md) (world_after (callback w))) in
    {| outcome := outcome r'; world_after := world_after r';
       events := events (callback w)
                 ++ [ConsoleLog "Retry failed...";
                     SetTimeout (Math_min delay md)]
                 ++ events r' |}.
Proof.
  intros He Hmore. rewrite retry_rounds_S. unfold try_catch.
  rewrite try_block_run, He. cbn [outcome world_after events].
  unfold bind at 1. cbn [console_log emit outcome world_after events].
  rewrite Hmore.
  unfold bind. cbn [sleep outcome world_after events]. reflexivity.
Qed.

End Step.

Lemma number_eqb_last (attempt budget : Z) :
  attempt = budget -> number_eqb attempt (ofZ budget) = true.
Proof. intros ->. rewrite number_eqb_ofZ. apply Z.eqb_refl. Qed.

Lemma number_eqb_more (attempt budget : Z) :
  attempt <> budget -> number_eqb attempt (ofZ budget) = false.
Proof. intros H. rewrite number_eqb_ofZ. apply Z.eqb_neq. exact H. Qed.

Lemma nominalDelay_S (options : RetryOptions) (i : nat) :
  nominalDelay options (S i)
  = number_mul (nominalDelay options i)
      (orDefault (backoffMultiplier options) 2).
Proof. reflexivity. Qed.

(** One invocation of an observed operation. *)
Lemma opaque_run (name : string) (op : World -> answer T * World) (w : World) :
  opaque name op w
  = {| outcome := fst (op w); world_after := snd (op w);
       events := [Invoked name match fst (op w) with
                               | inl e => Some e
                               | inr _ => None
                               end] |}.
Proof. unfold opaque, call. destruct (op w); reflexivity. Qed.

(** The shape of every run of the loop over an observed operation, under a
    budget that is an integer, entered at attempt [i] with [k] retries
    left: failed attempts, each followed by its wait, then one last attempt,
    made in the world the waits have left. *)
Lemma retry_rounds_opaque (name : string) (op : World -> answer T * World)
    (options : RetryOptions) (afterLoop : exn -> M World T) (budget : Z)
    (k : nat) :
  maxRetries options = ofZ budget ->
  forall (i : nat) (lastError : exn) (w : World),
    Z.of_nat i + Z.of_nat k = budget ->
    let r :=
      retry_rounds host (opaque name op) (maxRetries options)
        (orDefault (maxDelay options) 30000)
        (orDefault (backoffMultiplier options) 2)
        (orDefault (debug options) false) afterLoop (S k) (Z.of_nat i)
        (nominalDelay options i) lastError w in
    exists (errors : list exn) (threw : option exn),
      events r
      = failedRounds name options i errors ++ lastRound name options threw
      /\ (List.length errors <= k)%nat
      /\ match threw with
         | None => exists v w', fst (op w') = inr v /\ outcome r = inr v
         | Some e => outcome r = inl e /\ List.length errors = k
         end
      /\ world_after r
         = snd (op (afterFailedRounds host op options i
                      (List.length errors) w)).
Proof.
  intros Hbudget. rewrite Hbudget.
  induction k as [|k IH]; intros i lastError w Hk r; subst r;
    destruct (fst (op w)) as [e|v] eqn:Hgot.
  - exists [], (Some e).
    rewrite (retry_rounds_exhausted _ _ _ _ _ _ _ _ _ _ w e);
      [| rewrite opaque_run; exact Hgot | apply number_eqb_last; lia].
    rewrite opaque_run, Hgot. cbn. repeat split; reflexivity.
  - exists [], None.
    rewrite (retry_rounds_returned _ _ _ _ _ _ _ _ _ _ w v);
      [| rewrite opaque_run; exact Hgot].
    rewrite opaque_run, Hgot. cbn. repeat split; eauto; lia.
  - rewrite (retry_rounds_again _ _ _ _ _ _ _ _ _ _ w e);
      [| rewrite opaque_run; exact Hgot | apply number_eqb_more; lia].
    cbv zeta. cbn [outcome world_after events].
    rewrite <- nominalDelay_S.
    replace (Z.of_nat i + 1) with (Z.of_nat (S i)) by lia.
    rewrite opaque_run. cbn [world_after].
    fold (backoffWait options i).
    destruct (IH (S i) e (elapse host (backoffWait options i) (snd (op w))))
      as (errors & threw & Hev & Hlen & Hout & Hworld); [lia|].
    exists (e :: errors), threw. split; [|split; [|split]].
    + rewrite Hev, Hgot. reflexivity.
    + cbn [List.length]. lia.
    + destruct threw as [e'|]; [|exact Hout].
      destruct Hout as [Hout Hk']. split; [exact Hout|].
      cbn [List.length]. lia.
    + rewrite Hworld. reflexivity.
  - exists [], None.
    rewrite (retry_rounds_returned _ _ _ _ _ _ _ _ _ _ w v);
      [| rewrite opaque_run; exact Hgot].
    rewrite opaque_run, Hgot. cbn. repeat split; eauto; lia.
Qed.

End RetryFacts.

(** ** Histories of [retry] *)

Section Histories.

Lemma invocations_app (h1 h2 : list event) :
  invocations (h1 ++ h2) = (invocations h1 + invocations h2)%nat.
Proof. unfold invocations. rewrite filter_app, length_app. reflexivity. Qed.

Lemma waits_app (h1 h2 : list event) : waits (h1 ++ h2) = waits h1 ++ waits h2.
Proof. apply flat_map_app. Qed.

Lemma thrown_app (h1 h2 : list event) :
  thrown (h1 ++ h2) = thrown h1 ++ thrown h2.
Proof. apply flat_map_app. Qed.

Lemma reads_app (h1 h2 : list event) : reads (h1 ++ h2) = reads h1 ++ reads h2.
Proof. apply flat_map_app. Qed.

Variables (name : string) (options : RetryOptions).

Lemma debugHeader_quiet :
  invocations (debugHeader options) = O
  /\ waits (debugHeader options) = []
  /\ thrown (debugHeader options) = [].
Proof.
  unfold debugHeader. destruct (orDefault (debug options) false);
    repeat split; reflexivity.
Qed.

Lemma lastRound_quiet (threw : option exn) :
  invocations (lastRound name options threw) = 1%nat
  /\ waits (lastRound name options threw) = []
  /\ thrown (lastRound name options threw)
     = match threw with Some e => [e] | None => [] end.
Proof.
  unfold lastRound. destruct threw;
    [| destruct (orDefault (debug options) false)];
    repeat split; reflexivity.
Qed.

Lemma failedRounds_read (errors : list exn) :
  forall i : nat,
    invocations (failedRounds name options i errors) = List.length errors
    /\ waits (failedRounds name options i errors)
       = map (backoffWait options) (seq i (List.length errors))
    /\ thrown (failedRounds name options i errors) = errors.
Proof.
  induction errors as [|e errors IH]; intros i; [repeat split; reflexivity|].
  destruct (IH (S i)) as (Hinv & Hwaits & Hthrown).
  cbn [failedRounds]. rewrite invocations_app, waits_app, thrown_app.
  rewrite Hinv, Hwaits, Hthrown. repeat split; reflexivity.
Qed.

(** A history of rounds never ends on a wait. *)
Lemma rounds_end (header : list event) (i : nat) (errors : list exn)
    (threw : option exn) (before : list event) (ms : number) :
  header ++ failedRounds name options i errors ++ lastRound name options threw
  <> before ++ [SetTimeout ms].
Proof.
  intros Heq.
  assert (Hlast : exists front ev,
             lastRound name options threw = front ++ [ev]
             /\ ev <> SetTimeout ms).
  { unfold lastRound. destruct threw as [e|].
    - exists [Invoked name (Some e)], (ConsoleLog "Retry failed...").
      split; [reflexivity | discriminate].
    - destruct (orDefault (debug options) false).
      + exists [Invoked name None], (ConsoleLog "result...").
        split; [reflexivity | discriminate].
      + exists [], (Invoked name None). split; [reflexivity | discriminate]. }
  destruct Hlast as (front & ev & Hfront & Hev).
  rewrite Hfront, !app_assoc in Heq.
  apply app_inj_tail in Heq. destruct Heq as [_ Heq]. contradiction.
Qed.

(** In a history of rounds every wait is followed by the next attempt. *)
Lemma rounds_waitsLeadToAttempts (errors : list exn) (threw : option exn) :
  forall i : nat,
    waitsLeadToAttempts
      (failedRounds name options i errors ++ lastRound name options threw)
    = true.
Proof.
  induction errors as [|e errors IH]; intros i.
  - unfold lastRound. destruct threw;
      [| destruct (orDefault (debug options) false)]; reflexivity.
  - specialize (IH (S i)). cbn [failedRounds app waitsLeadToAttempts].
    destruct errors as [|e' errors]; [|exact IH].
    cbn [failedRounds app] in *.
    unfold lastRound in *. destruct threw; exact IH.
Qed.

End Histories.

(** ** [retry] *)

Section RetryRuns.
Context {World : Type} (host : Host World) {T : Type}.

(** [retry] is its trace line, then its loop entered with [attempt = 0],
    [delay = initialDelay] and [lastError] unset. *)
Lemma retry_then_run (afterLoop : exn -> M World T) (callback : M World T)
    (options : RetryOptions) (w : World) :
  retry_then host afterLoop callback options w
  = let r :=
      retry_loop host callback (maxRetries options)
        (orDefault (maxDelay options) 30000)
        (orDefault (backoffMultiplier options) 2)
        (orDefault (debug options) false) afterLoop 0
        (orDefault (initialDelay options) 100) undefined w in
    {| outcome := outcome r; world_after := world_after r;
       events := debugHeader options ++ events r |}.
Proof.
  unfold retry_then, bind, debugHeader.
  destruct (orDefault (debug options) false); reflexivity.
Qed.

Lemma retry_opaque_shape (name : string) (op : World -> answer T * World)
    (options : RetryOptions) (afterLoop : exn -> M World T) (w : World)
    (budget : Z) :
  maxRetries options = ofZ budget ->
  0 <= budget ->
  let r := retry_then host afterLoop (opaque name op) options w in
  exists (errors : list exn) (threw : option exn),
    events r
    = debugHeader options
      ++ failedRounds name options 0 errors ++ lastRound name options threw
    /\ Z.of_nat (List.length errors) <= budget
    /\ match threw with
       | None => exists v w', fst (op w') = inr v /\ outcome r = inr v
       | Some e =>
           outcome r = inl e
           /\ Z.of_nat (List.length errors) = budget
       end
    /\ world_after r
       = snd (op (afterFailedRounds host op options 0
                    (List.length errors) w)).
Proof.
  intros Hbudget Hmr r. subst r. rewrite retry_then_run. cbv zeta.
  cbn [outcome world_after events]. unfold retry_loop.
  replace (Z.to_nat (floor (maxRetries options) + 1 - 0))
    with (S (Z.to_nat budget))
    by (rewrite Hbudget, floor_ofZ; lia).
  change (orDefault (initialDelay options) 100)
    with (nominalDelay options 0).
  destruct (retry_rounds_opaque host name op options afterLoop budget
              (Z.to_nat budget) Hbudget 0 undefined w)
    as (errors & threw & Hev & Hlen & Hout & Hworld); [lia|].
  change (Z.of_nat 0) with 0 in Hev, Hout, Hworld.
  exists errors, threw. rewrite Hev. split; [reflexivity|]. split; [lia|].
  split; [|exact Hworld].
  destruct threw as [e|]; [|exact Hout].
  destruct Hout as [Hout Hk]. split; [exact Hout | lia].
Qed.

(** Where the values of the policy are integers and the products of the
    loop stay below [2^53], the delay variable is the power the
    specification words, and the wait is its minimum with the cap. *)
Lemma nominalDelay_exact (options : RetryOptions)
    (initial multiplier : Z) (i : nat) :
  orDefault (initialDelay options) 100 = ofZ initial ->
  orDefault (backoffMultiplier options) 2 = ofZ multiplier ->
  0 <= initial ->
  1 <= multiplier ->
  initial * multiplier ^ Z.of_nat i < 2 ^ 53 ->
  nominalDelay options i = ofZ (initial * multiplier ^ Z.of_nat i).
Proof.
  intros Hinitial Hmultiplier Hpos Hmult.
  induction i as [|i IH]; intros Hbound.
  - unfold nominalDelay. cbn [Nat.iter]. rewrite Hinitial.
    rewrite Z.pow_0_r, Z.mul_1_r. reflexivity.
  - rewrite nominalDelay_S, Hmultiplier.
    assert (Hpow : 0 < multiplier ^ Z.of_nat i)
      by (apply Z.pow_pos_nonneg; lia).
    assert (Hstep : initial * multiplier ^ Z.of_nat (S i)
                    = initial * multiplier ^ Z.of_nat i * multiplier).
    { rewrite Nat2Z.inj_succ, Z.pow_succ_r by lia. ring. }
    rewrite IH by nia.
    rewrite number_mul_small; [rewrite Hstep; reflexivity|].
    rewrite <- Hstep. rewrite Z.abs_eq by nia. exact Hbound.
Qed.

Lemma backoffWait_exact (options : RetryOptions)
    (initial multiplier cap : Z) (i : nat) :
  orDefault (initialDelay options) 100 = ofZ initial ->
  orDefault (backoffMultiplier options) 2 = ofZ multiplier ->
  orDefault (maxDelay options) 30000 = ofZ cap ->
  0 <= initial ->
  1 <= multiplier ->
  initial * multiplier ^ Z.of_nat i < 2 ^ 53 ->
  backoffWait options i = ofZ (specifiedWait initial multiplier cap i).
Proof.
  intros Hinitial Hmultiplier Hcap Hpos Hmult Hbound.
  unfold backoffWait, specifiedWait.
  rewrite (nominalDelay_exact options initial multiplier i) by assumption.
  rewrite Hcap. apply Math_min_ofZ.
Qed.

(** Once the exact power has passed the cap, the cap is what every later
    wait is, while the power goes on growing. *)
Lemma specifiedWait_capped (initial multiplier cap : Z) (i j : nat) :
  1 <= multiplier ->
  0 <= initial ->
  (i <= j)%nat ->
  cap < initial * multiplier ^ Z.of_nat i ->
  specifiedWait initial multiplier cap j = cap
  /\ initial * multiplier ^ Z.of_nat i <= initial * multiplier ^ Z.of_nat j.
Proof.
  intros Hmult Hinit Hij Hover.
  assert (Hgrow : initial * multiplier ^ Z.of_nat i
                  <= initial * multiplier ^ Z.of_nat j).
  { apply Z.mul_le_mono_nonneg_l; [exact Hinit|].
    apply Z.pow_le_mono_r; lia. }
  split; [|exact Hgrow]. unfold specifiedWait. lia.
Qed.

(** From an initial delay that is a binary64 value and not negative, under
    a multiplier that is at least 1, the delay variable never decreases. *)
Lemma nominalDelay_step (options : RetryOptions) :
  representable (orDefault (initialDelay options) 100) ->
  number_le (ofZ 1) (orDefault (backoffMultiplier options) 2) ->
  forall i : nat,
    representable (nominalDelay options i)
    /\ number_le (nominalDelay options i) (nominalDelay options (S i)).
Proof.
  intros Hinitial Hmult.
  assert (Hone : scale <= units (orDefault (backoffMultiplier options) 2)).
  { unfold number_le in Hmult.
    change (units (ofZ 1)) with (1 * scale) in Hmult. lia. }
  assert (Hrep : forall i : nat, representable (nominalDelay options i)).
  { induction i as [|i IH]; [exact Hinitial|].
    rewrite nominalDelay_S. exact (proj2 (number_mul_grows _ _ IH Hone)). }
  intros i. split; [apply Hrep|].
  rewrite nominalDelay_S. unfold number_le.
  exact (proj1 (number_mul_grows _ _ (Hrep i) Hone)).
Qed.

Lemma nominalDelay_grows (options : RetryOptions) (i j : nat) :
  representable (orDefault (initialDelay options) 100) ->
  number_le (ofZ 1) (orDefault (backoffMultiplier options) 2) ->
  (i <= j)%nat ->
  number_le (nominalDelay options i) (nominalDelay options j).
Proof.
  intros Hinitial Hmult Hij. induction Hij as [|j Hij IH].
  - unfold number_le. lia.
  - pose proof (proj2 (nominalDelay_step options Hinitial Hmult j)) as Hstep.
    unfold number_le in *. lia.
Qed.

End RetryRuns.

(** ** The contract of [retry] *)

Section RetryContract.
Context {World : Type} (host : Host World) {T : Type}.

Lemma number_eqb_neq (x y : number) : x <> y -> number_eqb x y = false.
Proof.
  intros Hne. unfold number_eqb. apply Z.eqb_neq. intros Heq. apply Hne.
  destruct x, y. cbn in Heq. subst. reflexivity.
Qed.

(** A number is an integer or it is not. *)
Lemma integer_or_not (x : number) :
  x = ofZ (floor x) \/ forall j : Z, x <> ofZ j.
Proof.
  pose proof scale_pos as Hs.
  destruct (Z.eq_dec (units x mod scale) 0) as [Hmod|Hmod].
  - left. destruct x as [u]. unfold ofZ, floor. cbn [units] in *. f_equal.
    pose proof (Z.div_mod u scale ltac:(lia)). lia.
  - right. intros j Heq. apply Hmod. rewrite Heq. unfold ofZ. cbn [units].
    apply Z.mod_mul. lia.
Qed.

(** The run of the loop over an observed operation under a budget that is
    not an integer, entered at attempt [i] with [S k] rounds to go: the test
    [attempt === maxRetries] never holds, so a failed attempt is always
    followed by its wait; the run ends on an attempt that returns, or, after
    [S k] failed attempts and as many waits, with the statement that follows
    the loop. *)
Lemma retry_rounds_opaque_fractional (name : string)
    (op : World -> answer T * World) (options : RetryOptions)
    (afterLoop : exn -> M World T) (k : nat) :
  (forall j : Z, maxRetries options <> ofZ j) ->
  forall (i : nat) (lastError : exn) (w : World),
    let r :=
      retry_rounds host (opaque name op) (maxRetries options)
        (orDefault (maxDelay options) 30000)
        (orDefault (backoffMultiplier options) 2)
        (orDefault (debug options) false) afterLoop (S k) (Z.of_nat i)
        (nominalDelay options i) lastError w in
    (exists (errors : list exn) (v : T) (w' : World),
        events r
        = failedRounds name options i errors ++ lastRound name options None
        /\ (List.length errors <= k)%nat
        /\ fst (op w') = inr v
        /\ outcome r = inr v
        /\ world_after r
           = snd (op (afterFailedRounds host op options i
                        (List.length errors) w)))
    \/ (exists (errors : list exn) (e : exn),
           let w' := afterFailedRounds host op options i (S k) w in
           List.length errors = k
           /\ events r
              = failedRounds name options i (errors ++ [e])
                ++ events (afterLoop e w')
           /\ outcome r = outcome (afterLoop e w')
           /\ world_after r = world_after (afterLoop e w')).
Proof.
  intros Hfraction.
  assert (Hmore : forall j : Z, number_eqb j (maxRetries options) = false).
  { intros j. apply number_eqb_neq. intros Heq. exact (Hfraction j (eq_sym Heq)). }
  induction k as [|k IH]; intros i lastError w r; subst r;
    destruct (fst (op w)) as [e|v] eqn:Hgot.
  - right. exists [], e. cbv zeta.
    rewrite (retry_rounds_again host _ _ _ _ _ _ _ _ _ _ w e);
      [| rewrite opaque_run; exact Hgot | apply Hmore].
    cbv zeta. cbn [retry_rounds outcome world_after events].
    rewrite opaque_run, Hgot. cbn [world_after events].
    fold (backoffWait options i).
    cbn [afterFailedRounds app failedRounds List.length].
    repeat split; reflexivity.
  - left. exists [], v, w.
    rewrite (retry_rounds_returned host _ _ _ _ _ _ _ _ _ _ w v);
      [| rewrite opaque_run; exact Hgot].
    rewrite opaque_run, Hgot. cbn. repeat split; auto; lia.
  - rewrite (retry_rounds_again host _ _ _ _ _ _ _ _ _ _ w e);
      [| rewrite opaque_run; exact Hgot | apply Hmore].
    cbv zeta. cbn [outcome world_after events].
    rewrite <- nominalDelay_S.
    replace (Z.of_nat i + 1) with (Z.of_nat (S i)) by lia.
    rewrite opaque_run. cbn [world_after events].
    fold (backoffWait options i). rewrite Hgot.
    destruct (IH (S i) e (elapse host (backoffWait options i) (snd (op w))))
      as [(errors & v & w' & Hev & Hlen & Hv & Hout & Hworld)
         |(errors & e' & Hrun)].
    + left. exists (e :: errors), v, w'.
      split; [rewrite Hev; reflexivity|].
      split; [cbn [List.length]; lia|]. split; [exact Hv|].
      split; [exact Hout|]. rewrite Hworld. reflexivity.
    + right. cbv zeta in Hrun. destruct Hrun as (Hlen & Hev & Hout & Hworld).
      exists (e :: errors), e'. cbv zeta.
      split; [cbn [List.length]; lia|].
      split; [rewrite Hev; reflexivity|].
      split; [exact Hout | exact Hworld].
  - left. exists [], v, w.
    rewrite (retry_rounds_returned host _ _ _ _ _ _ _ _ _ _ w v);
      [| rewrite opaque_run; exact Hgot].
    rewrite opaque_run, Hgot. cbn. repeat split; auto; lia.
Qed.

(** A budget below zero: the loop is not entered. *)
Lemma retry_negative_run (afterLoop : exn -> M World T)
    (callback : M World T) (options : RetryOptions) (w : World) :
  number_lt (maxRetries options) (ofZ 0) ->
  retry_then host afterLoop callback options w
  = after_events (debugHeader options) (afterLoop undefined w).
Proof.
  intros Hneg. rewrite retry_then_run. unfold retry_loop.
  assert (Hfloor : floor (maxRetries options) < 0).
  { unfold number_lt, ofZ in Hneg. cbn [units] in Hneg. unfold floor.
    apply Z.div_lt_upper_bound; [exact scale_pos | lia]. }
  replace (Z.to_nat (floor (maxRetries options) + 1 - 0)) with O by lia.
  reflexivity.
Qed.

Lemma floor_nonneg (x : number) : number_le (ofZ 0) x -> 0 <= floor x.
Proof.
  unfold number_le, ofZ, floor. cbn [units]. intros H.
  apply Z.div_pos; [lia | exact scale_pos].
Qed.

Lemma events_last_in {A} (header rounds : list A) (x : A) :
  In x (header ++ rounds ++ [x]).
Proof. apply in_or_app. right. apply in_or_app. right. left. reflexivity. Qed.

(** The three ways a run of [retry] over an observed operation can go: the
    budget is negative and nothing is attempted; the run ends on an attempt,
    one that returned or the one that met [attempt === maxRetries]; or, the
    budget not being an integer, every attempt of the loop failed and was
    followed by its wait, and the statement after the loop threw the last
    error. *)
Lemma retry_opaque_cases (name : string) (op : World -> answer T * World)
    (options : RetryOptions) (w : World) :
  let r := retry host (opaque name op) options w in
  (number_lt (maxRetries options) (ofZ 0)
   /\ r = {| outcome := inl undefined; world_after := w;
             events := debugHeader options |})
  \/ (number_le (ofZ 0) (maxRetries options)
      /\ exists (errors : list exn) (threw : option exn),
           events r
           = debugHeader options
             ++ failedRounds name options 0 errors
             ++ lastRound name options threw
           /\ Z.of_nat (List.length errors) <= floor (maxRetries options)
           /\ match threw with
              | None => exists v : T, outcome r = inr v
              | Some e =>
                  outcome r = inl e
                  /\ maxRetries options = ofZ (Z.of_nat (List.length errors))
              end
           /\ world_after r
              = snd (op (afterFailedRounds host op options 0
                           (List.length errors) w)))
  \/ (number_le (ofZ 0) (maxRetries options)
      /\ (forall budget : Z, maxRetries options <> ofZ budget)
      /\ exists (errors : list exn) (final : exn),
           Z.of_nat (List.length errors) = floor (maxRetries options)
           /\ events r
              = debugHeader options
                ++ failedRounds name options 0 (errors ++ [final])
           /\ outcome r = inl final
           /\ world_after r
              = afterFailedRounds host op options 0
                  (S (List.length errors)) w).
Proof.
  intros r.
  destruct (number_lt_or_le (maxRetries options) (ofZ 0)) as [Hneg|Hmr].
  { left. split; [exact Hneg|]. subst r. unfold retry.
    rewrite retry_negative_run by exact Hneg.
    unfold after_events, throw. cbn [outcome world_after events].
    rewrite app_nil_r. reflexivity. }
  right. pose proof (floor_nonneg _ Hmr) as Hfloor.
  destruct (integer_or_not (maxRetries options)) as [Hint|Hfraction].
  - left. split; [exact Hmr|].
    destruct (retry_opaque_shape host name op options
                (fun lastError => throw lastError) w
                (floor (maxRetries options)) Hint Hfloor)
      as (errors & threw & Hev & Hlen & Hout & Hworld).
    fold (retry host (opaque name op) options w) in Hev, Hout, Hworld.
    fold r in Hev, Hout, Hworld.
    exists errors, threw. split; [exact Hev|]. split; [exact Hlen|].
    split; [|exact Hworld].
    destruct threw as [e|].
    + destruct Hout as [Hout Hall]. split; [exact Hout|].
      rewrite Hall. exact Hint.
    + destruct Hout as (v & _ & _ & Hv). exists v. exact Hv.
  - assert (Hrun : r = after_events (debugHeader options)
                         (retry_rounds host (opaque name op)
                            (maxRetries options)
                            (orDefault (maxDelay options) 30000)
                            (orDefault (backoffMultiplier options) 2)
                            (orDefault (debug options) false)
                            (fun lastError => throw lastError)
                            (S (Z.to_nat (floor (maxRetries options))))
                            (Z.of_nat 0) (nominalDelay options 0)
                            undefined w)).
    { subst r. unfold retry. rewrite retry_then_run. unfold retry_loop.
      replace (Z.to_nat (floor (maxRetries options) + 1 - 0))
        with (S (Z.to_nat (floor (maxRetries options)))) by lia.
      reflexivity. }
    destruct (retry_rounds_opaque_fractional name op options
                (fun lastError => throw lastError)
                (Z.to_nat (floor (maxRetries options))) Hfraction 0
                undefined w)
      as [(errors & v & w' & Hev & Hlen & _ & Hout & Hworld)
         |(errors & final & Hend)].
    + left. split; [exact Hmr|]. exists errors, None.
      rewrite Hrun. cbn [after_events events outcome world_after].
      split; [rewrite Hev; reflexivity|]. split; [lia|].
      split; [exists v; exact Hout | exact Hworld].
    + right. split; [exact Hmr|]. split; [exact Hfraction|].
      cbv zeta in Hend. destruct Hend as (Hlen & Hev & Hout & Hworld).
      exists errors, final. rewrite Hrun.
      cbn [after_events events outcome world_after].
      split; [lia|].
      split; [rewrite Hev; cbn [throw events]; rewrite app_nil_r;
              reflexivity|].
      split; [rewrite Hout; reflexivity | rewrite Hworld, Hlen; reflexivity].
Qed.



(** An operation that fails whenever it is invoked never returns under
    [retry]. *)
Lemma always_failing_never_returns (name : string)
    (op : World -> answer T * World) (options : RetryOptions) (w : World) :
  (forall w' : World, exists e : exn, fst (op w') = inl e) ->
  ~ In (Invoked name None) (events (retry host (opaque name op) options w)).
Proof.
  intros Hfails Hin.
  unfold retry in Hin. rewrite retry_then_run in Hin. cbv zeta in Hin.
  cbn [events] in Hin. apply in_app_or in Hin. destruct Hin as [Hin|Hin].
  { unfold debugHeader in Hin.
    destruct (orDefault (debug options) false); cbn in Hin;
      [destruct Hin as [Hin|[]]; discriminate | contradiction]. }
  unfold retry_loop in Hin. revert Hin.
  generalize (Z.to_nat (floor (maxRetries options) + 1 - 0)).
  generalize (orDefault (initialDelay options) 100).
  generalize 0 at 1. generalize undefined. revert w.
  intros w lastError attempt delay rounds. revert w lastError attempt delay.
  induction rounds as [|rounds IH]; intros w lastError attempt delay Hin;
    [contradiction|].
  destruct (Hfails w) as [e He].
  destruct (number_eqb attempt (maxRetries options)) eqn:Hlast.
  - rewrite (retry_rounds_exhausted host _ _ _ _ _ _ _ _ _ _ w e) in Hin;
      [| rewrite opaque_run; exact He | exact Hlast].
    rewrite opaque_run, He in Hin. cbn in Hin.
    destruct Hin as [Hin|[Hin|[]]]; discriminate.
  - rewrite (retry_rounds_again host _ _ _ _ _ _ _ _ _ _ w e) in Hin;
      [| rewrite opaque_run; exact He | exact Hlast].
    cbv zeta in Hin. rewrite opaque_run, He in Hin.
    cbn [events world_after app In] in Hin.
    destruct Hin as [Hin|[Hin|[Hin|Hin]]]; try discriminate.
    exact (IH _ _ _ _ Hin).
Qed.

(** C6: with [maxRetries = 0], whatever the other options, [retry] invokes
    the operation exactly once and sets no timer; it completes as that one
    invocation did, with its error if it threw, in the world that invocation
    left. *)
Theorem retry_without_retries (name : string)
    (op : World -> answer T * World)
    (initialDelay' maxDelay' backoffMultiplier' : option number)
    (debug' : option bool) (w : World) :
  let options :=
    {| maxRetries := ofZ 0; initialDelay := initialDelay';
       maxDelay := maxDelay'; backoffMultiplier := backoffMultiplier';
       debug := debug' |} in
  let r := retry host (opaque name op) options w in
  invocations (events r) = 1%nat
  /\ waits (events r) = []
  /\ outcome r = fst (op w)
  /\ world_after r = snd (op w).
Proof.
  intros options r. subst r. unfold retry. rewrite retry_then_run.
  cbv zeta. cbn [outcome world_after events]. unfold retry_loop.
  replace (Z.to_nat (floor (maxRetries options) + 1 - 0)) with 1%nat
    by (subst options; cbn [maxRetries]; rewrite floor_ofZ; reflexivity).
  destruct (debugHeader_quiet options) as (Hh1 & Hh2 & _).
  rewrite invocations_app, waits_app, Hh1, Hh2.
  destruct (fst (op w)) as [e|v] eqn:Hgot.
  - rewrite (retry_rounds_exhausted host _ _ _ _ _ _ _ _ _ _ w e);
      [| rewrite opaque_run; exact Hgot
       | apply number_eqb_last; reflexivity].
    rewrite opaque_run, Hgot. repeat split; reflexivity.
  - rewrite (retry_rounds_returned host _ _ _ _ _ _ _ _ _ _ w v);
      [| rewrite opaque_run; exact Hgot].
    rewrite opaque_run, Hgot.
    destruct (orDefault (debug options) false); repeat split; reflexivity.
Qed.


(** A number whose units are not a multiple of the units of 1 is not an
    integer. *)
Lemma not_integer (x : number) :
  units x mod scale <> 0 -> forall j : Z, x <> ofZ j.
Proof.
  intros Hmod j Heq. apply Hmod. rewrite Heq. unfold ofZ. cbn [units].
  apply Z.mod_mul. pose proof scale_pos. lia.
Qed.


End RetryContract.

(** ** Sequencing

    The laws by which a run is followed one call at a time. *)

Section Sequencing.
Context {World : Type}.

Lemma bind_ret {A B} (a : A) (k : A -> M World B) (w : World) :
  bind (ret a) k w = k a w.
Proof. unfold bind, ret. cbn. destruct (k a w); reflexivity. Qed.

Lemma bind_throw {A B} (e : exn) (k : A -> M World B) (w : World) :
  bind (throw e) k w = throw e w.
Proof. reflexivity. Qed.

Lemma bind_assoc {A B C} (m : M World A) (f : A -> M World B)
    (g : B -> M World C) (w : World) :
  bind (bind m f) g w = bind m (fun a => bind (f a) g) w.
Proof.
  unfold bind. destruct (m w) as [[e|a] w1 h1]; cbn; [reflexivity|].
  destruct (f a w1) as [[e|b] w2 h2]; cbn; [reflexivity|].
  rewrite app_assoc. reflexivity.
Qed.

Lemma bind_emit {B} (ev : event) (k : unit -> M World B) (w : World) :
  bind (emit ev) k w = after_events [ev] (k tt w).
Proof. reflexivity. Qed.

Lemma bind_call {A B} (record : answer A -> event)
    (op : World -> answer A * World) (k : A -> M World B) (w : World) :
  bind (call record op) k w
  = match fst (op w) with
    | inl e =>
        {| outcome := inl e; world_after := snd (op w);
           events := [record (inl e)] |}
    | inr a => after_events [record (inr a)] (k a (snd (op w)))
    end.
Proof.
  unfold bind, call. destruct (op w) as [[e|a] w1]; reflexivity.
Qed.

Lemma after_events_twice {A} (h1 h2 : list event) (r : Run World A) :
  after_events h1 (after_events h2 r) = after_events (h1 ++ h2) r.
Proof. unfold after_events. cbn. rewrite app_assoc. reflexivity. Qed.

Lemma bind_ret_r {A} (m : M World A) (w : World) :
  bind m (fun a => ret a) w = m w.
Proof.
  unfold bind, ret. destruct (m w) as [[e|a] w1 h1]; cbn; [reflexivity|].
  rewrite app_nil_r. reflexivity.
Qed.

Lemma bind_quiet {A B} (m : M World A) (k : A -> M World B) (w : World) :
  events (m w) = [] ->
  world_after (m w) = w ->
  bind m k w
  = match outcome (m w) with
    | inl e => throw e w
    | inr a => k a w
    end.
Proof.
  unfold bind, throw. destruct (m w) as [[e|a] w1 h1]; cbn; intros -> ->;
    [reflexivity|]. destruct (k a w); reflexivity.
Qed.

Lemma bind_run {A B} (m : M World A) (k : A -> M World B) (w : World) :
  bind m k w
  = match outcome (m w) with
    | inl e =>
        {| outcome := inl e; world_after := world_after (m w);
           events := events (m w) |}
    | inr a => after_events (events (m w)) (k a (world_after (m w)))
    end.
Proof. unfold bind. destruct (outcome (m w)); reflexivity. Qed.

Lemma bind_lift {A B} (got : answer A) (k : A -> M World B) (w : World) :
  bind (lift got) k w
  = match got with
    | inl e => throw e w
    | inr a => k a w
    end.
Proof.
  unfold bind, lift, throw. cbn [outcome world_after events].
  destruct got as [e|a]; [reflexivity|]. destruct (k a w); reflexivity.
Qed.

Lemma bind_sleep {B} (host : Host World) (ms : number) (k : unit -> M World B)
    (w : World) :
  bind (sleep host ms) k w
  = after_events [SetTimeout ms] (k tt (elapse host ms w)).
Proof. reflexivity. Qed.

Lemma bind_Keypair_generate {B} (host : Host World) (k : Keypair -> M World B)
    (w : World) :
  bind (Keypair_generate host) k w
  = after_events [KeypairGenerate (fst (keypairGenerate host w))]
      (k (fst (keypairGenerate host w)) (snd (keypairGenerate host w))).
Proof.
  unfold bind, Keypair_generate. destruct (keypairGenerate host w); reflexivity.
Qed.

End Sequencing.

(** ** [closePosition] *)

Section ClosePosition.
Context {World : Type} (host : Host World).
Variables (cpAmm : CpAmm) (connection : Connection) (user : Keypair)
  (held : UserPosition) (poolState : PoolState).

(** The four ways a run of [closePosition] can go: the SDK refuses to build
    the transaction, no blockhash is to be had, the write is not confirmed,
    or it is confirmed and the owner's positions are read back. *)
Lemma closePosition_paths (w : World) :
  let r := closePosition host cpAmm connection user held poolState w in
  let params :=
    {| rm_owner := publicKey user;
       rm_position := position held;
       rm_positionNftAccount := positionNftAccount held;
       rm_poolState := poolState;
       rm_positionState := positionState held;
       rm_tokenAAmountThreshold := 0;
       rm_tokenBAmountThreshold := 0;
       rm_vestings := [];
       rm_currentPoint := 0 |} in
  let opening :=
    ConsoleLog "Removing all liquidity and closing position..." in
  (exists e,
      outcome r = inl e
      /\ events r = [opening; RemoveAllLiquidityAndClosePosition params (inl e)])
  \/ (exists built e,
         outcome r = inl e
         /\ events r
            = [opening;
               RemoveAllLiquidityAndClosePosition params (inr built);
               GetLatestBlockhash connection (inl e)])
  \/ (exists built blockhash tx e,
         outcome r = inl e
         /\ instructions tx = instructions built
         /\ events r
            = [opening;
               RemoveAllLiquidityAndClosePosition params (inr built);
               GetLatestBlockhash connection (inr blockhash);
               SendAndConfirmTransaction connection tx [user] (inl e)])
  \/ (exists built blockhash tx signature got,
         instructions tx = instructions built
         /\ events r
            = [opening;
               RemoveAllLiquidityAndClosePosition params (inr built);
               GetLatestBlockhash connection (inr blockhash);
               SendAndConfirmTransaction connection tx [user] (inr signature);
               ConsoleLog ("✓ Position closed: " ++ signature);
               GetPositionsByUser (publicKey user) got]
         /\ outcome r
            = match got with
              | inl e => inl e
              | inr [] => inr tt
              | inr (p :: rest) =>
                  inl (Error ("Position still exists after close attempt. Found "
                              ++ show_Z (Z.of_nat (List.length (p :: rest)))
                              ++ " position(s)"))
              end).
Proof.
  intros r params opening. subst r.
  unfold closePosition, cpAmm_removeAllLiquidityAndClosePosition,
    prepareAndSignTransaction, connection_getLatestBlockhash,
    web3_sendAndConfirmTransaction, cpAmm_getPositionsByUser, console_log,
    ZERO_SLIPPAGE_THRESHOLD.
  fold params.
  rewrite bind_emit, bind_call.
  destruct (removeAllLiquidityAndClosePosition host cpAmm params w)
    as [[e1|built] w1]; cbn [fst snd].
  { left. exists e1. split; reflexivity. }
  rewrite bind_assoc, bind_call.
  destruct (getLatestBlockhash host connection w1) as [[e2|blockhash] w2];
    cbn [fst snd].
  { right. left. exists built, e2. split; reflexivity. }
  rewrite bind_assoc, bind_lift. cbn [Transaction_sign].
  rewrite bind_ret, bind_call.
  match goal with
  | |- context [sendAndConfirmTransaction host connection ?tx _ w2] =>
      set (signed := tx)
  end.
  destruct (sendAndConfirmTransaction host connection signed [user] w2)
    as [[e3|signature] w3]; cbn [fst snd].
  { right. right. left. exists built, blockhash, signed, e3.
    repeat split; reflexivity. }
  rewrite bind_emit, bind_call.
  right. right. right.
  exists built, blockhash, signed, signature,
    (fst (getPositionsByUser host cpAmm (publicKey user) w3)).
  destruct (getPositionsByUser host cpAmm (publicKey user) w3)
    as [[e4|[|p rest]] w4]; cbn [fst snd]; repeat split; reflexivity.
Qed.

(** What [closePosition] asks of the SDK and submits: one close request,
    for the position it was given, and nothing else. *)
Lemma closePosition_requests (w : World) :
  let r := closePosition host cpAmm connection user held poolState w in
  exists params : RemoveAllLiquidityAndClosePositionParams,
    closeRequests (events r) = [params]
    /\ rm_position params = position held
    /\ rm_positionNftAccount params = positionNftAccount held
    /\ rm_positionState params = positionState held
    /\ createRequests (events r) = []
    /\ quoteRequests (events r) = []
    /\ (forall tx : Transaction,
          In tx (submitted (events r)) ->
          exists built : Transaction,
            In (RemoveAllLiquidityAndClosePosition params (inr built))
              (events r)
            /\ instructions tx = instructions built).
Proof.
  intros r. eexists.
  destruct (closePosition_paths w)
    as [(e & _ & Hev)
       |[(built & e & _ & Hev)
        |[(built & bh & tx & e & _ & Hix & Hev)
         |(built & bh & tx & sig & got & Hix & Hev & _)]]];
    fold r in Hev; rewrite Hev;
    (split; [reflexivity|]); cbn;
    repeat (split; [reflexivity|]);
    intros tx' Hin; try contradiction;
    destruct Hin as [<-|[]]; exists built; split; [|exact Hix| |exact Hix];
    auto.
Qed.


End ClosePosition.

(** ** [createPosition] *)

Section CreatePosition.
Context {World : Type} (host : Host World).
Variables (readRetries : Z) (cpAmm : CpAmm) (connection : Connection)
  (user : Keypair).

(** One read of the owner's positions by the callback of [createPosition]. *)
Lemma readCreatedPosition_run (w : World) :
  readCreatedPosition host cpAmm user w
  = let got := fst (getPositionsByUser host cpAmm (publicKey user) w) in
    {| outcome := match got with
                  | inl e => inl e
                  | inr [] => inl (Error "Position not found after creation")
                  | inr (first :: _) => inr first
                  end;
       world_after := snd (getPositionsByUser host cpAmm (publicKey user) w);
       events := [GetPositionsByUser (publicKey user) got] |}.
Proof.
  unfold readCreatedPosition, cpAmm_getPositionsByUser, bind, call.
  destruct (getPositionsByUser host cpAmm (publicKey user) w)
    as [[e|[|first rest]] w']; reflexivity.
Qed.

(** The reads of the loop of [retry] over that callback: misses, at most as
    many as retries are left, then one read that settles the run. *)
Lemma retry_rounds_reads (budget : Z) (md mult : number)
    (afterLoop : exn -> M World UserPosition) (k : nat) :
  forall (attempt : Z) (delay : number) (lastError : exn) (w : World),
    attempt + Z.of_nat k = budget ->
    let r :=
      retry_rounds host (readCreatedPosition host cpAmm user) (ofZ budget) md
        mult false afterLoop (S k) attempt delay lastError w in
    exists (misses : list (answer (list UserPosition)))
           (final : answer (list UserPosition)),
      reads (events r) = misses ++ [final]
      /\ (List.length misses <= k)%nat
      /\ Forall (fun a => forall p rest, a <> inr (p :: rest)) misses
      /\ match final with
         | inr (first :: _) => outcome r = inr first
         | inr [] =>
             outcome r = inl (Error "Position not found after creation")
             /\ List.length misses = k
         | inl e => outcome r = inl e /\ List.length misses = k
         end.
Proof.
  induction k as [|k IH]; intros attempt delay lastError w Hk r; subst r;
    pose proof (readCreatedPosition_run w) as Hrun; cbv zeta in Hrun;
    destruct (fst (getPositionsByUser host cpAmm (publicKey user) w))
      as [e|[|first rest]] eqn:Hgot.
  - rewrite (retry_rounds_exhausted host _ _ _ _ _ _ _ _ _ _ w e)
      by (rewrite ?Hrun; solve [reflexivity | apply number_eqb_last; lia
                               | apply number_eqb_more; lia]).
    rewrite Hrun. exists [], (inl e). cbn. auto.
  - rewrite (retry_rounds_exhausted host _ _ _ _ _ _ _ _ _ _ w
               (Error "Position not found after creation"))
      by (rewrite ?Hrun; solve [reflexivity | apply number_eqb_last; lia
                               | apply number_eqb_more; lia]).
    rewrite Hrun. exists [], (inr []). cbn. auto.
  - rewrite (retry_rounds_returned host _ _ _ _ _ _ _ _ _ _ w first)
      by (rewrite Hrun; reflexivity).
    rewrite Hrun. exists [], (inr (first :: rest)). cbn.
    repeat split; auto; lia.
  - rewrite (retry_rounds_again host _ _ _ _ _ _ _ _ _ _ w e)
      by (rewrite ?Hrun; solve [reflexivity | apply number_eqb_last; lia
                               | apply number_eqb_more; lia]).
    cbv zeta. cbn [outcome world_after events].
    match goal with
    | |- context [retry_rounds _ _ _ _ _ _ _ _ ?a ?d ?e' ?w'] =>
        destruct (IH a d e' w') as (misses & final & Hev & Hlen & Hmiss & Hout);
        [lia|]
    end.
    exists (inl e :: misses), final.
    assert (Hmiss1 : reads (events (readCreatedPosition host cpAmm user w))
                     = [inl e]) by (rewrite Hrun; reflexivity).
    rewrite !reads_app, Hev, Hmiss1. cbn [reads flat_map app].
    split; [reflexivity|]. split; [cbn [List.length]; lia|].
    split; [constructor; [discriminate | exact Hmiss]|].
    destruct final as [e'|[|p' rest']]; cbn [List.length];
      [destruct Hout; split; [assumption | lia] .. | exact Hout].
  - rewrite (retry_rounds_again host _ _ _ _ _ _ _ _ _ _ w
               (Error "Position not found after creation"))
      by (rewrite ?Hrun; solve [reflexivity | apply number_eqb_last; lia
                               | apply number_eqb_more; lia]).
    cbv zeta. cbn [outcome world_after events].
    match goal with
    | |- context [retry_rounds _ _ _ _ _ _ _ _ ?a ?d ?e' ?w'] =>
        destruct (IH a d e' w') as (misses & final & Hev & Hlen & Hmiss & Hout);
        [lia|]
    end.
    exists (inr [] :: misses), final.
    assert (Hmiss1 : reads (events (readCreatedPosition host cpAmm user w))
                     = [inr []]) by (rewrite Hrun; reflexivity).
    rewrite !reads_app, Hev, Hmiss1. cbn [reads flat_map app].
    split; [reflexivity|]. split; [cbn [List.length]; lia|].
    split; [constructor; [discriminate | exact Hmiss]|].
    destruct final as [e'|[|p' rest']]; cbn [List.length];
      [destruct Hout; split; [assumption | lia] .. | exact Hout].
  - rewrite (retry_rounds_returned host _ _ _ _ _ _ _ _ _ _ w first)
      by (rewrite Hrun; reflexivity).
    rewrite Hrun. exists [], (inr (first :: rest)). cbn.
    repeat split; auto; lia.
Qed.

Variables (poolState : PoolState) (depositQuote : DepositQuote).

(** A run of [createPosition] either stops before its write is confirmed,
    or goes on, from the world the confirmation left, as the reads under
    [retry]. *)
Lemma createPosition_paths (w : World) :
  let r :=
    createPosition host readRetries cpAmm connection user poolState
      depositQuote w in
  (reads (events r) = []
   /\ forall tx signers signature,
        ~ In (SendAndConfirmTransaction connection tx signers (inr signature))
            (events r))
  \/ (exists (prefix : list event) (w3 : World),
         let reading :=
           retry host (readCreatedPosition host cpAmm user)
             (readOptions readRetries) w3 in
         events r = prefix ++ events reading
         /\ reads prefix = []
         /\ outcome r = outcome reading
         /\ world_after r = world_after reading).
Proof.
  intros r. subst r.
  unfold createPosition, cpAmm_createPositionAndAddLiquidity,
    prepareAndSignTransaction, connection_getLatestBlockhash,
    web3_sendAndConfirmTransaction, console_log.
  rewrite bind_emit, bind_Keypair_generate.
  destruct (keypairGenerate host w) as [positionNft w0]; cbn [fst snd].
  rewrite bind_lift, addSlippage_SLIPPAGE_BPS. cbv beta iota.
  rewrite bind_lift, addSlippage_SLIPPAGE_BPS. cbv beta iota.
  rewrite bind_call.
  destruct (createPositionAndAddLiquidity host cpAmm _ w0)
    as [[e1|built] w1]; cbn [fst snd].
  { left. split; [reflexivity|]. intros tx signers signature Hin.
    cbn [after_events events app In] in Hin.
    repeat (destruct Hin as [Hin|Hin]; try discriminate Hin). exact Hin. }
  rewrite bind_assoc, bind_call.
  destruct (getLatestBlockhash host connection w1) as [[e2|blockhash] w2];
    cbn [fst snd].
  { left. split; [reflexivity|]. intros tx signers signature Hin.
    cbn [after_events events app In] in Hin.
    repeat (destruct Hin as [Hin|Hin]; try discriminate Hin). exact Hin. }
  rewrite bind_assoc, bind_lift. cbn [Transaction_sign].
  rewrite bind_ret, bind_call.
  destruct (sendAndConfirmTransaction host connection _ _ w2)
    as [[e3|signature] w3]; cbn [fst snd].
  { left. split; [reflexivity|]. intros tx signers signature Hin.
    cbn [after_events events app In] in Hin.
    repeat (destruct Hin as [Hin|Hin]; try discriminate Hin). exact Hin. }
  rewrite bind_emit, bind_ret_r.
  right. eexists [_; _; _; _; _; _], w3. repeat split; reflexivity.
Qed.


End CreatePosition.

(** ** The driver *)

Section Driver.
Context {World : Type} (host : Host World).
Variable readRetries : Z.

(** [loadEnv] only reads the environment. *)
Lemma loadEnv_quiet (w : World) :
  events (loadEnv host w) = [] /\ world_after (loadEnv host w) = w.
Proof.
  unfold loadEnv.
  destruct (processEnv host "RPC_URL" w) as [[|c rpcUrl]|];
    try (split; reflexivity).
  destruct (processEnv host "SECRET_KEY" w) as [[|c' secretKeyStr]|];
    try (split; reflexivity).
  unfold bind, try_catch.
  destruct (Z.of_nat (List.length (parseByteList host (String c' secretKeyStr)))
            =? 64); split; reflexivity.
Qed.

(** Without [--loop], [main] is one cycle, and [process.exit(1)] after the
    error report if the cycle throws. *)
Lemma main_once (w : World) (iterations : nat) :
  existsb (String.eqb "--loop") (processArgs host w) = false ->
  let r := cycle host readRetries w in
  let p := main host readRetries (S iterations) w in
  events p
  = events r
    ++ match outcome r with
       | inl e => [ConsoleError "❌ Failed:" e; ProcessExit 1]
       | inr _ => []
       end
  /\ outcome p
     = inr match outcome r with inl _ => Exited 1 | inr _ => Returned end.
Proof.
  intros Hargs r p. subst p. unfold main. rewrite Hargs.
  cbn [main_loop]. unfold try_catch, bind, emit, ret.
  cbn [outcome world_after events]. fold r.
  destruct (outcome r); cbn [outcome world_after events negb app];
    rewrite ?app_nil_r; split; reflexivity.
Qed.

End Driver.

(** ** More on [addSlippage] *)

(** X1: for a non-negative amount and basis points from 0 to 67098863,
    where [muln] accepts the factor, [addSlippage] returns a value that is
    never less than the amount, is the amount itself at zero basis points,
    and does not decrease when the amount or the basis points grow. *)
Theorem addSlippage_never_lowers (amount bps : Z) :
  0 <= amount ->
  0 <= bps ->
  bps < 67098864 ->
  exists result : BN,
    addSlippage amount bps = inr result
    /\ amount <= result
    /\ addSlippage amount 0 = inr amount
    /\ (forall amount' : Z,
          amount <= amount' ->
          exists result' : BN,
            addSlippage amount' bps = inr result' /\ result <= result')
    /\ (forall bps' : Z,
          bps <= bps' ->
          bps' < 67098864 ->
          exists result' : BN,
            addSlippage amount bps' = inr result' /\ result <= result').
Proof.
  intros Hamount Hbps Hbound.
  assert (Hvalue : forall a b : Z,
             0 <= a -> 0 <= b -> b < 67098864 ->
             addSlippage a b = inr (a * (10000 + b) / 10000)).
  { intros a b Ha Hb Hb'. rewrite addSlippage_value by lia.
    rewrite Z.quot_div_nonneg by nia. reflexivity. }
  exists (amount * (10000 + bps) / 10000).
  split; [apply Hvalue; assumption|].
  split; [apply Z.div_le_lower_bound; nia|].
  split.
  { rewrite Hvalue by lia. rewrite Z.add_0_r, Z.div_mul by lia.
    reflexivity. }
  split.
  - intros amount' Hle. exists (amount' * (10000 + bps) / 10000).
    split; [apply Hvalue; lia|]. apply Z.div_le_mono; nia.
  - intros bps' Hle Hbound'. exists (amount * (10000 + bps') / 10000).
    split; [apply Hvalue; lia|]. apply Z.div_le_mono; nia.
Qed.

Section RetryMore.
Context {World : Type} (host : Host World) {T : Type}.

(** [retry] is its trace line, then as many rounds of its loop as there
    are integers from 0 to [maxRetries]. *)
Lemma retry_run_rounds (callback : M World T) (options : RetryOptions)
    (w : World) :
  retry host callback options w
  = after_events (debugHeader options)
      (retry_rounds host callback (maxRetries options)
         (orDefault (maxDelay options) 30000)
         (orDefault (backoffMultiplier options) 2)
         (orDefault (debug options) false)
         (fun lastError => throw lastError)
         (Z.to_nat (floor (maxRetries options) + 1)) (Z.of_nat 0)
         (nominalDelay options 0) undefined w).
Proof.
  unfold retry. rewrite retry_then_run. unfold retry_loop.
  rewrite Z.sub_0_r. reflexivity.
Qed.

(** At a round of the loop where [attempt === maxRetries] does not hold,
    [attempt < maxRetries]. *)
Lemma number_lt_attempt (attempt : Z) (mr : number) :
  attempt <= floor mr ->
  number_eqb attempt mr = false ->
  number_lt attempt mr.
Proof.
  unfold floor, number_eqb, number_lt, ofZ. cbn [units].
  intros Hle Hne. apply Z.eqb_neq in Hne. pose proof scale_pos as Hs.
  pose proof (Z.mul_div_le (units mr) scale Hs). nia.
Qed.


Lemma withoutLogs_app (h1 h2 : list event) :
  withoutLogs (h1 ++ h2) = withoutLogs h1 ++ withoutLogs h2.
Proof. apply filter_app. Qed.

Lemma waits_withoutLogs (h : list event) : waits (withoutLogs h) = waits h.
Proof.
  induction h as [|ev h IH]; [reflexivity|].
  unfold withoutLogs, waits in *.
  destruct ev; cbn [filter flat_map app]; rewrite IH; reflexivity.
Qed.

(** The loop with and without [debug]: the same but for console lines. *)
Lemma retry_rounds_debug (callback : M World T) (mr md mult : number)
    (dbg1 dbg2 : bool) (afterLoop : exn -> M World T) (n : nat) :
  forall (attempt : Z) (delay : number) (lastError : exn) (w : World),
    let r1 :=
      retry_rounds host callback mr md mult dbg1 afterLoop n attempt delay
        lastError w in
    let r2 :=
      retry_rounds host callback mr md mult dbg2 afterLoop n attempt delay
        lastError w in
    outcome r1 = outcome r2
    /\ world_after r1 = world_after r2
    /\ withoutLogs (events r1) = withoutLogs (events r2).
Proof.
  induction n as [|k IH]; intros attempt delay lastError w r1 r2;
    subst r1 r2; [repeat split; reflexivity|].
  destruct (outcome (callback w)) as [e|v] eqn:Hcb.
  - destruct (number_eqb attempt mr) eqn:Hlast.
    + rewrite !(retry_rounds_exhausted host _ _ _ _ _ _ _ _ _ _ w e Hcb Hlast).
      repeat split; reflexivity.
    + rewrite !(retry_rounds_again host _ _ _ _ _ _ _ _ _ _ w e Hcb Hlast).
      cbv zeta. cbn [outcome world_after events].
      match goal with
      | |- context [retry_rounds _ _ _ _ _ dbg1 _ _ ?a ?d ?e' ?w'] =>
          destruct (IH a d e' w') as (Ho & Hw & Hl)
      end.
      rewrite !withoutLogs_app, Hl. repeat split; assumption || reflexivity.
  - rewrite !(retry_rounds_returned host _ _ _ _ _ _ _ _ _ _ w v Hcb).
    cbn [outcome world_after events]. rewrite !withoutLogs_app.
    destruct dbg1, dbg2; repeat split; reflexivity.
Qed.

(** X3: the [debug] option of [retry] changes console lines only: result,
    state left behind, every event that is not a console line, and the waits
    are the same whatever [debug] is. *)
Theorem retry_debug_only_logs (callback : M World T) (maxRetries' : number)
    (initialDelay' maxDelay' backoffMultiplier' : option number)
    (debug1 debug2 : option bool) (w : World) :
  let run (debug' : option bool) :=
    retry host callback
      {| maxRetries := maxRetries'; initialDelay := initialDelay';
         maxDelay := maxDelay'; backoffMultiplier := backoffMultiplier';
         debug := debug' |} w in
  outcome (run debug1) = outcome (run debug2)
  /\ world_after (run debug1) = world_after (run debug2)
  /\ withoutLogs (events (run debug1)) = withoutLogs (events (run debug2))
  /\ waits (events (run debug1)) = waits (events (run debug2)).
Proof.
  intros run.
  assert (Hwaits : forall h1 h2 : list event,
            withoutLogs h1 = withoutLogs h2 -> waits h1 = waits h2).
  { intros h1 h2 Heq.
    rewrite <- (waits_withoutLogs h1), <- (waits_withoutLogs h2), Heq.
    reflexivity. }
  assert (Hmain : outcome (run debug1) = outcome (run debug2)
                  /\ world_after (run debug1) = world_after (run debug2)
                  /\ withoutLogs (events (run debug1))
                     = withoutLogs (events (run debug2))).
  { subst run. cbv beta. unfold retry. rewrite !retry_then_run. cbv zeta.
    cbn [outcome world_after events maxRetries initialDelay maxDelay
           backoffMultiplier debug].
    unfold retry_loop.
    destruct (retry_rounds_debug callback maxRetries'
                (orDefault maxDelay' 30000) (orDefault backoffMultiplier' 2)
                (orDefault debug1 false) (orDefault debug2 false)
                (fun lastError => throw lastError)
                (Z.to_nat (floor maxRetries' + 1 - 0)) 0
                (orDefault initialDelay' 100) undefined w)
      as (Ho & Hw & Hl).
    rewrite !withoutLogs_app, Hl. unfold debugHeader.
    cbn [maxRetries initialDelay maxDelay backoffMultiplier debug].
    split; [exact Ho|]. split; [exact Hw|].
    destruct (orDefault debug1 false), (orDefault debug2 false); reflexivity. }
  destruct Hmain as (Ho & Hw & Hl).
  split; [exact Ho|]. split; [exact Hw|]. split; [exact Hl|].
  apply Hwaits. exact Hl.
Qed.

(** What the loop adds to the history around the invocations of its
    callback, from attempt [i] on, for the [rounds] times its test still
    holds. *)
Lemma retry_rounds_origin (callback : M World T) (options : RetryOptions)
    (rounds : nat) :
  forall (i : nat) (lastError : exn) (w : World),
    Z.of_nat i + Z.of_nat rounds = floor (maxRetries options) + 1 ->
    let r :=
      retry_rounds host callback (maxRetries options)
        (orDefault (maxDelay options) 30000)
        (orDefault (backoffMultiplier options) 2)
        (orDefault (debug options) false)
        (fun lastError => throw lastError) rounds (Z.of_nat i)
        (nominalDelay options i) lastError w in
    forall ev : event,
      In ev (events r) ->
      (exists w' : World, In ev (events (callback w')))
      \/ ev = ConsoleLog "Retry failed..."
      \/ ev = ConsoleLog "result..."
      \/ (exists j : nat,
            number_lt (Z.of_nat j) (maxRetries options)
            /\ ev = SetTimeout (backoffWait options j)).
Proof.
  induction rounds as [|k IH]; intros i lastError w Hk r ev Hin; subst r;
    [contradiction|].
  destruct (outcome (callback w)) as [e|v] eqn:Hcb.
  - destruct (number_eqb (Z.of_nat i) (maxRetries options)) eqn:Hlast.
    + rewrite (retry_rounds_exhausted host _ _ _ _ _ _ _ _ _ _ w e Hcb Hlast)
        in Hin.
      cbn [events] in Hin. apply in_app_or in Hin.
      destruct Hin as [Hin|[<-|[]]]; eauto.
    + rewrite (retry_rounds_again host _ _ _ _ _ _ _ _ _ _ w e Hcb Hlast)
        in Hin.
      cbv zeta in Hin. cbn [events] in Hin.
      apply in_app_or in Hin. destruct Hin as [Hin|Hin]; [eauto|].
      apply in_app_or in Hin. destruct Hin as [[<-|[<-|[]]]|Hin]; auto.
      * right. right. right. exists i.
        split; [apply number_lt_attempt; [lia | exact Hlast] | reflexivity].
      * rewrite <- nominalDelay_S in Hin.
        replace (Z.of_nat i + 1) with (Z.of_nat (S i)) in Hin by lia.
        exact (IH (S i) _ _ ltac:(lia) ev Hin).
  - rewrite (retry_rounds_returned host _ _ _ _ _ _ _ _ _ _ w v Hcb) in Hin.
    cbn [events] in Hin. apply in_app_or in Hin.
    destruct Hin as [Hin|Hin]; [eauto|].
    destruct (orDefault (debug options) false);
      [destruct Hin as [<-|[]]; auto | contradiction].
Qed.


(** The waits of the loop over a callback that sets no timer of its own. *)
Lemma retry_rounds_waits (callback : M World T) (options : RetryOptions)
    (rounds : nat) :
  (forall w' : World, waits (events (callback w')) = []) ->
  forall (i : nat) (lastError : exn) (w : World),
    Z.of_nat i + Z.of_nat rounds = floor (maxRetries options) + 1 ->
    let r :=
      retry_rounds host callback (maxRetries options)
        (orDefault (maxDelay options) 30000)
        (orDefault (backoffMultiplier options) 2)
        (orDefault (debug options) false)
        (fun lastError => throw lastError) rounds (Z.of_nat i)
        (nominalDelay options i) lastError w in
    exists j : nat,
      (j <= rounds)%nat
      /\ waits (events r) = map (backoffWait options) (seq i j)
      /\ forall i' : nat,
           (i <= i' < i + j)%nat ->
           number_lt (Z.of_nat i') (maxRetries options).
Proof.
  intros Hquiet.
  induction rounds as [|k IH]; intros i lastError w Hk r; subst r.
  { exists O. split; [lia|]. split; [reflexivity|]. intros i' Hi'. lia. }
  destruct (outcome (callback w)) as [e|v] eqn:Hcb.
  - destruct (number_eqb (Z.of_nat i) (maxRetries options)) eqn:Hlast.
    + rewrite (retry_rounds_exhausted host _ _ _ _ _ _ _ _ _ _ w e Hcb Hlast).
      exists O. cbn [events]. rewrite waits_app, Hquiet.
      split; [lia|]. split; [reflexivity|]. intros i' Hi'. lia.
    + rewrite (retry_rounds_again host _ _ _ _ _ _ _ _ _ _ w e Hcb Hlast).
      cbv zeta. cbn [events].
      rewrite <- nominalDelay_S.
      replace (Z.of_nat i + 1) with (Z.of_nat (S i)) by lia.
      match goal with
      | |- context [retry_rounds _ _ _ _ _ _ _ _ _ _ ?e' ?w'] =>
          destruct (IH (S i) e' w' ltac:(lia)) as (j & Hj & Hw & Hlt)
      end.
      exists (S j). split; [lia|]. split.
      * rewrite !waits_app, Hquiet, Hw. reflexivity.
      * intros i' Hi'. destruct (Nat.eq_dec i' i) as [->|Hne].
        -- apply number_lt_attempt; [lia | exact Hlast].
        -- apply Hlt. lia.
  - rewrite (retry_rounds_returned host _ _ _ _ _ _ _ _ _ _ w v Hcb).
    exists O. cbn [events]. rewrite waits_app, Hquiet.
    split; [lia|]. split.
    + destruct (orDefault (debug options) false); reflexivity.
    + intros i' Hi'. lia.
Qed.

Lemma totalWait_schedule (options : RetryOptions) (j : nat) :
  forall i : nat,
    fold_right Z.add 0 (map units (map (backoffWait options) (seq i j)))
    <= Z.of_nat j * units (orDefault (maxDelay options) 30000).
Proof.
  induction j as [|j IH]; intros i; [reflexivity|].
  cbn [seq map fold_right]. specialize (IH (S i)).
  pose proof (Math_min_le_r (nominalDelay options i)
                (orDefault (maxDelay options) 30000)) as Hcap.
  unfold number_le in Hcap. fold (backoffWait options i) in Hcap.
  lia.
Qed.

(** The waits of [retry] over a callback that sets no timer of its own are
    a prefix of the backoff schedule. *)
Lemma retry_waits_prefix (callback : M World T) (options : RetryOptions)
    (w : World) :
  (forall w' : World, waits (events (callback w')) = []) ->
  exists j : nat,
    Z.of_nat j <= Z.max 0 (floor (maxRetries options) + 1)
    /\ waits (events (retry host callback options w))
       = map (backoffWait options) (seq 0 j)
    /\ forall i : nat,
         (i < j)%nat -> number_lt (Z.of_nat i) (maxRetries options).
Proof.
  intros Hquiet.
  assert (Hheader : waits (debugHeader options) = [])
    by (destruct (debugHeader_quiet options) as (_ & H & _); exact H).
  rewrite retry_run_rounds. cbn [after_events events].
  destruct (Z.lt_ge_cases (floor (maxRetries options)) 0) as [Hneg|Hmr].
  - replace (Z.to_nat (floor (maxRetries options) + 1)) with O by lia.
    exists O. split; [lia|]. split; [rewrite app_nil_r; exact Hheader|].
    intros i Hi. lia.
  - destruct (retry_rounds_waits callback options
                (Z.to_nat (floor (maxRetries options) + 1)) Hquiet 0
                undefined w ltac:(lia))
      as (j & Hj & Hw & Hlt).
    exists j. split; [lia|].
    split; [rewrite waits_app, Hheader, Hw; reflexivity|].
    intros i Hi. apply Hlt. lia.
Qed.


End RetryMore.

(** ** [loadEnv] *)

Section LoadEnv.
Context {World : Type} (host : Host World).

(** X6: [loadEnv] reads the environment without any other effect, and its
    result is decided in this order: [RPC_URL] missing or empty, its error;
    [SECRET_KEY] missing or empty, its error; a key of 64 bytes, the pair of
    the URL and the key; any other length, the error of the key pair
    check wrapped by the [catch] into a "Failed to parse SECRET_KEY: ..."
    error. *)
Theorem loadEnv_outcomes (w : World) :
  let r := loadEnv host w in
  events r = []
  /\ world_after r = w
  /\ (unset (processEnv host "RPC_URL" w) ->
      outcome r = inl (Error "RPC_URL environment variable is not set"))
  /\ (forall rpcUrl : string,
        processEnv host "RPC_URL" w = Some rpcUrl ->
        rpcUrl <> EmptyString ->
        (unset (processEnv host "SECRET_KEY" w) ->
         outcome r
         = inl (Error "SECRET_KEY environment variable is not set"))
        /\ (forall secretKeyStr : string,
              processEnv host "SECRET_KEY" w = Some secretKeyStr ->
              secretKeyStr <> EmptyString ->
              let secretKey := parseByteList host secretKeyStr in
              (List.length secretKey = 64%nat ->
               outcome r = inr (rpcUrl, secretKey))
              /\ (List.length secretKey <> 64%nat ->
                  outcome r
                  = inl (Error
                      "Failed to parse SECRET_KEY: Invalid secret key length")))).
Proof.
  intros r. destruct (loadEnv_quiet host w) as [Hev Hw]. fold r in Hev, Hw.
  split; [exact Hev|]. split; [exact Hw|]. subst r. unfold loadEnv.
  split.
  - intros [-> | ->]; reflexivity.
  - intros rpcUrl -> Hurl.
    destruct rpcUrl as [|c rpcUrl]; [contradiction|]. split.
    + intros [-> | ->]; reflexivity.
    + intros secretKeyStr -> Hkey.
      destruct secretKeyStr as [|c' secretKeyStr]; [contradiction|].
      cbv zeta. unfold bind, try_catch.
      set (secretKey := parseByteList host (String c' secretKeyStr)).
      split; intros Hlen.
      * replace (Z.of_nat (List.length secretKey) =? 64) with true
          by (symmetry; apply Z.eqb_eq; lia).
        reflexivity.
      * replace (Z.of_nat (List.length secretKey) =? 64) with false
          by (symmetry; apply Z.eqb_neq; lia).
        reflexivity.
Qed.

End LoadEnv.

(** ** Transactions on their way to the ledger *)

Section Submissions.
Context {World : Type} (host : Host World).
Variables (readRetries : Z) (cpAmm : CpAmm) (connection : Connection)
  (user : Keypair).

(** [prepareAndSignTransaction] for signers that are not none, then the
    rest of the caller. *)
Lemma bind_prepareAndSignTransaction {B} (built : Transaction)
    (feePayer' : Keypair) (signer : Keypair) (others : list Keypair)
    (k : Transaction -> M World B) (w : World) :
  bind (prepareAndSignTransaction host connection built feePayer'
          (signer :: others)) k w
  = match fst (getLatestBlockhash host connection w) with
    | inl e =>
        {| outcome := inl e;
           world_after := snd (getLatestBlockhash host connection w);
           events := [GetLatestBlockhash connection (inl e)] |}
    | inr blockhash =>
        after_events [GetLatestBlockhash connection (inr blockhash)]
          (k (preparedTransaction built blockhash feePayer'
                (signer :: others))
             (snd (getLatestBlockhash host connection w)))
    end.
Proof.
  unfold prepareAndSignTransaction, connection_getLatestBlockhash.
  rewrite bind_assoc, bind_call.
  destruct (fst (getLatestBlockhash host connection w)); [reflexivity|].
  rewrite bind_assoc, bind_lift. cbn [Transaction_sign].
  rewrite bind_ret. reflexivity.
Qed.

Section Close.
Variables (held : UserPosition) (poolState : PoolState).

(** The run of [closePosition], call by call. *)
Lemma closePosition_steps (w : World) :
  let r := closePosition host cpAmm connection user held poolState w in
  let params :=
    {| rm_owner := publicKey user;
       rm_position := position held;
       rm_positionNftAccount := positionNftAccount held;
       rm_poolState := poolState;
       rm_positionState := positionState held;
       rm_tokenAAmountThreshold := 0;
       rm_tokenBAmountThreshold := 0;
       rm_vestings := [];
       rm_currentPoint := 0 |} in
  let opening :=
    ConsoleLog "Removing all liquidity and closing position..." in
  (exists e,
      events r = [opening; RemoveAllLiquidityAndClosePosition params (inl e)])
  \/ (exists built e,
         events r
         = [opening;
            RemoveAllLiquidityAndClosePosition params (inr built);
            GetLatestBlockhash connection (inl e)])
  \/ (exists built blockhash got tail,
         events r
         = [opening;
            RemoveAllLiquidityAndClosePosition params (inr built);
            GetLatestBlockhash connection (inr blockhash);
            SendAndConfirmTransaction connection
              (preparedTransaction built blockhash user [user]) [user] got]
           ++ tail
         /\ match got with
            | inl _ => tail = []
            | inr signature =>
                exists read,
                  tail = [ConsoleLog ("✓ Position closed: " ++ signature);
                          GetPositionsByUser (publicKey user) read]
            end).
Proof.
  intros r params opening. subst r.
  unfold closePosition, cpAmm_removeAllLiquidityAndClosePosition,
    web3_sendAndConfirmTransaction, cpAmm_getPositionsByUser, console_log,
    ZERO_SLIPPAGE_THRESHOLD.
  fold params.
  rewrite bind_emit, bind_call.
  destruct (removeAllLiquidityAndClosePosition host cpAmm params w)
    as [[e1|built] w1]; cbn [fst snd].
  { left. exists e1. reflexivity. }
  rewrite bind_prepareAndSignTransaction.
  destruct (getLatestBlockhash host connection w1) as [[e2|blockhash] w2];
    cbn [fst snd].
  { right. left. exists built, e2. reflexivity. }
  rewrite bind_call. right. right.
  destruct (sendAndConfirmTransaction host connection
              (preparedTransaction built blockhash user [user]) [user] w2)
    as [[e3|signature] w3]; cbn [fst snd].
  { exists built, blockhash, (inl e3), []. split; reflexivity. }
  rewrite bind_emit, bind_call.
  exists built, blockhash, (inr signature).
  destruct (getPositionsByUser host cpAmm (publicKey user) w3)
    as [[e4|[|p rest]] w4]; cbn [fst snd];
    eexists; (split; [reflexivity|]); eexists; reflexivity.
Qed.


(** X7: whatever [closePosition] submits is the transaction the SDK built
    for its close request, as [prepareAndSignTransaction] leaves it: same
    instructions, the blockhash and the block height read just before, the
    user as fee payer and as only signer, sent on the connection it was
    given, right after the request and the blockhash read. *)
Theorem closePosition_submits_prepared (w : World) :
  let r := closePosition host cpAmm connection user held poolState w in
  forall (connection' : Connection) (tx : Transaction)
         (signers : list Keypair) (got : answer string),
    In (SendAndConfirmTransaction connection' tx signers got) (events r) ->
    connection' = connection
    /\ signers = [user]
    /\ feePayer tx = Some (publicKey user)
    /\ signedBy tx = [publicKey user]
    /\ exists (params : RemoveAllLiquidityAndClosePositionParams)
              (built : Transaction)
              (blockhash : BlockhashWithExpiryBlockHeight)
              (before after : list event),
         events r
         = before
           ++ [RemoveAllLiquidityAndClosePosition params (inr built);
               GetLatestBlockhash connection (inr blockhash);
               SendAndConfirmTransaction connection tx [user] got]
           ++ after
         /\ instructions tx = instructions built
         /\ recentBlockhash tx = Some (bh_blockhash blockhash)
         /\ lastValidBlockHeight tx
            = Some (bh_lastValidBlockHeight blockhash).
Proof.
  intros r connection' tx signers got Hin.
  destruct (closePosition_steps w)
    as [(e & Hev)|[(built & e & Hev)|(built & bh & got' & tail & Hev & Htail)]];
    fold r in Hev; rewrite Hev in Hin |- *.
  - cbn [In] in Hin.
    repeat (destruct Hin as [Hin|Hin]; try discriminate Hin). contradiction.
  - cbn [In] in Hin.
    repeat (destruct Hin as [Hin|Hin]; try discriminate Hin). contradiction.
  - assert (Heq : SendAndConfirmTransaction connection
                    (preparedTransaction built bh user [user]) [user] got'
                  = SendAndConfirmTransaction connection' tx signers got).
    { cbn [app In] in Hin.
      destruct Hin as [Hin|[Hin|[Hin|[Hin|Hin]]]]; try discriminate Hin;
        [exact Hin|].
      destruct got' as [e|signature];
        [subst tail | destruct Htail as [read ->]]; cbn [In] in Hin;
        repeat (destruct Hin as [Hin|Hin]; try discriminate Hin);
        contradiction. }
    injection Heq as <- <- <- <-.
    repeat (split; [reflexivity|]).
    eexists _, built, bh, [_], _. split; [reflexivity|].
    repeat split; reflexivity.
Qed.

(** X8: [closePosition] returns only after a confirmed submission, its
    "Position closed" line and one read of the user's positions that came
    back empty; these are the last three events of the run. *)
Theorem closePosition_returns_only_when_verified (w : World) :
  let r := closePosition host cpAmm connection user held poolState w in
  outcome r = inr tt ->
  reads (events r) = [inr []]
  /\ exists (tx : Transaction) (signature : string) (before : list event),
       events r
       = before
         ++ [SendAndConfirmTransaction connection tx [user] (inr signature);
             ConsoleLog ("✓ Position closed: " ++ signature);
             GetPositionsByUser (publicKey user) (inr [])].
Proof.
  intros r Hok.
  destruct (closePosition_paths host cpAmm connection user held poolState w)
    as [(e & Hout & _)
       |[(built & e & Hout & _)
        |[(built & bh & tx & e & Hout & _)
         |(built & bh & tx & sig & got & _ & Hev & Hout)]]];
    fold r in Hout; try congruence.
  fold r in Hev. rewrite Hok in Hout.
  destruct got as [e|[|p rest]]; try discriminate Hout.
  rewrite Hev. split; [reflexivity|].
  eexists tx, sig, [_; _; _]. reflexivity.
Qed.

End Close.

Section Create.
Variables (poolState : PoolState) (depositQuote : DepositQuote).

(** Every event of the reads under [retry] is a read, a console line or a
    timer. *)
Lemma reading_events (w : World) (ev : event) :
  In ev (events (retry host (readCreatedPosition host cpAmm user)
                   (readOptions readRetries) w)) ->
  (exists got, ev = GetPositionsByUser (publicKey user) got)
  \/ (exists text, ev = ConsoleLog text)
  \/ (exists ms, ev = SetTimeout ms).
Proof.
  intros Hin.
  assert (Hcb : forall w', In ev (events (readCreatedPosition host cpAmm user w'))
                           -> exists got, ev = GetPositionsByUser (publicKey user) got).
  { intros w' H. rewrite readCreatedPosition_run in H. cbv zeta in H.
    cbn [events In] in H. destruct H as [<-|[]]. eauto. }
  rewrite retry_run_rounds in Hin. cbn [after_events events] in Hin.
  change (debugHeader (readOptions readRetries)) with (@nil event) in Hin.
  cbn [app] in Hin.
  destruct (Z.lt_ge_cases (floor (maxRetries (readOptions readRetries))) 0)
    as [Hneg|Hmr].
  { replace (Z.to_nat (floor (maxRetries (readOptions readRetries)) + 1))
      with O in Hin by lia.
    contradiction. }
  destruct (retry_rounds_origin host (readCreatedPosition host cpAmm user)
              (readOptions readRetries)
              (Z.to_nat (floor (maxRetries (readOptions readRetries)) + 1))
              0 undefined w ltac:(lia) ev Hin)
    as [[w' H]|[->|[->|(j & _ & ->)]]]; eauto.
Qed.

(** Histories that hold nothing but reads, console lines and timers. *)
Lemma reading_requests (h : list event) :
  (forall ev, In ev h ->
     (exists got, ev = GetPositionsByUser (publicKey user) got)
     \/ (exists text, ev = ConsoleLog text)
     \/ (exists ms, ev = SetTimeout ms)) ->
  createRequests h = [] /\ closeRequests h = [] /\ quoteRequests h = []
  /\ submitted h = []
  /\ (forall ev, In ev h ->
        match ev with
        | GetPositionsByUser _ _ | ConsoleLog _ | SetTimeout _ => True
        | _ => False
        end).
Proof.
  intros Hall.
  assert (Hkind : forall ev, In ev h ->
            match ev with
            | GetPositionsByUser _ _ | ConsoleLog _ | SetTimeout _ => True
            | _ => False
            end).
  { intros ev Hin.
    destruct (Hall ev Hin) as [[got ->]|[[text ->]|[ms ->]]]; exact I. }
  assert (Hnil : forall (A : Type) (f : event -> list A),
            (forall ev, match ev with
                        | GetPositionsByUser _ _ | ConsoleLog _
                        | SetTimeout _ => f ev = []
                        | _ => True
                        end) ->
            flat_map f h = []).
  { intros A f Hf. clear Hall. induction h as [|ev h' IH]; [reflexivity|].
    cbn [flat_map]. rewrite IH by (intros ev' H; apply Hkind; right; exact H).
    specialize (Hkind ev (or_introl eq_refl)). specialize (Hf ev).
    destruct ev; try contradiction; rewrite Hf; reflexivity. }
  repeat split; try (apply Hnil; intros []; exact I || reflexivity).
  exact Hkind.
Qed.

(** The run of [createPosition], call by call. *)
Lemma createPosition_steps (w : World) :
  let r :=
    createPosition host readRetries cpAmm connection user poolState
      depositQuote w in
  let positionNft := fst (keypairGenerate host w) in
  let params :=
    {| cp_owner := publicKey user;
       cp_pool := SOL_USDC_POOL_PK;
       cp_positionNft := publicKey positionNft;
       cp_liquidityDelta := liquidityDelta depositQuote;
       cp_maxAmountTokenA := MAX_TOKEN_A_AMOUNT;
       cp_maxAmountTokenB := outputAmount depositQuote;
       cp_tokenAAmountThreshold :=
         Z.quot (actualInputAmount depositQuote * 10100) 10000;
       cp_tokenBAmountThreshold :=
         Z.quot (outputAmount depositQuote * 10100) 10000;
       cp_tokenAMint := tokenAMint poolState;
       cp_tokenBMint := tokenBMint poolState;
       cp_tokenAProgram := TOKEN_PROGRAM_ID;
       cp_tokenBProgram := TOKEN_PROGRAM_ID |} in
  let opening :=
    [ConsoleLog "Creating new position..."; KeypairGenerate positionNft] in
  (exists e,
      outcome r = inl e
      /\ events r = opening ++ [CreatePositionAndAddLiquidity params (inl e)])
  \/ (exists built e,
         outcome r = inl e
         /\ events r
            = opening
              ++ [CreatePositionAndAddLiquidity params (inr built);
                  GetLatestBlockhash connection (inl e)])
  \/ (exists built blockhash e,
         outcome r = inl e
         /\ events r
            = opening
              ++ [CreatePositionAndAddLiquidity params (inr built);
                  GetLatestBlockhash connection (inr blockhash);
                  SendAndConfirmTransaction connection
                    (preparedTransaction built blockhash user
                       [user; positionNft])
                    [user; positionNft] (inl e)])
  \/ (exists built blockhash signature w3,
         let reading :=
           retry host (readCreatedPosition host cpAmm user)
             (readOptions readRetries) w3 in
         outcome r = outcome reading
         /\ world_after r = world_after reading
         /\ events r
            = opening
              ++ [CreatePositionAndAddLiquidity params (inr built);
                  GetLatestBlockhash connection (inr blockhash);
                  SendAndConfirmTransaction connection
                    (preparedTransaction built blockhash user
                       [user; positionNft])
                    [user; positionNft] (inr signature);
                  ConsoleLog ("✓ Position created: " ++ signature)]
              ++ events reading).
Proof.
  intros r positionNft params opening. subst r.
  unfold createPosition, cpAmm_createPositionAndAddLiquidity,
    web3_sendAndConfirmTransaction, console_log.
  rewrite bind_emit, bind_Keypair_generate. fold positionNft.
  rewrite bind_lift, addSlippage_SLIPPAGE_BPS. cbv beta iota.
  rewrite bind_lift, addSlippage_SLIPPAGE_BPS. cbv beta iota.
  fold params. rewrite bind_call.
  destruct (createPositionAndAddLiquidity host cpAmm params
              (snd (keypairGenerate host w)))
    as [[e1|built] w1]; cbn [fst snd].
  { left. exists e1. split; reflexivity. }
  rewrite bind_prepareAndSignTransaction.
  destruct (getLatestBlockhash host connection w1) as [[e2|blockhash] w2];
    cbn [fst snd].
  { right. left. exists built, e2. split; reflexivity. }
  rewrite bind_call.
  destruct (sendAndConfirmTransaction host connection
              (preparedTransaction built blockhash user [user; positionNft])
              [user; positionNft] w2)
    as [[e3|signature] w3]; cbn [fst snd].
  { right. right. left. exists built, blockhash, e3. split; reflexivity. }
  rewrite bind_emit, bind_ret_r.
  right. right. right. exists built, blockhash, signature, w3.
  repeat split; reflexivity.
Qed.

(** When the reads under [retry] return a position, it is the first of a
    list one of the reads returned. *)
Lemma reading_returns_read (w3 : World) (made : UserPosition) :
  let reading :=
    retry host (readCreatedPosition host cpAmm user)
      (readOptions readRetries) w3 in
  outcome reading = inr made ->
  exists rest,
    In (GetPositionsByUser (publicKey user) (inr (made :: rest)))
      (events reading).
Proof.
  intros reading Hmade.
  assert (Hkinds := fun ev => reading_events w3 ev : In ev (events reading) -> _).
  pose proof (retry_run_rounds host (readCreatedPosition host cpAmm user)
                (readOptions readRetries) w3) as Hrun.
  fold reading in Hrun.
  change (debugHeader (readOptions readRetries)) with (@nil event) in Hrun.
  unfold readOptions in Hrun.
  cbn [maxRetries maxDelay backoffMultiplier debug orDefault] in Hrun.
  rewrite floor_ofZ in Hrun.
  destruct (Z.lt_ge_cases readRetries 0) as [Hneg|Hmr].
  { replace (Z.to_nat (readRetries + 1)) with O in Hrun by lia.
    rewrite Hrun in Hmade. discriminate Hmade. }
  replace (Z.to_nat (readRetries + 1)) with (S (Z.to_nat readRetries))
    in Hrun by lia.
  match type of Hrun with
  | _ = after_events _ (retry_rounds _ _ _ ?md ?mult _ ?after _ ?a ?d ?e _) =>
      destruct (retry_rounds_reads host cpAmm user readRetries md mult after
                  (Z.to_nat readRetries) a d e w3 ltac:(lia))
        as (misses & final & Hreads & _ & _ & Hfinal);
      set (rounds := retry_rounds host (readCreatedPosition host cpAmm user)
                       (ofZ readRetries) md mult false after
                       (S (Z.to_nat readRetries)) a d e w3) in *
  end.
  assert (Hout : outcome reading = outcome rounds)
    by (rewrite Hrun; reflexivity).
  assert (Hev : forall ev, In ev (events rounds) -> In ev (events reading)).
  { intros ev H. rewrite Hrun. cbn [after_events events].
    apply in_or_app. right. exact H. }
  rewrite Hout in Hmade. rewrite Hmade in Hfinal.
  destruct final as [e|[|first rest]];
    [destruct Hfinal; discriminate | destruct Hfinal; discriminate |].
  injection Hfinal as <-. exists rest.
  assert (Hin : In (inr (made :: rest)) (reads (events rounds)))
    by (rewrite Hreads; apply in_or_app; right; left; reflexivity).
  unfold reads in Hin. apply in_flat_map in Hin.
  destruct Hin as (ev & Hev' & Hgot).
  destruct (Hkinds ev (Hev ev Hev')) as [[g Hg]|[[t Hg]|[ms Hg]]];
    subst ev; cbn in Hgot; try contradiction.
  destruct Hgot as [Hgot|[]]. subst g. exact (Hev _ Hev').
Qed.

(** What a run of [createPosition] holds: events of its own kinds, one
    request, and, if it returns a position, the read that showed it. *)
Lemma createPosition_history (w : World) :
  let r :=
    createPosition host readRetries cpAmm connection user poolState
      depositQuote w in
  (forall ev, In ev (events r) -> createEvent ev)
  /\ (forall params got,
        In (CreatePositionAndAddLiquidity params got) (events r) ->
        cp_liquidityDelta params = liquidityDelta depositQuote
        /\ cp_maxAmountTokenB params = outputAmount depositQuote
        /\ addSlippage (actualInputAmount depositQuote) 100
           = inr (cp_tokenAAmountThreshold params)
        /\ addSlippage (outputAmount depositQuote) 100
           = inr (cp_tokenBAmountThreshold params)
        /\ cp_tokenAMint params = tokenAMint poolState
        /\ cp_tokenBMint params = tokenBMint poolState)
  /\ (forall made,
        outcome r = inr made ->
        exists rest,
          In (GetPositionsByUser (publicKey user) (inr (made :: rest)))
            (events r)).
Proof.
  intros r.
  assert (Hreading : forall w3 ev,
            In ev (events (retry host (readCreatedPosition host cpAmm user)
                             (readOptions readRetries) w3)) ->
            createEvent ev
            /\ forall params got,
                 ev <> CreatePositionAndAddLiquidity params got).
  { intros w3 ev Hin.
    destruct (reading_events _ _ Hin) as [[g ->]|[[t ->]|[ms ->]]];
      split; try exact I; discriminate. }
  destruct (createPosition_steps w)
    as [(e & Hout & Hev)
       |[(built & e & Hout & Hev)
        |[(built & bh & e & Hout & Hev)
         |(built & bh & sig & w3 & Hpath)]]];
    [| | |cbv zeta in Hpath; destruct Hpath as (Hout & _ & Hev)];
    fold r in Hev, Hout; rewrite Hev.
  1-3: split; [|split];
    [ intros ev Hin; cbn [app In] in Hin;
      repeat (destruct Hin as [<-|Hin]; [exact I|]); contradiction
    | intros params got Hin; cbn [app In] in Hin;
      repeat (destruct Hin as [Hin|Hin]; try discriminate Hin);
      [injection Hin as <- <-; repeat split; reflexivity | contradiction]
    | intros made Hmade; congruence ].
  split; [|split].
  - intros ev Hin. cbn [app In] in Hin.
    repeat (destruct Hin as [<-|Hin]; [exact I|]).
    exact (proj1 (Hreading _ _ Hin)).
  - intros params got Hin. cbn [app In] in Hin.
    destruct Hin as [Hin|[Hin|[Hin|[Hin|[Hin|[Hin|Hin]]]]]];
      try discriminate Hin.
    + injection Hin as <- <-. repeat split; reflexivity.
    + exfalso. exact (proj2 (Hreading _ _ Hin) params got eq_refl).
  - intros made Hmade. rewrite Hout in Hmade.
    destruct (reading_returns_read w3 made Hmade) as [rest Hin].
    exists rest. apply in_or_app. right. apply in_or_app. right. exact Hin.
Qed.

(** X9: [createPosition] asks the SDK for exactly one create transaction,
    and for no quote and no close: for the user, in the SOL-USDC pool, with
    the public key of a key pair generated in the same run as position NFT,
    the quote's liquidity, [MAX_TOKEN_A_AMOUNT] and the quote's output as
    maxima, the mints of the pool state, and as thresholds the quote's
    amounts with [SLIPPAGE_BPS] added, which are at least the quoted amounts
    and at most 1% above them. *)
Theorem createPosition_asks_once (w : World) :
  let r :=
    createPosition host readRetries cpAmm connection user poolState
      depositQuote w in
  exists (positionNft : Keypair)
         (params : CreatePositionAndAddLiquidityParams),
    In (KeypairGenerate positionNft) (events r)
    /\ createRequests (events r) = [params]
    /\ closeRequests (events r) = []
    /\ quoteRequests (events r) = []
    /\ cp_owner params = publicKey user
    /\ cp_pool params = SOL_USDC_POOL_PK
    /\ cp_positionNft params = publicKey positionNft
    /\ cp_liquidityDelta params = liquidityDelta depositQuote
    /\ cp_maxAmountTokenA params = 10000000
    /\ cp_maxAmountTokenB params = outputAmount depositQuote
    /\ addSlippage (actualInputAmount depositQuote) 100
       = inr (cp_tokenAAmountThreshold params)
    /\ addSlippage (outputAmount depositQuote) 100
       = inr (cp_tokenBAmountThreshold params)
    /\ cp_tokenAMint params = tokenAMint poolState
    /\ cp_tokenBMint params = tokenBMint poolState
    /\ (0 <= actualInputAmount depositQuote ->
        actualInputAmount depositQuote <= cp_tokenAAmountThreshold params
        /\ 100 * cp_tokenAAmountThreshold params
           <= 101 * actualInputAmount depositQuote)
    /\ (0 <= outputAmount depositQuote ->
        outputAmount depositQuote <= cp_tokenBAmountThreshold params
        /\ 100 * cp_tokenBAmountThreshold params
           <= 101 * outputAmount depositQuote).
Proof.
  intros r.
  assert (Hbound : forall a : Z, 0 <= a ->
            a <= Z.quot (a * 10100) 10000
            /\ 100 * Z.quot (a * 10100) 10000 <= 101 * a).
  { intros a Ha. rewrite Z.quot_div_nonneg by lia.
    pose proof (Z.div_mod (a * 10100) 10000 ltac:(lia)) as Hdiv.
    pose proof (Z.mod_pos_bound (a * 10100) 10000 ltac:(lia)) as Hmod.
    lia. }
  exists (fst (keypairGenerate host w)). eexists.
  destruct (createPosition_steps w)
    as [(e & _ & Hev)
       |[(built & e & _ & Hev)
        |[(built & bh & e & _ & Hev)
         |(built & bh & sig & w3 & Hpath)]]];
    [| | |cbv zeta in Hpath; destruct Hpath as (_ & _ & Hev)];
    fold r in Hev; rewrite Hev.
  4: { match type of Hev with
       | _ = _ ++ _ ++ events ?reading =>
           destruct (reading_requests (events reading)
                       (fun ev H => reading_events _ ev H))
             as (Hc & Hcl & Hq & _)
       end.
       unfold createRequests, closeRequests, quoteRequests in *.
       rewrite !flat_map_app, Hc, Hcl, Hq.
       split; [cbn; auto|]. split; [reflexivity|].
       repeat (split; [reflexivity|]). split; apply Hbound. }
  all: split; [cbn; auto|]; split; [reflexivity|];
    repeat (split; [reflexivity|]); split; apply Hbound.
Qed.

(** X10: whatever [createPosition] submits is the create transaction the
    SDK built, prepared by [prepareAndSignTransaction] with the blockhash
    read just before, paid by the user and signed by the user and by the
    position NFT key pair generated in this run, in this order; the NFT of
    the request is that key pair's public key. *)
Theorem createPosition_submits_prepared (w : World) :
  let r :=
    createPosition host readRetries cpAmm connection user poolState
      depositQuote w in
  forall (connection' : Connection) (tx : Transaction)
         (signers : list Keypair) (got : answer string),
    In (SendAndConfirmTransaction connection' tx signers got) (events r) ->
    exists (positionNft : Keypair)
           (params : CreatePositionAndAddLiquidityParams)
           (built : Transaction)
           (blockhash : BlockhashWithExpiryBlockHeight)
           (before after : list event),
      events r
      = before
        ++ [KeypairGenerate positionNft;
            CreatePositionAndAddLiquidity params (inr built);
            GetLatestBlockhash connection (inr blockhash);
            SendAndConfirmTransaction connection tx [user; positionNft] got]
        ++ after
      /\ connection' = connection
      /\ signers = [user; positionNft]
      /\ cp_positionNft params = publicKey positionNft
      /\ instructions tx = instructions built
      /\ feePayer tx = Some (publicKey user)
      /\ signedBy tx = [publicKey user; publicKey positionNft]
      /\ recentBlockhash tx = Some (bh_blockhash blockhash)
      /\ lastValidBlockHeight tx = Some (bh_lastValidBlockHeight blockhash).
Proof.
  intros r connection' tx signers got Hin.
  destruct (createPosition_steps w)
    as [(e & _ & Hev)
       |[(built & e & _ & Hev)
        |[(built & bh & e & _ & Hev)
         |(built & bh & sig & w3 & Hpath)]]];
    [| | |cbv zeta in Hpath; destruct Hpath as (_ & _ & Hev)];
    fold r in Hev; rewrite Hev in Hin |- *.
  - cbn [app In] in Hin.
    repeat (destruct Hin as [Hin|Hin]; try discriminate Hin). contradiction.
  - cbn [app In] in Hin.
    repeat (destruct Hin as [Hin|Hin]; try discriminate Hin). contradiction.
  - cbn [app In] in Hin.
    repeat (destruct Hin as [Hin|Hin]; try discriminate Hin);
      [|contradiction].
    injection Hin as <- <- <- <-.
    eexists _, _, built, bh, [_], []. split; [reflexivity|].
    repeat split; reflexivity.
  - assert (Heq : SendAndConfirmTransaction connection
                    (preparedTransaction built bh user
                       [user; fst (keypairGenerate host w)])
                    [user; fst (keypairGenerate host w)] (inr sig)
                  = SendAndConfirmTransaction connection' tx signers got).
    { cbn [app In] in Hin.
      destruct Hin as [Hin|[Hin|[Hin|[Hin|[Hin|[Hin|Hin]]]]]];
        try discriminate Hin; [exact Hin|].
      destruct (reading_events _ _ Hin) as [[g Hg]|[[t Hg]|[ms Hg]]];
        discriminate Hg. }
    injection Heq as <- <- <- <-.
    eexists _, _, built, bh, [_], _. split; [reflexivity|].
    repeat split; reflexivity.
Qed.

(** X11: if no submission of [createPosition] is confirmed, then it
    throws without reading the user's positions and without waiting: the
    retried read starts only after a confirmed create. *)
Theorem createPosition_unconfirmed_stops (w : World) :
  let r :=
    createPosition host readRetries cpAmm connection user poolState
      depositQuote w in
  (forall (tx : Transaction) (signers : list Keypair) (signature : string),
      ~ In (SendAndConfirmTransaction connection tx signers (inr signature))
          (events r)) ->
  reads (events r) = []
  /\ waits (events r) = []
  /\ exists e : exn, outcome r = inl e.
Proof.
  intros r Hnone.
  destruct (createPosition_steps w)
    as [(e & Hout & Hev)
       |[(built & e & Hout & Hev)
        |[(built & bh & e & Hout & Hev)
         |(built & bh & sig & w3 & Hpath)]]];
    [| | |cbv zeta in Hpath; destruct Hpath as (_ & _ & Hev)];
    fold r in Hev; try (fold r in Hout; rewrite Hev;
                        repeat split; try reflexivity; eauto).
  exfalso. eapply Hnone. rewrite Hev. cbn [app In]. do 4 right. left.
  reflexivity.
Qed.

(** The delay variable of the reads of [createPosition]: doubling is
    exact, up to the overflow. *)
Lemma readOptions_nominalDelay (i : nat) :
  nominalDelay (readOptions readRetries) i
  = if 2 ^ 1024 <=? 1000 * 2 ^ Z.of_nat i then {| units := huge |}
    else ofZ (1000 * 2 ^ Z.of_nat i).
Proof.
  pose proof scale_pos as Hs.
  assert (Hhuge : 0 < huge) by (unfold huge; apply Z.pow_pos_nonneg; lia).
  induction i as [|i IH]; [vm_compute; reflexivity|].
  rewrite nominalDelay_S, IH.
  change (orDefault (backoffMultiplier (readOptions readRetries)) 2)
    with (ofZ 2).
  assert (Hpow : 0 < 2 ^ Z.of_nat i) by (apply Z.pow_pos_nonneg; lia).
  assert (Hstep : 1000 * 2 ^ Z.of_nat (S i) = 1000 * 2 ^ Z.of_nat i * 2).
  { rewrite Nat2Z.inj_succ, Z.pow_succ_r by lia. ring. }
  rewrite Hstep.
  destruct (2 ^ 1024 <=? 1000 * 2 ^ Z.of_nat i) eqn:Hle.
  - apply Z.leb_le in Hle.
    replace (2 ^ 1024 <=? 1000 * 2 ^ Z.of_nat i * 2) with true
      by (symmetry; apply Z.leb_le; lia).
    rewrite number_mul_infinite
      by (unfold infinite; cbn [units]; apply Z.leb_le; lia).
    unfold ofZ. cbn [units]. rewrite Z.sgn_pos by nia.
    rewrite Z.mul_1_l. reflexivity.
  - rewrite (number_mul_dyadic (1000 * 2 ^ Z.of_nat i) 2 125
               (Z.of_nat i + 4)).
    + rewrite Z.abs_eq by lia.
      destruct (2 ^ 1024 <=? 1000 * 2 ^ Z.of_nat i * 2); [|reflexivity].
      rewrite Z.sgn_pos by lia. rewrite Z.mul_1_l. reflexivity.
    + rewrite Z.pow_add_r by lia. change (2 ^ 4) with 16. ring.
    + lia.
    + reflexivity.
Qed.

Lemma readOptions_backoffWait (i : nat) :
  backoffWait (readOptions readRetries) i
  = ofZ (Z.min (1000 * 2 ^ Z.of_nat i) 30000).
Proof.
  unfold backoffWait. rewrite readOptions_nominalDelay.
  change (orDefault (maxDelay (readOptions readRetries)) 30000)
    with (ofZ 30000).
  destruct (2 ^ 1024 <=? 1000 * 2 ^ Z.of_nat i) eqn:Hle;
    [|apply Math_min_ofZ].
  apply Z.leb_le in Hle.
  assert (Hcap : 30000 < 2 ^ 1024) by (apply Z.ltb_lt; vm_compute; reflexivity).
  rewrite Z.min_r by lia.
  unfold Math_min, ofZ. cbn [units].
  replace (30000 * scale <? huge) with true; [reflexivity|].
  symmetry. apply Z.ltb_lt. rewrite huge_scale. pose proof scale_pos. nia.
Qed.

(** X12: the waits of [createPosition] are an initial part of 1000, 2000,
    4000, ... capped at 30000 milliseconds, at most [maxRetries] of them;
    in total at most 7 seconds with the 3 retries of one copy of
    [helpers.ts] and at most 121 seconds with the 8 retries of the other. *)
Theorem createPosition_wait_schedule (w : World) :
  let r :=
    createPosition host readRetries cpAmm connection user poolState
      depositQuote w in
  exists j : nat,
    Z.of_nat j <= Z.max 0 readRetries
    /\ waits (events r)
       = map (fun i => ofZ (Z.min (1000 * 2 ^ Z.of_nat i) 30000)) (seq 0 j)
    /\ (readRetries = 3 -> number_le (totalWait (events r)) (ofZ 7000))
    /\ (readRetries = 8 -> number_le (totalWait (events r)) (ofZ 121000)).
Proof.
  intros r.
  assert (Hwaits : exists j : nat,
             Z.of_nat j <= Z.max 0 readRetries
             /\ waits (events r)
                = map (fun i => ofZ (Z.min (1000 * 2 ^ Z.of_nat i) 30000))
                    (seq 0 j)).
  { destruct (createPosition_steps w)
      as [(e & _ & Hev)
         |[(built & e & _ & Hev)
          |[(built & bh & e & _ & Hev)
           |(built & bh & sig & w3 & Hpath)]]];
      [| | |cbv zeta in Hpath; destruct Hpath as (_ & _ & Hev)];
      fold r in Hev; rewrite Hev;
      try (exists O; split; [lia | reflexivity]).
    match type of Hev with
    | _ = _ ++ _ ++ events (retry _ ?cb ?options ?w') =>
        destruct (retry_waits_prefix host cb options w')
          as (j & _ & Hw & Hlt)
    end.
    { intros w'. rewrite readCreatedPosition_run. reflexivity. }
    exists j. split.
    - destruct j as [|j]; [lia|].
      specialize (Hlt j ltac:(lia)).
      unfold number_lt, readOptions, ofZ in Hlt.
      cbn [maxRetries units] in Hlt. pose proof scale_pos. nia.
    - rewrite !waits_app, Hw. cbn [waits flat_map app].
      apply map_ext. intros i. apply readOptions_backoffWait. }
  destruct Hwaits as (j & Hj & Hw). exists j.
  split; [exact Hj|]. split; [exact Hw|].
  unfold totalWait, number_le. cbn [units]. rewrite Hw.
  split; intros ->.
  - assert (Hcases : (j <= 3)%nat) by lia.
    do 4 (destruct j as [|j]; [vm_compute; discriminate|]). lia.
  - assert (Hcases : (j <= 8)%nat) by lia.
    do 9 (destruct j as [|j]; [vm_compute; discriminate|]). lia.
Qed.

End Create.
End Submissions.

(** ** More on the driver *)

Section DriverMore.
Context {World : Type} (host : Host World).
Variable readRetries : Z.

Lemma bind_call_pure {A B} (record : answer A -> event) (got : answer A)
    (k : A -> M World B) (w : World) :
  bind (call_pure record got) k w
  = match got with
    | inl e =>
        {| outcome := inl e; world_after := w; events := [record (inl e)] |}
    | inr a => after_events [record (inr a)] (k a w)
    end.
Proof. unfold bind, call_pure. destruct got; reflexivity. Qed.

Lemma try_catch_run {A} (m : M World A) (handler : exn -> M World A)
    (w : World) :
  try_catch m handler w
  = match outcome (m w) with
    | inl e => after_events (events (m w)) (handler e (world_after (m w)))
    | inr _ => m w
    end.
Proof. unfold try_catch. destruct (outcome (m w)); reflexivity. Qed.

(** The end of a cycle, call by call. *)
Lemma closeHeld_steps (cpAmm : CpAmm) (connection : Connection)
    (user : Keypair) (held : UserPosition) (w : World) :
  let r := closeHeld host cpAmm connection user held w in
  exists (got : answer PoolState) (tail : list event),
    events r = [SetTimeout 1000; FetchPoolState SOL_USDC_POOL_PK got] ++ tail
    /\ match got with
       | inl e => tail = [] /\ outcome r = inl e
       | inr poolState =>
           exists w2 : World,
             let closed :=
               closePosition host cpAmm connection user held poolState w2 in
             tail = events closed
                    ++ match outcome closed with
                       | inl _ => []
                       | inr _ => [ConsoleLog "🎉 Completed successfully 🚀"]
                       end
             /\ outcome r = outcome closed
       end.
Proof.
  intros r. subst r. unfold closeHeld, cpAmm_fetchPoolState.
  rewrite bind_sleep, bind_call.
  destruct (fetchPoolState host cpAmm SOL_USDC_POOL_PK (elapse host 1000 w))
    as [[e|poolState] w2]; cbn [fst snd].
  { exists (inl e), []. repeat split; reflexivity. }
  exists (inr poolState). rewrite bind_run.
  destruct (outcome (closePosition host cpAmm connection user held poolState w2))
    as [e|[]] eqn:Hclosed; eexists; (split; [reflexivity|]);
    exists w2; cbv zeta; rewrite Hclosed; cbn [after_events events outcome];
    rewrite ?app_nil_r; split; reflexivity.
Qed.

(** A cycle, call by call. *)
Lemma cycle_steps (w : World) :
  let r := cycle host readRetries w in
  (events r = [] /\ exists e, outcome r = inl e)
  \/ (exists (connection : Connection) (user : Keypair)
             (got : answer (list UserPosition)) (w1 : World)
             (tail : list event),
         let cpAmm := {| cpAmm_connection := connection |} in
         events r
         = [ConsoleLog ("Using wallet: " ++ toBase58 (publicKey user));
            GetPositionsByUser (publicKey user) got]
           ++ tail
         /\ match got with
            | inl e => tail = []
            | inr (first :: rest) =>
                tail
                = ConsoleLog ("Found existing position: "
                              ++ toBase58 (position first))
                  :: events (closeHeld host cpAmm connection user first w1)
            | inr [] =>
                exists (gotPool : answer PoolState) (tail2 : list event),
                  tail = FetchPoolState SOL_USDC_POOL_PK gotPool :: tail2
                  /\ match gotPool with
                     | inl e => tail2 = []
                     | inr poolState =>
                         exists (gotQuote : answer DepositQuote)
                                (tail3 : list event),
                           tail2
                           = GetDepositQuote (quoteParams poolState) gotQuote
                             :: tail3
                           /\ match gotQuote with
                              | inl e => tail3 = []
                              | inr depositQuote =>
                                  exists w2 : World,
                                    let created :=
                                      createPosition host readRetries cpAmm
                                        connection user poolState depositQuote
                                        w2 in
                                    tail3
                                    = events created
                                      ++ match outcome created with
                                         | inl _ => []
                                         | inr made =>
                                             events
                                               (closeHeld host cpAmm
                                                  connection user made
                                                  (world_after created))
                                         end
                              end
                     end
            end).
Proof.
  intros r. subst r. unfold cycle.
  destruct (loadEnv_quiet host w) as [Hquiet Hsame].
  rewrite (bind_quiet _ _ _ Hquiet Hsame).
  destruct (outcome (loadEnv host w)) as [e|[rpcUrl secretKey]];
    [left; split; [reflexivity | exists e; reflexivity]|].
  cbv beta iota. rewrite bind_lift.
  destruct (newConnection host rpcUrl) as [e|connection];
    [left; split; [reflexivity | exists e; reflexivity]|].
  rewrite bind_lift.
  destruct (keypairFromSecretKey host secretKey) as [e|user];
    [left; split; [reflexivity | exists e; reflexivity]|].
  right. exists connection, user.
  unfold console_log, cpAmm_getPositionsByUser.
  rewrite bind_emit, bind_call.
  destruct (getPositionsByUser host _ (publicKey user) w)
    as [[e|[|first rest]] w1]; cbn [fst snd].
  - exists (inl e), w1, []. split; reflexivity.
  - exists (inr []), w1.
    unfold cpAmm_fetchPoolState, cpAmm_getDepositQuote.
    rewrite !bind_assoc, bind_call.
    destruct (fetchPoolState host _ SOL_USDC_POOL_PK w1)
      as [[e|poolState] w2]; cbn [fst snd].
    { eexists. split; [reflexivity|]. exists (inl e), []. split; reflexivity. }
    rewrite !bind_assoc, bind_call_pure.
    change {| gdq_inAmount := DEPOSIT_AMOUNT; gdq_isTokenA := true;
              gdq_minSqrtPrice := sqrtMinPrice poolState;
              gdq_maxSqrtPrice := sqrtMaxPrice poolState;
              gdq_sqrtPrice := sqrtPrice poolState |}
      with (quoteParams poolState).
    destruct (getDepositQuote host _ (quoteParams poolState))
      as [e|depositQuote].
    { eexists. split; [reflexivity|]. exists (inr poolState). eexists.
      split; [reflexivity|]. exists (inl e), []. split; reflexivity. }
    rewrite !bind_assoc, bind_run.
    eexists. split; [reflexivity|]. exists (inr poolState). eexists.
    split; [reflexivity|]. exists (inr depositQuote). eexists.
    split; [reflexivity|]. exists w2. cbv zeta.
    destruct (outcome (createPosition host readRetries _ _ user poolState
                         depositQuote w2)) as [e|made];
      [cbn [events]; rewrite app_nil_r; reflexivity|].
    rewrite bind_ret. reflexivity.
  - exists (inr (first :: rest)), (w1).
    rewrite bind_assoc, bind_emit, bind_ret.
    eexists. split; reflexivity.
Qed.

(** The close request of [closePosition] comes right after its opening
    line and is for the position and the pool state it was given. *)
Lemma closePosition_request_in (cpAmm : CpAmm) (connection : Connection)
    (user : Keypair) (held : UserPosition) (poolState : PoolState) (w : World)
    (params : RemoveAllLiquidityAndClosePositionParams)
    (got : answer Transaction) :
  let r := closePosition host cpAmm connection user held poolState w in
  In (RemoveAllLiquidityAndClosePosition params got) (events r) ->
  exists after : list event,
    events r
    = [ConsoleLog "Removing all liquidity and closing position...";
       RemoveAllLiquidityAndClosePosition params got]
      ++ after
    /\ rm_poolState params = poolState
    /\ rm_owner params = publicKey user
    /\ rm_position params = position held
    /\ rm_positionNftAccount params = positionNftAccount held
    /\ rm_positionState params = positionState held.
Proof.
  intros r Hin.
  destruct (closePosition_steps host cpAmm connection user held poolState w)
    as [(e & Hev)
       |[(built & e & Hev)
        |(built & bh & got' & tail & Hev & Htail)]];
    fold r in Hev; rewrite Hev in Hin |- *; cbn [app In] in Hin.
  - destruct Hin as [Hin|[Hin|[]]]; try discriminate Hin.
    injection Hin as <- <-. eexists. repeat split; reflexivity.
  - destruct Hin as [Hin|[Hin|[Hin|[]]]]; try discriminate Hin.
    injection Hin as <- <-. eexists. repeat split; reflexivity.
  - destruct Hin as [Hin|[Hin|[Hin|[Hin|Hin]]]]; try discriminate Hin.
    + injection Hin as <- <-. eexists. repeat split; reflexivity.
    + exfalso. destruct got' as [e|signature];
        [subst tail | destruct Htail as [read ->]]; cbn [In] in Hin;
        repeat (destruct Hin as [Hin|Hin]; try discriminate Hin);
        contradiction.
Qed.

Lemma closeHeld_request_in (cpAmm : CpAmm) (connection : Connection)
    (user : Keypair) (held : UserPosition) (w : World)
    (params : RemoveAllLiquidityAndClosePositionParams)
    (got : answer Transaction) :
  let r := closeHeld host cpAmm connection user held w in
  In (RemoveAllLiquidityAndClosePosition params got) (events r) ->
  exists (poolState : PoolState) (after : list event),
    events r
    = [SetTimeout 1000; FetchPoolState SOL_USDC_POOL_PK (inr poolState);
       ConsoleLog "Removing all liquidity and closing position...";
       RemoveAllLiquidityAndClosePosition params got]
      ++ after
    /\ rm_poolState params = poolState
    /\ rm_owner params = publicKey user
    /\ rm_position params = position held
    /\ rm_positionNftAccount params = positionNftAccount held
    /\ rm_positionState params = positionState held.
Proof.
  intros r Hin.
  destruct (closeHeld_steps cpAmm connection user held w)
    as (gotPool & tail & Hev & Htail).
  fold r in Hev, Htail. rewrite Hev in Hin |- *. cbn [app In] in Hin.
  destruct Hin as [Hin|[Hin|Hin]]; try discriminate Hin.
  destruct gotPool as [e|poolState].
  { destruct Htail as [-> _]. contradiction. }
  destruct Htail as (w2 & Htail). cbv zeta in Htail.
  destruct Htail as [-> _].
  apply in_app_or in Hin. destruct Hin as [Hin|Hin].
  - destruct (closePosition_request_in cpAmm connection user held poolState
                w2 params got Hin)
      as (after & Hclosed & Hfields).
    rewrite Hclosed. exists poolState. eexists. split; [reflexivity|].
    exact Hfields.
  - exfalso.
    destruct (outcome (closePosition host cpAmm connection user held
                         poolState w2));
      cbn [In] in Hin;
      repeat (destruct Hin as [Hin|Hin]; try discriminate Hin);
      contradiction.
Qed.

(** A cycle whose first read finds a position is the three events up to
    the line that names it, then the end of the cycle for that position. *)
Lemma cycle_found (w : World) (first : UserPosition)
    (rest : list UserPosition) :
  hd_error (reads (events (cycle host readRetries w)))
  = Some (inr (first :: rest)) ->
  exists (connection : Connection) (user : Keypair) (w1 : World),
    cycle host readRetries w
    = after_events
        [ConsoleLog ("Using wallet: " ++ toBase58 (publicKey user));
         GetPositionsByUser (publicKey user) (inr (first :: rest));
         ConsoleLog ("Found existing position: "
                     ++ toBase58 (position first))]
        (closeHeld host {| cpAmm_connection := connection |} connection user
           first w1).
Proof.
  unfold cycle.
  destruct (loadEnv_quiet host w) as [Hquiet Hsame].
  rewrite (bind_quiet _ _ _ Hquiet Hsame).
  destruct (outcome (loadEnv host w)) as [e|[rpcUrl secretKey]];
    [cbn; discriminate|].
  cbv beta iota. rewrite bind_lift.
  destruct (newConnection host rpcUrl) as [e|connection];
    [cbn; discriminate|].
  rewrite bind_lift.
  destruct (keypairFromSecretKey host secretKey) as [e|user];
    [cbn; discriminate|].
  unfold console_log, cpAmm_getPositionsByUser.
  rewrite bind_emit, bind_call.
  destruct (getPositionsByUser host _ (publicKey user) w)
    as [[e|[|first' rest']] w1]; cbn [fst snd];
    [cbn; discriminate | cbn [after_events events app reads flat_map hd_error];
                         discriminate |].
  cbn [after_events events app reads flat_map hd_error]. intros Hfirst.
  injection Hfirst as -> ->.
  exists connection, user, w1.
  rewrite bind_assoc, bind_emit, bind_ret.
  unfold closeHeld, after_events. cbn [outcome world_after events app].
  reflexivity.
Qed.

(** C8, as the code has it: in a cycle of the driver whose first read of
    the owner's positions returns a non-empty list, the driver takes the
    first position of that list and goes straight to closing it.  The
    history of the cycle is the wallet line, that read, the line naming the
    position, the one-second sleep and a read of the pool state; if that
    read fails the cycle throws its error, and otherwise [closePosition]
    runs for that position and that pool state, starting with its opening
    line and its close request, and the cycle ends as [closePosition] does.
    No create-and-add-liquidity transaction is requested and no deposit
    quote is computed in the cycle, every close request is for that
    position, and every transaction submitted was built for a close
    request.  Without [--loop] the cycle is the whole run of [main], which
    then requests no creation and no quote either; under [--loop] the next
    cycle starts with a read of its own. *)
Theorem cycle_skips_creation (w : World) (first : UserPosition)
    (rest : list UserPosition) :
  let r := cycle host readRetries w in
  hd_error (reads (events r)) = Some (inr (first :: rest)) ->
  (exists (connection : Connection) (user : Keypair)
          (gotPool : answer PoolState) (closing : list event),
      events r
      = [ConsoleLog ("Using wallet: " ++ toBase58 (publicKey user));
         GetPositionsByUser (publicKey user) (inr (first :: rest));
         ConsoleLog ("Found existing position: "
                     ++ toBase58 (position first));
         SetTimeout 1000;
         FetchPoolState SOL_USDC_POOL_PK gotPool]
        ++ closing
      /\ match gotPool with
         | inl e => closing = [] /\ outcome r = inl e
         | inr poolState =>
             exists w2 : World,
               let closed :=
                 closePosition host {| cpAmm_connection := connection |}
                   connection user first poolState w2 in
               closing
               = events closed
                 ++ match outcome closed with
                    | inl _ => []
                    | inr _ => [ConsoleLog "🎉 Completed successfully 🚀"]
                    end
               /\ outcome r = outcome closed
               /\ exists (got : answer Transaction) (after : list event),
                    events closed
                    = [ConsoleLog
                         "Removing all liquidity and closing position...";
                       RemoveAllLiquidityAndClosePosition
                         {| rm_owner := publicKey user;
                            rm_position := position first;
                            rm_positionNftAccount := positionNftAccount first;
                            rm_poolState := poolState;
                            rm_positionState := positionState first;
                            rm_tokenAAmountThreshold := 0;
                            rm_tokenBAmountThreshold := 0;
                            rm_vestings := [];
                            rm_currentPoint := 0 |} got]
                      ++ after
         end)
  /\ createRequests (events r) = []
  /\ quoteRequests (events r) = []
  /\ (forall params : RemoveAllLiquidityAndClosePositionParams,
        In params (closeRequests (events r)) ->
        rm_position params = position first
        /\ rm_positionNftAccount params = positionNftAccount first
        /\ rm_positionState params = positionState first)
  /\ (forall tx : Transaction,
        In tx (submitted (events r)) ->
        exists params built,
          In (RemoveAllLiquidityAndClosePosition params (inr built))
            (events r)
          /\ instructions tx = instructions built)
  /\ (existsb (String.eqb "--loop") (processArgs host w) = false ->
      forall iterations : nat,
        let p := main host readRetries (S iterations) w in
        events p
        = events r
          ++ match outcome r with
             | inl e => [ConsoleError "❌ Failed:" e; ProcessExit 1]
             | inr _ => []
             end
        /\ createRequests (events p) = []
        /\ quoteRequests (events p) = []
        /\ (outcome p = inr Returned \/ outcome p = inr (Exited 1))).
Proof.
  intros r Hfirst.
  destruct (cycle_found w first rest Hfirst) as (connection & user & w1 & Hrun).
  fold r in Hrun.
  set (cpAmm := {| cpAmm_connection := connection |}) in *.
  destruct (closeHeld_steps cpAmm connection user first w1)
    as (gotPool & tail & Hheld & Htail).
  assert (Hev : events r
                = [ConsoleLog ("Using wallet: " ++ toBase58 (publicKey user));
                   GetPositionsByUser (publicKey user) (inr (first :: rest));
                   ConsoleLog ("Found existing position: "
                               ++ toBase58 (position first));
                   SetTimeout 1000;
                   FetchPoolState SOL_USDC_POOL_PK gotPool]
                  ++ tail).
  { rewrite Hrun. cbn [after_events events]. rewrite Hheld. reflexivity. }
  assert (Hout : outcome r
                 = outcome (closeHeld host cpAmm connection user first w1)).
  { rewrite Hrun. reflexivity. }
  assert (Hfacts :
            createRequests tail = [] /\ quoteRequests tail = []
            /\ (forall params, In params (closeRequests tail) ->
                rm_position params = position first
                /\ rm_positionNftAccount params = positionNftAccount first
                /\ rm_positionState params = positionState first)
            /\ (forall tx, In tx (submitted tail) ->
                exists params built,
                  In (RemoveAllLiquidityAndClosePosition params (inr built))
                    tail
                  /\ instructions tx = instructions built)).
  { destruct gotPool as [e|poolState].
    - destruct Htail as [-> _]. split; [reflexivity|].
      split; [reflexivity|]. split; intros ? [].
    - destruct Htail as (w2 & Htail). cbv zeta in Htail.
      destruct Htail as [-> _].
      destruct (closePosition_requests host cpAmm connection user first
                  poolState w2)
        as (params & Hclose & Hpos & Hnft & Hstate & Hcreate & Hquote & Hsub).
      set (closed := closePosition host cpAmm connection user first
                       poolState w2) in *.
      assert (Hfin : forall fin : list event,
                fin = [] \/ fin = [ConsoleLog "🎉 Completed successfully 🚀"] ->
                createRequests (events closed ++ fin) = []
                /\ quoteRequests (events closed ++ fin) = []
                /\ closeRequests (events closed ++ fin) = [params]
                /\ submitted (events closed ++ fin) = submitted (events closed)).
      { intros fin Hfin.
        unfold createRequests, quoteRequests, closeRequests, submitted in *.
        rewrite !flat_map_app, Hcreate, Hquote, Hclose.
        destruct Hfin as [-> | ->]; cbn [flat_map app]; rewrite ?app_nil_r;
          repeat split; reflexivity. }
      destruct (Hfin (match outcome closed with
                      | inl _ => []
                      | inr _ => [ConsoleLog "🎉 Completed successfully 🚀"]
                      end))
        as (H1 & H2 & H3 & H4);
        [destruct (outcome closed); [left | right]; reflexivity|].
      split; [exact H1|]. split; [exact H2|]. split.
      + intros params' Hin. rewrite H3 in Hin. destruct Hin as [<-|[]]. auto.
      + intros tx Hin. rewrite H4 in Hin.
        destruct (Hsub tx Hin) as (built & Hbuilt & Hix).
        exists params, built. split; [|exact Hix].
        apply in_or_app. left. exact Hbuilt. }
  destruct Hfacts as (Hcreate & Hquote & Hclose & Hsub).
  assert (Hcreate' : createRequests (events r) = [])
    by (rewrite Hev; exact Hcreate).
  assert (Hquote' : quoteRequests (events r) = [])
    by (rewrite Hev; exact Hquote).
  split.
  { exists connection, user, gotPool, tail. split; [exact Hev|].
    destruct gotPool as [e|poolState].
    - destruct Htail as [Htail Hthrown]. split; [exact Htail|].
      rewrite Hout. exact Hthrown.
    - destruct Htail as (w2 & Htail). cbv zeta in Htail.
      destruct Htail as [Htail Hclosed]. exists w2. cbv zeta. fold cpAmm.
      split; [exact Htail|]. split; [rewrite Hout; exact Hclosed|].
      destruct (closePosition_steps host cpAmm connection user first
                  poolState w2)
        as [(e & Hc)|[(built & e & Hc)|(built & bh & g & t & Hc & _)]];
        rewrite Hc; eexists; eexists; reflexivity. }
  split; [exact Hcreate'|]. split; [exact Hquote'|].
  split; [intros params Hin; rewrite Hev in Hin; exact (Hclose params Hin)|].
  split.
  { intros tx Hin. rewrite Hev in Hin.
    destruct (Hsub tx Hin) as (params & built & Hbuilt & Hix).
    exists params, built. split; [|exact Hix].
    rewrite Hev. do 5 right. exact Hbuilt. }
  intros Hargs iterations p.
  destruct (main_once host readRetries w iterations Hargs) as [Hp Hstatus].
  fold r in Hp, Hstatus. fold p in Hp, Hstatus.
  split; [exact Hp|].
  unfold createRequests, quoteRequests in *.
  rewrite Hp, !flat_map_app, Hcreate', Hquote', Hstatus.
  destruct (outcome r); auto.
Qed.

(** X13: in a cycle of [main], every close request comes right after the
    one-second sleep, a read of the pool state and the opening line of
    [closePosition]; it carries the pool state just read, not the one the
    position was created with, and closes the first position of a read of
    the owner's positions made earlier in the same cycle. *)
Theorem cycle_closes_on_fresh_pool_state (w : World) :
  let r := cycle host readRetries w in
  forall (params : RemoveAllLiquidityAndClosePositionParams)
         (got : answer Transaction),
    In (RemoveAllLiquidityAndClosePosition params got) (events r) ->
    exists (before after : list event) (poolState : PoolState)
           (held : UserPosition) (rest : list UserPosition),
      events r
      = before
        ++ [SetTimeout 1000;
            FetchPoolState SOL_USDC_POOL_PK (inr poolState);
            ConsoleLog "Removing all liquidity and closing position...";
            RemoveAllLiquidityAndClosePosition params got]
        ++ after
      /\ rm_poolState params = poolState
      /\ In (GetPositionsByUser (rm_owner params) (inr (held :: rest))) before
      /\ rm_position params = position held
      /\ rm_positionNftAccount params = positionNftAccount held
      /\ rm_positionState params = positionState held.
Proof.
  intros r params got Hin.
  destruct (cycle_steps w)
    as [[Hev _]|(connection & user & read & w1 & tail & Hsteps)];
    fold r in Hev || fold r in Hsteps.
  { rewrite Hev in Hin. contradiction. }
  cbv zeta in Hsteps. destruct Hsteps as [Hev Htail].
  rewrite Hev in Hin |- *. cbn [app In] in Hin.
  destruct Hin as [Hin|[Hin|Hin]]; try discriminate Hin.
  destruct read as [e|[|first rest]].
  - subst tail. contradiction.
  - destruct Htail as (gotPool & tail2 & -> & Htail2). cbn [In] in Hin.
    destruct Hin as [Hin|Hin]; [discriminate Hin|].
    destruct gotPool as [e|poolState]; [subst tail2; contradiction|].
    destruct Htail2 as (gotQuote & tail3 & -> & Htail3). cbn [In] in Hin.
    destruct Hin as [Hin|Hin]; [discriminate Hin|].
    destruct gotQuote as [e|depositQuote]; [subst tail3; contradiction|].
    destruct Htail3 as (w2 & Htail3). cbv zeta in Htail3. subst tail3.
    match goal with
    | _ : In _ (events ?c ++ _) |- _ => set (created := c) in *
    end.
    destruct (createPosition_history host readRetries
                {| cpAmm_connection := connection |} connection user poolState
                depositQuote w2) as (Hkinds & _ & Hmade).
    fold created in Hkinds, Hmade.
    apply in_app_or in Hin. destruct Hin as [Hin|Hin].
    { exfalso. exact (Hkinds _ Hin). }
    destruct (outcome created) as [e|made]; [contradiction|].
    destruct (Hmade made eq_refl) as [rest Hread].
    destruct (closeHeld_request_in _ _ user made _ params got Hin)
      as (ps & after & Hclosing & Hpool & Howner & Hfields).
    rewrite Hclosing.
    eexists (_ :: _ :: _ :: _ :: events created), after, ps, made, rest.
    split; [reflexivity|].
    split; [exact Hpool|]. split; [|exact Hfields].
    rewrite Howner. do 4 right. exact Hread.
  - subst tail. cbn [In] in Hin.
    destruct Hin as [Hin|Hin]; [discriminate Hin|].
    destruct (closeHeld_request_in _ _ user first _ params got Hin)
      as (ps & after & Hclosing & Hpool & Howner & Hfields).
    rewrite Hclosing.
    eexists [_; _; _], after, ps, first, rest.
    split; [reflexivity|]. split; [exact Hpool|]. split; [|exact Hfields].
    rewrite Howner. right. left. reflexivity.
Qed.

(** X14: in a cycle of [main], a deposit quote is asked only when the
    first read of the user's positions came back empty, for [DEPOSIT_AMOUNT]
    of token A at the prices of a pool state fetched in the cycle; and every
    create request carries the liquidity, the maximum of token B and the
    slippage thresholds of a quote answered in the cycle, with the mints of
    that pool state. *)
Theorem cycle_quotes_then_creates (w : World) :
  let r := cycle host readRetries w in
  (forall (params : GetDepositQuoteParams) (got : answer DepositQuote),
      In (GetDepositQuote params got) (events r) ->
      exists (owner : PublicKey) (poolState : PoolState),
        hd_error (reads (events r)) = Some (inr [])
        /\ In (GetPositionsByUser owner (inr [])) (events r)
        /\ In (FetchPoolState SOL_USDC_POOL_PK (inr poolState)) (events r)
        /\ gdq_inAmount params = 1000000
        /\ gdq_isTokenA params = true
        /\ gdq_minSqrtPrice params = sqrtMinPrice poolState
        /\ gdq_maxSqrtPrice params = sqrtMaxPrice poolState
        /\ gdq_sqrtPrice params = sqrtPrice poolState)
  /\ (forall (params : CreatePositionAndAddLiquidityParams)
             (got : answer Transaction),
        In (CreatePositionAndAddLiquidity params got) (events r) ->
        exists (poolState : PoolState) (depositQuote : DepositQuote),
          In (FetchPoolState SOL_USDC_POOL_PK (inr poolState)) (events r)
          /\ In (GetDepositQuote (quoteParams poolState) (inr depositQuote))
               (events r)
          /\ cp_liquidityDelta params = liquidityDelta depositQuote
          /\ cp_maxAmountTokenB params = outputAmount depositQuote
          /\ addSlippage (actualInputAmount depositQuote) 100
             = inr (cp_tokenAAmountThreshold params)
          /\ addSlippage (outputAmount depositQuote) 100
             = inr (cp_tokenBAmountThreshold params)
          /\ cp_tokenAMint params = tokenAMint poolState
          /\ cp_tokenBMint params = tokenBMint poolState).
Proof.
  intros r.
  destruct (cycle_steps w)
    as [[Hev _]|(connection & user & read & w1 & tail & Hsteps)];
    fold r in Hev || fold r in Hsteps.
  { rewrite Hev. split; intros ? ? []. }
  cbv zeta in Hsteps. destruct Hsteps as [Hev Htail]. rewrite Hev.
  assert (Hclosing : forall held w' ev,
            In ev (events (closeHeld host
                             {| cpAmm_connection := connection |}
                             connection user held w')) ->
            (forall p g, ev <> GetDepositQuote p g)
            /\ (forall p g, ev <> CreatePositionAndAddLiquidity p g)).
  { intros held w' ev Hin.
    destruct (closeHeld_steps
                {| cpAmm_connection := connection |} connection user held w')
      as (gotPool & tail' & Hev' & Htail').
    rewrite Hev' in Hin. cbn [app In] in Hin.
    destruct Hin as [<-|[<-|Hin]]; try (split; discriminate).
    destruct gotPool as [e|ps]; [destruct Htail' as [-> _]; contradiction|].
    destruct Htail' as (w2 & Htail'). cbv zeta in Htail'.
    destruct Htail' as [-> _].
    apply in_app_or in Hin. destruct Hin as [Hin|Hin].
    - destruct (closePosition_steps host
                  {| cpAmm_connection := connection |} connection user held ps w2)
        as [(e & Hc)|[(built & e & Hc)|(built & bh & g & t & Hc & Ht)]];
        rewrite Hc in Hin; cbn [app In] in Hin.
      + repeat (destruct Hin as [<-|Hin]; [split; discriminate|]).
        contradiction.
      + repeat (destruct Hin as [<-|Hin]; [split; discriminate|]).
        contradiction.
      + destruct Hin as [<-|[<-|[<-|[<-|Hin]]]]; try (split; discriminate).
        destruct g as [e|signature];
          [subst t | destruct Ht as [rd ->]]; cbn [In] in Hin;
          repeat (destruct Hin as [<-|Hin]; [split; discriminate|]);
          contradiction.
    - destruct (outcome (closePosition host _ _ user held ps w2));
        cbn [In] in Hin;
        repeat (destruct Hin as [<-|Hin]; [split; discriminate|]);
        contradiction. }
  destruct read as [e|[|first rest]].
  - subst tail. split; intros p g Hin; cbn [app In] in Hin;
      repeat (destruct Hin as [Hin|Hin]; try discriminate Hin);
      contradiction.
  - destruct Htail as (gotPool & tail2 & -> & Htail2).
    destruct gotPool as [e|poolState].
    { subst tail2. split; intros p g Hin; cbn [app In] in Hin;
        repeat (destruct Hin as [Hin|Hin]; try discriminate Hin);
        contradiction. }
    destruct Htail2 as (gotQuote & tail3 & -> & Htail3).
    assert (Htail3' : forall ev, In ev tail3 ->
              (forall p g, ev <> GetDepositQuote p g)
              /\ (forall p g, ev = CreatePositionAndAddLiquidity p g ->
                  exists depositQuote,
                    gotQuote = inr depositQuote
                    /\ cp_liquidityDelta p = liquidityDelta depositQuote
                    /\ cp_maxAmountTokenB p = outputAmount depositQuote
                    /\ addSlippage (actualInputAmount depositQuote) 100
                       = inr (cp_tokenAAmountThreshold p)
                    /\ addSlippage (outputAmount depositQuote) 100
                       = inr (cp_tokenBAmountThreshold p)
                    /\ cp_tokenAMint p = tokenAMint poolState
                    /\ cp_tokenBMint p = tokenBMint poolState)).
    { intros ev Hin.
      destruct gotQuote as [e|depositQuote]; [subst tail3; contradiction|].
      destruct Htail3 as (w2 & Htail3). cbv zeta in Htail3. subst tail3.
      destruct (createPosition_history host readRetries
                  {| cpAmm_connection := connection |} connection user poolState
                  depositQuote w2) as (Hkinds & Hreq & _).
      apply in_app_or in Hin. destruct Hin as [Hin|Hin].
      - split.
        + intros p g ->. exact (Hkinds _ Hin).
        + intros p g ->. exists depositQuote. split; [reflexivity|].
          exact (Hreq p g Hin).
      - destruct (outcome (createPosition host readRetries _ _ user
                             poolState depositQuote w2)) as [e|made];
          [contradiction|].
        destruct (Hclosing made _ ev Hin) as [Hq Hc].
        split; [exact Hq|]. intros p g ->. exfalso. exact (Hc p g eq_refl). }
    split.
    + intros p g Hin. cbn [app In] in Hin.
      destruct Hin as [Hin|[Hin|[Hin|[Hin|Hin]]]]; try discriminate Hin.
      * injection Hin as <- <-. exists (publicKey user), poolState.
        split; [reflexivity|]. split; [cbn; auto|]. split; [cbn; auto|].
        repeat split; reflexivity.
      * exfalso. exact (proj1 (Htail3' _ Hin) p g eq_refl).
    + intros p g Hin. cbn [app In] in Hin.
      destruct Hin as [Hin|[Hin|[Hin|[Hin|Hin]]]]; try discriminate Hin.
      destruct (proj2 (Htail3' _ Hin) p g eq_refl)
        as (depositQuote & -> & Hfields).
      exists poolState, depositQuote.
      split; [cbn; auto|]. split; [cbn; auto|]. exact Hfields.
  - subst tail. split; intros p g Hin; cbn [app In] in Hin;
      destruct Hin as [Hin|[Hin|[Hin|Hin]]]; try discriminate Hin;
      exfalso; [exact (proj1 (Hclosing _ _ _ Hin) p g eq_refl)
               |exact (proj2 (Hclosing _ _ _ Hin) p g eq_refl)].
Qed.

Lemma createEvent_cycleEvent (ev : event) : createEvent ev -> cycleEvent ev.
Proof. destruct ev; intros H; try exact I; contradiction. Qed.

Lemma closeHeld_kinds (cpAmm : CpAmm) (connection : Connection)
    (user : Keypair) (held : UserPosition) (w : World) (ev : event) :
  In ev (events (closeHeld host cpAmm connection user held w)) ->
  cycleEvent ev.
Proof.
  intros Hin.
  destruct (closeHeld_steps cpAmm connection user held w)
    as (gotPool & tail & Hev & Htail).
  rewrite Hev in Hin. cbn [app In] in Hin.
  destruct Hin as [<-|[<-|Hin]]; try exact I.
  destruct gotPool as [e|ps]; [destruct Htail as [-> _]; contradiction|].
  destruct Htail as (w2 & Htail). cbv zeta in Htail.
  destruct Htail as [-> _].
  apply in_app_or in Hin. destruct Hin as [Hin|Hin].
  - destruct (closePosition_steps host cpAmm connection user held ps w2)
      as [(e & Hc)|[(built & e & Hc)|(built & bh & g & t & Hc & Ht)]];
      rewrite Hc in Hin; cbn [app In] in Hin.
    + repeat (destruct Hin as [<-|Hin]; [exact I|]). contradiction.
    + repeat (destruct Hin as [<-|Hin]; [exact I|]). contradiction.
    + destruct Hin as [<-|[<-|[<-|[<-|Hin]]]]; try exact I.
      destruct g as [e|signature];
        [subst t | destruct Ht as [rd ->]]; cbn [In] in Hin;
        repeat (destruct Hin as [<-|Hin]; [exact I|]);
        contradiction.
  - destruct (outcome (closePosition host cpAmm connection user held ps w2));
      cbn [In] in Hin;
      repeat (destruct Hin as [<-|Hin]; [exact I|]);
      contradiction.
Qed.

(** A cycle reports no error and never ends the process itself. *)
Lemma cycle_kinds (w : World) :
  Forall cycleEvent (events (cycle host readRetries w)).
Proof.
  apply Forall_forall. intros ev Hin.
  destruct (cycle_steps w)
    as [[Hev _]|(connection & user & read & w1 & tail & Hsteps)].
  { rewrite Hev in Hin. contradiction. }
  cbv zeta in Hsteps. destruct Hsteps as [Hev Htail].
  rewrite Hev in Hin. cbn [app In] in Hin.
  destruct Hin as [<-|[<-|Hin]]; try exact I.
  destruct read as [e|[|first rest]].
  - subst tail. contradiction.
  - destruct Htail as (gotPool & tail2 & -> & Htail2). cbn [In] in Hin.
    destruct Hin as [<-|Hin]; [exact I|].
    destruct gotPool as [e|poolState]; [subst tail2; contradiction|].
    destruct Htail2 as (gotQuote & tail3 & -> & Htail3). cbn [In] in Hin.
    destruct Hin as [<-|Hin]; [exact I|].
    destruct gotQuote as [e|depositQuote]; [subst tail3; contradiction|].
    destruct Htail3 as (w2 & Htail3). cbv zeta in Htail3. subst tail3.
    destruct (createPosition_history host readRetries
                {| cpAmm_connection := connection |} connection user poolState
                depositQuote w2) as (Hkinds & _ & _).
    apply in_app_or in Hin. destruct Hin as [Hin|Hin].
    { apply createEvent_cycleEvent. exact (Hkinds _ Hin). }
    destruct (outcome (createPosition host readRetries _ _ user poolState
                         depositQuote w2)) as [e|made];
      [contradiction|].
    exact (closeHeld_kinds _ _ _ _ _ _ Hin).
  - subst tail. cbn [In] in Hin. destruct Hin as [<-|Hin]; [exact I|].
    exact (closeHeld_kinds _ _ _ _ _ _ Hin).
Qed.

(** One turn of the [while (true)] loop of [main]. *)
Lemma main_loop_S (iterations : nat) (loop : bool) (w : World) :
  main_loop host readRetries (S iterations) loop w
  = let r := cycle host readRetries w in
    match outcome r with
    | inl e =>
        {| outcome := inr (Exited 1); world_after := world_after r;
           events := events r ++ [ConsoleError "❌ Failed:" e; ProcessExit 1] |}
    | inr _ =>
        if loop
        then after_events (events r)
               (main_loop host readRetries iterations loop (world_after r))
        else {| outcome := inr Returned; world_after := world_after r;
                events := events r |}
    end.
Proof.
  cbv zeta. cbn [main_loop]. unfold try_catch, bind, emit, ret, after_events.
  cbn [outcome world_after events].
  destruct (outcome (cycle host readRetries w));
    cbn [outcome world_after events negb app]; rewrite ?app_nil_r.
  - reflexivity.
  - destruct loop; cbn [negb outcome world_after events];
      rewrite ?app_nil_r; reflexivity.
Qed.

Lemma main_loop_settles (iterations : nat) (loop : bool) (w : World) :
  let p := main_loop host readRetries iterations loop w in
  exists status : ProcessStatus,
    outcome p = inr status
    /\ match status with
       | Returned =>
           loop = false /\ iterations <> O /\ Forall cycleEvent (events p)
       | StillLooping =>
           (loop = true \/ iterations = O) /\ Forall cycleEvent (events p)
       | Exited code =>
           code = 1
           /\ exists (before : list event) (e : exn),
                events p
                = before ++ [ConsoleError "❌ Failed:" e; ProcessExit 1]
                /\ Forall cycleEvent before
       end.
Proof.
  revert w. induction iterations as [|n IH]; intros w p; subst p.
  - exists StillLooping. split; [reflexivity|]. split; [now right|].
    constructor.
  - rewrite main_loop_S. cbv zeta.
    pose proof (cycle_kinds w) as Hkinds.
    destruct (outcome (cycle host readRetries w)) as [e|[]].
    + exists (Exited 1). split; [reflexivity|]. split; [reflexivity|].
      exists (events (cycle host readRetries w)), e.
      split; [reflexivity | exact Hkinds].
    + destruct loop.
      * destruct (IH (world_after (cycle host readRetries w)))
          as (status & Hout & Hstatus).
        exists status. split; [exact Hout|].
        cbn [after_events events].
        destruct status as [|code|].
        -- destruct Hstatus as [Hloop _]. discriminate Hloop.
        -- destruct Hstatus as (Hcode & before & e & Hev & Hbefore).
           split; [exact Hcode|].
           exists (events (cycle host readRetries w) ++ before), e.
           split; [rewrite Hev, app_assoc; reflexivity|].
           apply Forall_app. split; assumption.
        -- destruct Hstatus as [_ Hall]. split; [now left|].
           apply Forall_app. split; assumption.
      * exists Returned. split; [reflexivity|].
        split; [reflexivity|]. split; [discriminate | exact Hkinds].
Qed.

(** [main] is its optional first line, then the loop. *)
Lemma main_run (iterations : nat) (w : World) :
  main host readRetries iterations w
  = after_events
      (if loopMode host w then [ConsoleLog "🔁 Running in loop mode "] else [])
      (main_loop host readRetries iterations (loopMode host w) w).
Proof.
  unfold main, loopMode.
  destruct (existsb (String.eqb "--loop") (processArgs host w)).
  - unfold console_log. rewrite bind_assoc, bind_emit, bind_ret.
    reflexivity.
  - rewrite bind_ret. unfold after_events. cbn [app].
    destruct (main_loop host readRetries iterations false w); reflexivity.
Qed.

(** X15: [main] never rejects.  It returns only without [--loop], and then
    it has reported no error; under [--loop] it only goes on or exits; and
    when it exits, the code is 1 and the error report followed by
    [process.exit(1)] are its last two events, the only ones of their kind
    in the run. *)
Theorem main_settles (iterations : nat) (w : World) :
  let p := main host readRetries iterations w in
  exists status : ProcessStatus,
    outcome p = inr status
    /\ match status with
       | Returned =>
           loopMode host w = false /\ iterations <> O
           /\ Forall cycleEvent (events p)
       | StillLooping =>
           (loopMode host w = true \/ iterations = O)
           /\ Forall cycleEvent (events p)
       | Exited code =>
           code = 1
           /\ exists (before : list event) (e : exn),
                events p
                = before ++ [ConsoleError "❌ Failed:" e; ProcessExit 1]
                /\ Forall cycleEvent before
       end.
Proof.
  intros p. subst p. rewrite main_run.
  destruct (main_loop_settles iterations (loopMode host w) w)
    as (status & Hout & Hstatus).
  exists status. split; [exact Hout|]. cbn [after_events events].
  assert (Hline : Forall cycleEvent
                    (if loopMode host w
                     then [ConsoleLog "🔁 Running in loop mode "] else [])).
  { destruct (loopMode host w); repeat constructor. }
  destruct status as [|code|].
  - destruct Hstatus as (Hloop & Hn & Hall).
    split; [exact Hloop|]. split; [exact Hn|].
    apply Forall_app. split; assumption.
  - destruct Hstatus as (Hcode & before & e & Hev & Hbefore).
    split; [exact Hcode|]. eexists (_ ++ before), e.
    split; [rewrite Hev, app_assoc; reflexivity|].
    apply Forall_app. split; assumption.
  - destruct Hstatus as (Hloop & Hall). split; [exact Hloop|].
    apply Forall_app. split; assumption.
Qed.

(** X16: when [loadEnv] throws, [main] makes no call at all: apart from
    the line that announces the loop mode, it reports that error and exits
    with code 1, in loop mode too, and leaves the world as it was. *)
Theorem main_stops_on_configuration_error (iterations : nat) (w : World)
    (e : exn) :
  outcome (loadEnv host w) = inl e ->
  let p := main host readRetries (S iterations) w in
  outcome p = inr (Exited 1)
  /\ world_after p = w
  /\ events p
     = (if loopMode host w then [ConsoleLog "🔁 Running in loop mode "] else [])
       ++ [ConsoleError "❌ Failed:" e; ProcessExit 1].
Proof.
  intros Henv p. subst p. rewrite main_run, main_loop_S. cbv zeta.
  destruct (loadEnv_quiet host w) as [Hquiet Hworld].
  assert (Hcycle : cycle host readRetries w
                   = {| outcome := inl e; world_after := w; events := [] |}).
  { unfold cycle. rewrite (bind_quiet _ _ _ Hquiet Hworld), Henv.
    reflexivity. }
  rewrite Hcycle. cbn [outcome world_after events after_events app].
  repeat split; reflexivity.
Qed.

End DriverMore.

(** ** Runs on the laboratory host *)

(** An event of a computed history, found by running the code. *)
Ltac in_history := vm_compute; repeat first [left; reflexivity | right].

(** C7 at an amount the division truncates. *)
Lemma addSlippage_floor_witness :
  (0 <= 12345 /\ 0 <= 37)
  /\ addSlippage 12345 37 = inr 12390
  /\ addSlippage 1000000 100 = inr 1010000
  /\ addSlippage 0 100 = inr 0.
Proof.
  split; [lia|].
  destruct (addSlippage_floor 12345 37 ltac:(lia) ltac:(lia))
    as (Hin & _ & Hfirst & Hsecond).
  destruct (Hin ltac:(lia)) as (result & Heq & Hvalue & _).
  split; [rewrite Heq, Hvalue; reflexivity|].
  split; [exact Hfirst | exact Hsecond].
Defined.

(** C7 as stated fails from 67098864 basis points on: the factor
    [10000 + bps] reaches [0x4000000], [muln] refuses it and [addSlippage]
    throws, where the formula gives a value; one basis point below, the
    value is returned. *)
Lemma addSlippage_rejects_large_bps :
  (0 <= 1000000 /\ 0 <= 67098864)
  /\ addSlippage 1000000 67098864 = inl (Error "Assertion failed")
  /\ 1000000 * (10000 + 67098864) / 10000 = 6710886400
  /\ addSlippage 1000000 67098863 = inr 6710886300.
Proof. split; [lia|]. repeat split; reflexivity. Qed.




(** The same run, spelled out: three attempts, and the error of the third. *)
Example retry_last_error_on_lab :
  let r :=
    retry (labHost 0 false) (opaque "op" labFailing) (labOptions 2)
      (labStart []) in
  thrown (events r) = [Error "failure 0"; Error "failure 1"; Error "failure 2"]
  /\ outcome r = inl (Error "failure 2")
  /\ waits (events r) = [ofZ 1000; ofZ 2000].
Proof. vm_compute. repeat split; reflexivity. Qed.






(** The same run, spelled out: one read, two positions found, and the
    error that says so. *)
Example closePosition_reports_count_on_lab :
  let r :=
    closePosition (labHost 0 true) labCpAmm labConnection labOwner labPosition
      labPool (labStart [labPosition; labOtherPosition]) in
  reads (events r) = [inr [labPosition; labOtherPosition]]
  /\ outcome r
     = inl (Error
              "Position still exists after close attempt. Found 2 position(s)").
Proof. vm_compute. split; reflexivity. Qed.


(** The same ledger under both budgets of the repository and under one
    that is too small: three reads suffice; with one retry the run fails. *)
Example createPosition_on_lab :
  let run (budget : Z) :=
    createPosition (labHost 2 false) budget labCpAmm labConnection labOwner
      labPool labQuote (labStart []) in
  reads (events (run 3)) = [inr []; inr []; inr [labPosition]]
  /\ outcome (run 3) = inr labPosition
  /\ reads (events (run 8)) = [inr []; inr []; inr [labPosition]]
  /\ outcome (run 8) = inr labPosition
  /\ reads (events (run 1)) = [inr []; inr []]
  /\ outcome (run 1) = inl (Error "Position not found after creation").
Proof. vm_compute. repeat split; reflexivity. Qed.

(** C8 on a ledger that holds two positions when the cycle starts. *)
Lemma cycle_skips_creation_witness :
  let r := cycle (labHost 0 false) 3 (labStart [labPosition; labOtherPosition]) in
  hd_error (reads (events r)) = Some (inr [labPosition; labOtherPosition])
  /\ closeRequests (events r) = [labCloseRequest]
  /\ outcome r = inr tt
  /\ createRequests (events r) = []
  /\ quoteRequests (events r) = []
  /\ forall params : RemoveAllLiquidityAndClosePositionParams,
       In params (closeRequests (events r)) ->
       rm_position params = position labPosition
       /\ rm_positionNftAccount params = positionNftAccount labPosition
       /\ rm_positionState params = positionState labPosition.
Proof.
  intros r.
  assert (Hfirst : hd_error (reads (events r))
                   = Some (inr [labPosition; labOtherPosition]))
    by (vm_compute; reflexivity).
  split; [exact Hfirst|].
  split; [vm_compute; reflexivity|]. split; [vm_compute; reflexivity|].
  destruct (cycle_skips_creation (labHost 0 false) 3
              (labStart [labPosition; labOtherPosition]) labPosition
              [labOtherPosition] Hfirst)
    as (_ & Hcreate & Hquote & Hclose & _).
  split; [exact Hcreate|]. split; [exact Hquote | exact Hclose].
Defined.

(** C8 as stated fails under [--loop]: the run of [main] starts with a read
    that finds a position, the first cycle closes it, and the second cycle,
    whose own read finds none, asks for a deposit quote and requests a
    create-and-add-liquidity transaction, which it submits. *)
Lemma main_loop_creates_after_closing :
  let p := main labLooping 3 2 (labStart [labPosition]) in
  loopMode labLooping (labStart [labPosition]) = true
  /\ hd_error (reads (events p)) = Some (inr [labPosition])
  /\ quoteRequests (events p) = [quoteParams labPool]
  /\ List.length (createRequests (events p)) = 1%nat
  /\ submitted (events p)
     = [labSigned 2 [labOwner]; labSigned 1 [labOwner; labNft];
        labSigned 2 [labOwner]]
  /\ outcome p = inr StillLooping.
Proof. vm_compute. repeat split; reflexivity. Qed.

(** ** The added properties on the laboratory host *)

Lemma addSlippage_never_lowers_witness :
  (0 <= 12345 /\ 0 <= 37 /\ 37 < 67098864)
  /\ exists result : BN,
       addSlippage 12345 37 = inr result
       /\ 12345 <= result
       /\ addSlippage 12345 0 = inr 12345.
Proof.
  split; [lia|].
  destruct (addSlippage_never_lowers 12345 37 ltac:(lia) ltac:(lia)
              ltac:(lia))
    as (result & Heq & Hle & Hzero & _).
  exists result. split; [exact Heq|]. split; [exact Hle | exact Hzero].
Defined.




Lemma closePosition_submits_prepared_witness :
  let r :=
    closePosition (labHost 0 false) labCpAmm labConnection labOwner
      labPosition labPool (labStart [labPosition]) in
  In (SendAndConfirmTransaction labConnection (labSigned 2 [labOwner])
        [labOwner] (inr "signature"%string))
     (events r)
  /\ feePayer (labSigned 2 [labOwner]) = Some (publicKey labOwner)
  /\ signedBy (labSigned 2 [labOwner]) = [publicKey labOwner].
Proof.
  intros r.
  assert (Hin : In (SendAndConfirmTransaction labConnection
                      (labSigned 2 [labOwner]) [labOwner]
                      (inr "signature"%string))
                   (events r)).
  { in_history. }
  destruct (closePosition_submits_prepared (labHost 0 false) labCpAmm
              labConnection labOwner labPosition labPool
              (labStart [labPosition]) _ _ _ _ Hin)
    as (_ & _ & Hpayer & Hsigned & _).
  split; [exact Hin|]. split; [exact Hpayer | exact Hsigned].
Defined.

Lemma closePosition_returns_only_when_verified_witness :
  let r :=
    closePosition (labHost 0 false) labCpAmm labConnection labOwner
      labPosition labPool (labStart [labPosition]) in
  outcome r = inr tt /\ reads (events r) = [inr []].
Proof.
  intros r.
  assert (Hok : outcome r = inr tt) by (vm_compute; reflexivity).
  split; [exact Hok|].
  exact (proj1 (closePosition_returns_only_when_verified (labHost 0 false)
                  labCpAmm labConnection labOwner labPosition labPool
                  (labStart [labPosition]) Hok)).
Defined.

Lemma createPosition_submits_prepared_witness :
  let r :=
    createPosition (labHost 1 false) 3 labCpAmm labConnection labOwner
      labPool labQuote (labStart []) in
  In (SendAndConfirmTransaction labConnection
        (labSigned 1 [labOwner; labNft]) [labOwner; labNft]
        (inr "signature"%string))
     (events r)
  /\ exists (positionNft : Keypair)
            (params : CreatePositionAndAddLiquidityParams),
       In (KeypairGenerate positionNft) (events r)
       /\ cp_positionNft params = publicKey positionNft
       /\ [labOwner; labNft] = [labOwner; positionNft].
Proof.
  intros r.
  assert (Hin : In (SendAndConfirmTransaction labConnection
                      (labSigned 1 [labOwner; labNft]) [labOwner; labNft]
                      (inr "signature"%string))
                   (events r)).
  { in_history. }
  split; [exact Hin|].
  destruct (createPosition_submits_prepared (labHost 1 false) 3 labCpAmm
              labConnection labOwner labPool labQuote (labStart [])
              _ _ _ _ Hin)
    as (positionNft & params & built & blockhash & before & after
        & Hev & _ & Hsigners & Hnft & _).
  fold r in Hev. exists positionNft, params.
  split; [rewrite Hev; apply in_or_app; right; left; reflexivity|].
  split; [exact Hnft | exact Hsigners].
Defined.

Lemma createPosition_unconfirmed_stops_witness :
  let r :=
    createPosition labOffline 3 labCpAmm labConnection labOwner labPool
      labQuote (labStart []) in
  (forall (tx : Transaction) (signers : list Keypair) (signature : string),
      ~ In (SendAndConfirmTransaction labConnection tx signers
              (inr signature))
          (events r))
  /\ reads (events r) = []
  /\ waits (events r) = []
  /\ exists e : exn, outcome r = inl e.
Proof.
  intros r.
  assert (Hnone : forall (tx : Transaction) (signers : list Keypair)
                         (signature : string),
             ~ In (SendAndConfirmTransaction labConnection tx signers
                     (inr signature))
                 (events r)).
  { intros tx signers signature Hin. vm_compute in Hin.
    repeat (destruct Hin as [Hin|Hin]; try discriminate Hin).
    contradiction. }
  split; [exact Hnone|].
  exact (createPosition_unconfirmed_stops labOffline 3 labCpAmm
           labConnection labOwner labPool labQuote (labStart []) Hnone).
Defined.

Lemma cycle_closes_on_fresh_pool_state_witness :
  let r := cycle (labHost 0 false) 3 (labStart [labPosition]) in
  In (RemoveAllLiquidityAndClosePosition labCloseRequest
        (inr (labTransaction 2)))
     (events r)
  /\ exists (before after : list event) (held : UserPosition)
            (rest : list UserPosition),
       events r
       = before
         ++ [SetTimeout 1000;
             FetchPoolState SOL_USDC_POOL_PK (inr labPool);
             ConsoleLog "Removing all liquidity and closing position...";
             RemoveAllLiquidityAndClosePosition labCloseRequest
               (inr (labTransaction 2))]
         ++ after
       /\ In (GetPositionsByUser (publicKey labOwner) (inr (held :: rest)))
            before
       /\ position labPosition = position held.
Proof.
  intros r.
  assert (Hin : In (RemoveAllLiquidityAndClosePosition labCloseRequest
                      (inr (labTransaction 2)))
                   (events r)).
  { in_history. }
  split; [exact Hin|].
  destruct (cycle_closes_on_fresh_pool_state (labHost 0 false) 3
              (labStart [labPosition]) _ _ Hin)
    as (before & after & poolState & held & rest & Hev & Hpool & Hread
        & Hposition & _).
  cbn in Hpool. subst poolState.
  exists before, after, held, rest.
  split; [exact Hev|]. split; [exact Hread | exact Hposition].
Defined.

Lemma main_stops_on_configuration_error_witness :
  let p := main labUnconfigured 3 5 (labStart []) in
  outcome (loadEnv labUnconfigured (labStart []))
  = inl (Error "RPC_URL environment variable is not set")
  /\ outcome p = inr (Exited 1)
  /\ events p
     = [ConsoleLog "🔁 Running in loop mode ";
        ConsoleError "❌ Failed:"
          (Error "RPC_URL environment variable is not set");
        ProcessExit 1].
Proof.
  intros p.
  assert (Henv : outcome (loadEnv labUnconfigured (labStart []))
                 = inl (Error "RPC_URL environment variable is not set"))
    by reflexivity.
  destruct (main_stops_on_configuration_error labUnconfigured 3 4
              (labStart []) _ Henv)
    as (Hout & _ & Hev).
  split; [exact Henv|]. split; [exact Hout | exact Hev].
Defined.
